(* ===== verification/_CoqProject ===== *)
-Q . S2P
Prelude.v
Regex.v
Html.v
Json.v
Dict.v
Models.v
Net.v
Database.v
Fixtures.v
Scraper.v
Competitor.v
Main.v
