(* ===== verification/Prelude.v ===== *)
(** * Shopify Insights Fetcher: a verification development

    The program scrapes a storefront: it fetches a handful of pages and one
    JSON endpoint, picks elements out of the parsed markup with CSS selectors
    and regular expressions, assembles the results into one aggregate record
    ([BrandContext]), stores it in a relational database, and repeats scrape
    and storage for up to three competitor storefronts found through a web
    search.  The sources are src/scraper.py (the scraper), src/competitor.py
    (the discovery of competitors), src/main.py (the persistence and the
    HTTP handler), src/pydantic_models.py and src/sqlalchemy_models.py (the
    two families of records).

    ** The files, and the part of the program each models

    - [Prelude] (this file): what every component shares.  Python's [str]
      is [string]; the character classes behind [str.strip], [str.lower] and
      the regular expression escapes; [strip], [rstrip], [lower],
      [startswith], [contains] (Python's [in]); the exception classes the
      program can meet as the type [exn]; fallible code as [result]; code
      that also makes requests or writes rows as the state-and-exception
      monad [M], with [try_except] and [try_catch] for [try: ... except
      C: ...] and [for_each] for a loop; the tactics and the hint databases.
    - [Regex]: the fragment of Python's [re] that src/scraper.py uses
      (character classes, greedy bounded repetition of a class, word
      boundary, concatenation, alternation), a backtracking matcher with
      Python's priorities, [findall], the two patterns of
      [get_contact_details], and a declarative semantics against which the
      matcher is proved sound and complete.
    - [Html]: the document tree of BeautifulSoup, [get_text], the CSS
      fragment the selectors of the program are written in, [select] and the
      early-exit [select_one].
    - [Json]: decoded JSON values and the Python operations the catalogue
      loop applies to them ([.get], [[0]], iteration, [str]), each with the
      exception it raises on a value of the wrong shape.
    - [Dict]: Python's insertion-ordered [dict], refined to a finite map.
    - [Models]: the models of src/pydantic_models.py as records, their
      validating constructors, and the class [Platform] of what the program
      takes from libraries (parsers, [urljoin], [quote], the [HttpUrl] and
      [EmailStr] validators, the host of a URL, the message of an
      exception).
    - [Net]: the world, which is the trace of requests and pauses, the
      class [Network] (what a GET answers after a given trace), the two
      HTTP clients and [asyncio.sleep].
    - [Database]: the mapped classes of src/sqlalchemy_models.py as records
      ([Orm]), the session that src/main.py drives ([Db]: [add], [commit]
      with the unique index on [brands.store_url] and its rollback,
      [refresh], [brand.id]), and the class [Engine] of primary keys.
    - [Fixtures]: a concrete platform, network and storefront on which the
      witnesses run.
    - [Scraper]: every method of [ShopifyScraper] in src/scraper.py:
      [__init__] ([init]), [fetch_page], the eight extractors and [scrape].
    - [Competitor]: [fetch_competitors] of src/competitor.py.
    - [Main]: [save_to_db] and the handler [fetch_insights] of src/main.py.

    ** How state and effects correspond to the code

    A method that makes requests is a computation of [M World]: it takes
    the world, returns a value or raises, and leaves the world with one
    more [EvGet url] per request and one more [EvSleep n] per pause.  The
    answer to a request is [respond trace url], so the same URL may answer
    differently each time, as a live site can.  Every extractor is written
    the way the method is: a fetch, then the loop or the conditional of the
    method as a pure function of the page ([hero_products_of], [faqs_of],
    [links_of], ...), whose body is a definition of its own
    ([hero_product], [faq_of], [add_link], ...).  An exception is a value
    [Raise e] that skips the rest of the method unless a [try_except] that
    names its class intervenes.  The session is a state of its own
    ([Db.Session]: the rows and the objects added), and the handler runs on
    the pair [App] of the world and the session.

    The program relies on version 1 of pydantic (it calls [rstrip] on a
    validated URL, which is a [str] there) and on a version of [requests]
    whose [JSONDecodeError] is a [RequestException] (2.27 or later).

    ** What the theorems show

    - [Scraper]: [fetch_page] never raises and makes one request
      ([fetch_page_spec]); the catalogue method degrades to the empty list on
      transport failures and malformed bodies that are not JSON, yields one
      product per entry, and raises on JSON of the wrong shape
      ([get_product_catalog_degrades], [catalog_one_product_per_item],
      [catalog_raises_on_non_object], [product_of_item_fields],
      [product_of_item_degraded]); the behaviour of each page extractor on
      every branch ([hero_product_Raise], [hero_product_no_link],
      [faq_of_None], [faqs_of_elem], [content_text_spec],
      [social_handles_of_spec], [platform_of_facebook], [contact_of_spec],
      [links_of_total], [links_of_last]); the shape of what the two patterns
      find ([extract_emails_shape], [extract_emails_none],
      [extract_phone_numbers_shape], [contact_example]); for [scrape], the
      order and number of requests ([scrape_requests]), the exact
      conditions under which it returns and the origin of every field
      ([scrape_fields]), and what it can raise ([scrape_Raise]).
    - [Competitor]: the links kept ([competitor_urls_of_spec]), the search
      that is refused ([fetch_competitors_not_200]) and the trace of a
      discovery, pauses included ([fetch_competitors_trace]).
    - [Main]: the rows [save_to_db] writes ([save_to_db_fresh]), its
      failure on a store URL that is already stored
      ([save_to_db_duplicate]), the invariant of the session it keeps
      ([save_to_db_ok]); for the handler, the 401 path
      ([fetch_insights_not_found]), that it raises nothing but 401 and 500
      ([fetch_insights_Raise]), what a success means
      ([fetch_insights_success]), and the two ways it answers 500 with the
      database changed or unchanged ([fetch_insights_duplicate],
      [fetch_insights_competitor_failure]).
    - The other files hold the lemmas these rest on: soundness and
      completeness of the matcher and the characterisation of the two
      patterns ([Regex]), [select_one] as the head of [select] ([Html]), the
      refinement of the dictionary to a finite map ([Dict]), the laws of the
      monad and of the loops ([Prelude]), the composition of request traces
      ([Net]), the preservation of the schema's promises by an insert and a
      flush ([Database]).

    ** Bounds

    No function of the development needs fuel: the matcher recurses on the
    text and on the repetition bounds, [findall] on the text, [select] on
    the tree, the loops on their lists; every definition is total and
    evaluates by [vm_compute].  Text is modelled over 8-bit characters and
    the character classes are Python's on the ASCII range; characters above
    127 are treated as neither letters, digits nor white space.  HTTP
    statuses and primary keys are natural numbers.

    ** Not modelled

    The libraries themselves: the parsers, [urljoin], [quote], the
    validators and the database engine are parameters ([Platform],
    [Engine]), and the theorems hold for every instance.  The timeout value
    and the headers of the HTTP clients (a request either has no response or
    yields a status and a body).  The [relationship] attributes of the
    mapped classes, which the program never reads.  What the web framework
    does around the handler: routing, the validation of the request body,
    the serialisation of the response, the opening and closing of the
    session, and the creation of the tables at import.  Interleaving of
    concurrent requests: a request is modelled as running alone. *)

From Stdlib Require Import Ascii String NArith Lia.
From stdpp Require Import base tactics option list strings.

Declare Scope py_scope.
Delimit Scope py_scope with py.

Create HintDb shop discriminated.
Create Rewrite HintDb shop.

(** ** Tactics *)

(** Case analysis on the scrutinee of the first [match] or [if] of the goal,
    keeping the equation. *)
Ltac case_scrut :=
  match goal with
  | |- context [match ?x with _ => _ end] =>
      lazymatch x with
      | context [match _ with _ => _ end] => fail
      | _ => let E := fresh "E" in destruct x eqn:E
      end
  end.

(** Boolean conjunctions and disjunctions of the hypotheses, as
    propositions. *)
Ltac bool_prop :=
  repeat match goal with
  | H : _ && _ = true |- _ => apply andb_true_iff in H as [? ?]
  | H : _ || _ = false |- _ => apply orb_false_iff in H as [? ?]
  | H : _ || _ = true |- _ => apply orb_true_iff in H
  | H : _ && _ = false |- _ => apply andb_false_iff in H
  | H : negb _ = true |- _ => apply negb_true_iff in H
  | H : negb _ = false |- _ => apply negb_false_iff in H
  | H : bool_decide _ = true |- _ => apply bool_decide_eq_true in H
  | H : bool_decide _ = false |- _ => apply bool_decide_eq_false in H
  end.

(** Membership in an explicit list, in the goal or in the hypotheses, by
    going through its elements. *)
Ltac elem_list :=
  repeat match goal with
  | H : _ ∈ _ :: _ |- _ => apply elem_of_cons in H as [->|H]
  | H : _ ∈ [] |- _ => by apply elem_of_nil in H
  end;
  rewrite ?elem_of_cons; try (intuition congruence).

(** A [bool_decide] of the goal whose proposition is decided by [tac]. *)
Tactic Notation "decide_true" "by" tactic3(tac) :=
  rewrite bool_decide_eq_true_2 by tac.
Tactic Notation "decide_false" "by" tactic3(tac) :=
  rewrite bool_decide_eq_false_2 by tac.

(** ** Characters

    The classes Python uses on the ASCII range. *)
Module Char.

Definition code (c : ascii) : N := N_of_ascii c.

Definition in_range (lo hi : N) (c : ascii) : bool :=
  (lo <=? code c)%N && (code c <=? hi)%N.

(** [\d]. *)
Definition is_digit (c : ascii) : bool := in_range 48 57 c.
Definition is_upper (c : ascii) : bool := in_range 65 90 c.
Definition is_lower (c : ascii) : bool := in_range 97 122 c.
Definition is_alpha (c : ascii) : bool := is_upper c || is_lower c.

(** [\w]: what a word boundary [\b] separates from the rest. *)
Definition is_word (c : ascii) : bool :=
  is_alpha c || is_digit c || bool_decide (c = "_"%char).

(** [str.isspace], which is also [\s] and what [str.strip()] removes:
    tab to carriage return, the four separators 28 to 31, and space. *)
Definition is_space (c : ascii) : bool := in_range 9 13 c || in_range 28 32 c.

(** [str.lower] on one character. *)
Definition to_lower (c : ascii) : ascii :=
  if is_upper c then ascii_of_N (code c + 32) else c.

End Char.

(** ** Lists of characters *)
Module Chars.

(** Drop the longest prefix whose characters satisfy [p]. *)
Fixpoint drop_while (p : ascii → bool) (l : list ascii) : list ascii :=
  match l with
  | [] => []
  | c :: l' => if p c then drop_while p l' else l
  end.

(** Drop the longest such suffix. *)
Definition drop_while_end (p : ascii → bool) (l : list ascii) : list ascii :=
  reverse (drop_while p (reverse l)).

Fixpoint starts_with (p s : list ascii) : bool :=
  match p, s with
  | [], _ => true
  | a :: p', b :: s' => bool_decide (a = b) && starts_with p' s'
  | _ :: _, [] => false
  end.

Fixpoint contains (p s : list ascii) : bool :=
  starts_with p s ||
  match s with
  | [] => false
  | _ :: s' => contains p s'
  end.

(** The part before the first occurrence of [sep]: [s.split(sep)[0]]. *)
Fixpoint before (sep : ascii) (s : list ascii) : list ascii :=
  match s with
  | [] => []
  | c :: s' => if bool_decide (c = sep) then [] else c :: before sep s'
  end.

End Chars.

(** ** Python's [str] methods *)
Module Str.

Definition chars (s : string) : list ascii := list_ascii_of_string s.
Definition of_chars (l : list ascii) : string := string_of_list_ascii l.

(** [s.strip()]. *)
Definition strip (s : string) : string :=
  of_chars (Chars.drop_while_end Char.is_space
             (Chars.drop_while Char.is_space (chars s))).

(** [s.rstrip(cs)]: trailing characters that occur in [cs] are removed. *)
Definition rstrip (cs : string) (s : string) : string :=
  of_chars (Chars.drop_while_end (λ c, bool_decide (c ∈ chars cs)) (chars s)).

(** [s.lower()]. *)
Definition lower (s : string) : string :=
  of_chars (Char.to_lower <$> chars s).

(** [s.startswith(p)]. *)
Definition startswith (p s : string) : bool :=
  Chars.starts_with (chars p) (chars s).

(** [s.endswith(p)]. *)
Definition endswith (p s : string) : bool :=
  Chars.starts_with (reverse (chars p)) (reverse (chars s)).

(** [p in s]. *)
Definition contains (p s : string) : bool :=
  Chars.contains (chars p) (chars s).

(** [s.split(sep)[0]] for a one-character separator. *)
Definition before (sep : ascii) (s : string) : string :=
  of_chars (Chars.before sep (chars s)).

(** [x in l] for a list of strings. *)
Definition mem (x : string) (l : list string) : bool := bool_decide (x ∈ l).

End Str.

(** ** Exceptions and results *)

(** The exception classes the program can meet.  [RequestException] is the
    base class of what the [requests] client raises; [ConnectionError],
    [HTTPError] and [JSONDecodeError] are subclasses of it. *)
Inductive exn : Type :=
  | ConnectionError
  | HTTPError (status : nat)
  | JSONDecodeError
  | AttributeError
  | TypeError
  | IndexError
  | KeyError
  | ValidationError
  | IntegrityError
  | ClientError
  | InvalidRequestError
  | HTTPException (status_code : nat) (detail : string).

#[global] Instance exn_eq_dec : EqDecision exn.
Proof. solve_decision. Defined.

(** [isinstance(e, requests.RequestException)]. *)
Definition is_RequestException (e : exn) : bool :=
  match e with
  | ConnectionError | HTTPError _ | JSONDecodeError => true
  | _ => false
  end.

(** [isinstance(e, HTTPException)]. *)
Definition is_HTTPException (e : exn) : bool :=
  match e with HTTPException _ _ => true | _ => false end.

Inductive result (A : Type) : Type :=
  | Ok (a : A)
  | Raise (e : exn).
Arguments Ok {A} a.
Arguments Raise {A} e.

#[global] Instance result_eq_dec `{EqDecision A} : EqDecision (result A).
Proof. solve_decision. Defined.

Definition is_Ok {A} (r : result A) : bool :=
  match r with Ok _ => true | Raise _ => false end.

Definition result_bind {A B} (r : result A) (k : A → result B) : result B :=
  match r with Ok a => k a | Raise e => Raise e end.

(** Run [f] over a list, stopping at the first exception. *)
Fixpoint result_map {A B} (f : A → result B) (l : list A) : result (list B) :=
  match l with
  | [] => Ok []
  | x :: l' =>
      result_bind (f x) (λ y, result_bind (result_map f l') (λ ys, Ok (y :: ys)))
  end.

(** [for x in l: acc = f acc x], stopping at the first exception. *)
Fixpoint result_fold {A B} (f : B → A → result B) (l : list A) (b : B)
    : result B :=
  match l with
  | [] => Ok b
  | x :: l' => result_bind (f b x) (result_fold f l')
  end.

(** [a or b] for two values that are [None] or true. *)
Definition or_else {A} (a b : option A) : option A :=
  match a with Some x => Some x | None => b end.

(** ** The monad of stateful, fallible code

    A computation takes the state, returns a value or raises, and leaves a
    state in either case: what was requested or written before an exception
    stays requested or written. *)
Definition M (S A : Type) : Type := S → result A * S.

Definition ret {S A} (a : A) : M S A := λ s, (Ok a, s).

Definition raise {S A} (e : exn) : M S A := λ s, (Raise e, s).

Definition bind {S A B} (m : M S A) (k : A → M S B) : M S B :=
  λ s, match m s with
       | (Ok a, s') => k a s'
       | (Raise e, s') => (Raise e, s')
       end.

(** A pure result as a computation. *)
Definition lift {S A} (r : result A) : M S A := λ s, (r, s).

(** [try: m except C: h], where [catches] says which exceptions are
    instances of [C]. *)
Definition try_except {S A} (m : M S A) (catches : exn → bool) (h : M S A)
    : M S A :=
  λ s, match m s with
       | (Raise e, s') => if catches e then h s' else (Raise e, s')
       | r => r
       end.

(** [try: m except C as e: h e]. *)
Definition try_catch {S A} (m : M S A) (catches : exn → bool)
    (h : exn → M S A) : M S A :=
  λ s, match m s with
       | (Raise e, s') => if catches e then h e s' else (Raise e, s')
       | r => r
       end.

(** [for x in l: body x], the list of the values the iterations yield. *)
Fixpoint for_each {S A B} (l : list A) (body : A → M S B) : M S (list B) :=
  match l with
  | [] => ret []
  | x :: l' =>
      bind (body x) (λ y, bind (for_each l' body) (λ ys, ret (y :: ys)))
  end.

Notation "x <- m ;; k" := (bind m (λ x, k))
  (at level 100, m at next level, right associativity) : py_scope.
Notation "m ;;; k" := (bind m (λ _, k))
  (at level 100, right associativity) : py_scope.
Notation "x <-r m ;; k" := (result_bind m (λ x, k))
  (at level 100, m at next level, right associativity) : py_scope.

(** ** Lemmas on lists *)

Lemma fmap_nil_iff {A B} (f : A → B) (l : list A) : f <$> l = [] ↔ l = [].
Proof. split; [apply fmap_nil_inv | by intros ->]. Qed.

Lemma omap_length_le {A B} (f : A → option B) l :
  length (omap f l) ≤ length l.
Proof. induction l as [|x l IH]; csimpl; [done|]. destruct (f x); simpl; lia. Qed.

Lemma Forall2_iff_elem {A B} (P Q : A → B → Prop) l k :
  (∀ x y, x ∈ l → P x y ↔ Q x y) → Forall2 P l k ↔ Forall2 Q l k.
Proof.
  revert k. induction l as [|x l IH]; intros k HPQ.
  - split; intros ->%Forall2_nil_inv_l; constructor.
  - split; intros (y & k' & Hy & Hk & ->)%Forall2_cons_inv_l; constructor;
      try (by apply HPQ; [left|]);
      (apply IH; [intros; apply HPQ; by right | done]).
Qed.

Lemma nonempty_length {A} (l : list A) : l ≠ [] ↔ 1 ≤ length l.
Proof. destruct l; simpl; split; (done || lia || intros; done). Qed.

Lemma filter_app_head {A} (P : A → Prop) `{∀ x, Decision (P x)} (l k : list A) :
  head (filter P (l ++ k)) =
  match head (filter P l) with Some x => Some x | None => head (filter P k) end.
Proof. rewrite filter_app. by destruct (filter P l). Qed.

(** ** Lemmas on characters *)

Lemma to_lower_not_upper c : Char.is_upper (Char.to_lower c) = false.
Proof.
  unfold Char.to_lower. destruct (Char.is_upper c) eqn:E; [|done].
  revert E. unfold Char.is_upper, Char.in_range, Char.code.
  destruct c as [[] [] [] [] [] [] [] []]; vm_compute; congruence.
Qed.

Lemma to_lower_idemp c : Char.to_lower (Char.to_lower c) = Char.to_lower c.
Proof. unfold Char.to_lower at 1. by rewrite to_lower_not_upper. Qed.

Lemma digit_is_word c : Char.is_digit c = true → Char.is_word c = true.
Proof. unfold Char.is_word. intros ->. by rewrite orb_true_r. Qed.

Lemma space_not_word c : Char.is_space c = true → Char.is_word c = false.
Proof. destruct c as [[] [] [] [] [] [] [] []]; vm_compute; congruence. Qed.

#[export] Hint Resolve digit_is_word space_not_word : shop.
#[export] Hint Rewrite to_lower_idemp to_lower_not_upper : shop.

(** ** Lemmas on lists of characters *)

Section DropWhile.
Context (p : ascii → bool).

Lemma drop_while_suffix l : Chars.drop_while p l `suffix_of` l.
Proof.
  induction l as [|c l IH]; simpl; [done|].
  destruct (p c); [by apply suffix_cons_r | done].
Qed.

Lemma drop_while_head l c l' : Chars.drop_while p l = c :: l' → p c = false.
Proof.
  induction l as [|a l IH]; simpl; [done|].
  destruct (p a) eqn:E; [done | congruence].
Qed.

Lemma drop_while_idemp l :
  Chars.drop_while p (Chars.drop_while p l) = Chars.drop_while p l.
Proof.
  destruct (Chars.drop_while p l) as [|c l'] eqn:E; [done|].
  simpl. by rewrite (drop_while_head _ _ _ E).
Qed.

Lemma drop_while_app_false l c l' :
  p c = false →
  Chars.drop_while p (l ++ c :: l') = Chars.drop_while p l ++ c :: l'.
Proof.
  intros Hc. induction l as [|a l IH]; simpl; [by rewrite Hc|].
  by destruct (p a).
Qed.

Lemma drop_while_all l :
  Forall (λ c, p c = true) l → Chars.drop_while p l = [].
Proof. induction 1 as [|c l Hc _ IH]; simpl; [done|]. by rewrite Hc. Qed.

(** What is dropped satisfies the predicate. *)
Lemma drop_while_dropped l :
  ∃ k, l = k ++ Chars.drop_while p l ∧ Forall (λ c, p c = true) k.
Proof.
  induction l as [|c l (k & E & Hk)]; simpl; [by exists []|].
  destruct (p c) eqn:Ec; [|by exists []].
  exists (c :: k). split; [simpl; by f_equal | by constructor].
Qed.

Lemma drop_while_end_dropped l :
  ∃ k, l = Chars.drop_while_end p l ++ k ∧ Forall (λ c, p c = true) k.
Proof.
  destruct (drop_while_dropped (reverse l)) as (k & E & Hk).
  exists (reverse k). split; [|by apply Forall_reverse].
  apply (inj reverse). unfold Chars.drop_while_end.
  by rewrite reverse_app, !reverse_involutive.
Qed.

Lemma drop_while_end_prefix l : Chars.drop_while_end p l `prefix_of` l.
Proof.
  unfold Chars.drop_while_end.
  destruct (drop_while_suffix (reverse l)) as [k Hk].
  exists (reverse k). apply (inj reverse).
  by rewrite reverse_app, !reverse_involutive.
Qed.

Lemma drop_while_end_last l c l' :
  Chars.drop_while_end p l = l' ++ [c] → p c = false.
Proof.
  unfold Chars.drop_while_end. intros Hl%(f_equal reverse).
  rewrite reverse_involutive, reverse_snoc in Hl.
  by eapply drop_while_head.
Qed.

Lemma drop_while_end_idemp l :
  Chars.drop_while_end p (Chars.drop_while_end p l) = Chars.drop_while_end p l.
Proof.
  unfold Chars.drop_while_end. by rewrite reverse_involutive, drop_while_idemp.
Qed.

Lemma drop_while_end_nil : Chars.drop_while_end p [] = [].
Proof. done. Qed.

(** Trimming the end does not touch a front that begins with a character
    that stays. *)
Lemma drop_while_end_cons c l :
  p c = false →
  Chars.drop_while_end p (c :: l) = c :: Chars.drop_while_end p l.
Proof.
  unfold Chars.drop_while_end. intros Hc.
  by rewrite reverse_cons, drop_while_app_false, reverse_app by done.
Qed.

End DropWhile.

Lemma starts_with_spec p s : Chars.starts_with p s = true ↔ p `prefix_of` s.
Proof.
  revert s. induction p as [|a p IH]; intros [|b s]; simpl.
  - split; [intros; apply prefix_nil | done].
  - split; [intros; apply prefix_nil | done].
  - split; [done | intros Hp%prefix_nil_inv; done].
  - rewrite andb_true_iff, bool_decide_eq_true, IH. split.
    + intros [-> ?]. by apply prefix_cons.
    + intros Hp. split; [by eapply prefix_cons_inv_1 | by eapply prefix_cons_inv_2].
Qed.

Lemma chars_contains_spec p s :
  Chars.contains p s = true ↔ ∃ a b, s = a ++ p ++ b.
Proof.
  induction s as [|c s IH]; simpl.
  - rewrite orb_false_r, starts_with_spec. split.
    + intros [k ->]. by exists [], k.
    + intros (a & b & Hs). symmetry in Hs.
      apply app_eq_nil in Hs as [-> Hs]. apply app_eq_nil in Hs as [-> _].
      apply prefix_nil.
  - rewrite orb_true_iff, starts_with_spec, IH. split.
    + intros [[k ->] | (a & b & ->)]; [by exists [], k | by exists (c :: a), b].
    + intros ([|x a] & b & Hs); simpl in Hs.
      * left. exists b. done.
      * right. injection Hs as -> ->. eauto.
Qed.

Lemma chars_before_prefix sep s : Chars.before sep s `prefix_of` s.
Proof.
  induction s as [|c s IH]; simpl; [done|].
  case_bool_decide; [apply prefix_nil | by apply prefix_cons].
Qed.

Lemma chars_before_no_sep sep s : sep ∉ Chars.before sep s.
Proof.
  induction s as [|c s IH]; simpl; [apply not_elem_of_nil|].
  case_bool_decide; [apply not_elem_of_nil|].
  rewrite not_elem_of_cons. split; [congruence | done].
Qed.

(** ** Lemmas on strings *)

Lemma of_chars_chars s : Str.of_chars (Str.chars s) = s.
Proof. apply string_of_list_ascii_of_string. Qed.

Lemma chars_of_chars l : Str.chars (Str.of_chars l) = l.
Proof. apply list_ascii_of_string_of_list_ascii. Qed.

Lemma chars_inj s1 s2 : Str.chars s1 = Str.chars s2 → s1 = s2.
Proof. intros E. by rewrite <-(of_chars_chars s1), E, of_chars_chars. Qed.

Lemma chars_app s1 s2 : Str.chars (s1 +:+ s2) = Str.chars s1 ++ Str.chars s2.
Proof. induction s1 as [|c s1 IH]; simpl; [done|]. by rewrite IH. Qed.

Lemma of_chars_app l1 l2 :
  Str.of_chars (l1 ++ l2) = Str.of_chars l1 +:+ Str.of_chars l2.
Proof. apply chars_inj. by rewrite chars_app, !chars_of_chars. Qed.

Lemma str_app_empty_r s : s +:+ "" = s.
Proof. apply chars_inj. rewrite chars_app. apply app_nil_r. Qed.

Lemma str_app_assoc s1 s2 s3 : (s1 +:+ s2) +:+ s3 = s1 +:+ (s2 +:+ s3).
Proof. apply chars_inj. by rewrite !chars_app, (assoc_L (++)). Qed.

Lemma startswith_spec p s : Str.startswith p s = true ↔ ∃ r, s = p +:+ r.
Proof.
  unfold Str.startswith. rewrite starts_with_spec. split.
  - intros [k Hk]. exists (Str.of_chars k). apply chars_inj.
    by rewrite chars_app, chars_of_chars.
  - intros [r ->]. exists (Str.chars r). apply chars_app.
Qed.

Lemma str_contains_spec p s :
  Str.contains p s = true ↔ ∃ a b, s = a +:+ p +:+ b.
Proof.
  unfold Str.contains. rewrite chars_contains_spec. split.
  - intros (a & b & E). exists (Str.of_chars a), (Str.of_chars b).
    apply chars_inj. by rewrite !chars_app, !chars_of_chars.
  - intros (a & b & ->). exists (Str.chars a), (Str.chars b).
    by rewrite !chars_app.
Qed.

Lemma lower_idemp s : Str.lower (Str.lower s) = Str.lower s.
Proof.
  unfold Str.lower. rewrite chars_of_chars, <-list_fmap_compose. f_equal.
  apply list_fmap_ext. intros _ c _. apply to_lower_idemp.
Qed.

Lemma str_contains_trans a b c :
  Str.contains a b = true → Str.contains b c = true → Str.contains a c = true.
Proof.
  rewrite !str_contains_spec. intros (p & q & ->) (p' & q' & ->).
  exists (p' +:+ p), (q +:+ q'). by rewrite !str_app_assoc.
Qed.

Lemma mem_spec x l : Str.mem x l = true ↔ x ∈ l.
Proof. apply bool_decide_eq_true. Qed.

(** What [strip] returns has no white space to strip. *)
Lemma strip_idemp s : Str.strip (Str.strip s) = Str.strip s.
Proof.
  unfold Str.strip. rewrite chars_of_chars. f_equal.
  destruct (Chars.drop_while Char.is_space (Str.chars s)) as [|c l] eqn:E;
    [done|].
  apply drop_while_head in E.
  rewrite (drop_while_end_cons _ c l E). simpl. rewrite E.
  by rewrite (drop_while_end_cons _ _ _ E), drop_while_end_idemp.
Qed.

(** What [rstrip] returns does not end with a character of the set. *)
Lemma rstrip_last cs s l c :
  Str.chars (Str.rstrip cs s) = l ++ [c] → c ∉ Str.chars cs.
Proof.
  unfold Str.rstrip. rewrite chars_of_chars.
  intros E%drop_while_end_last. by apply bool_decide_eq_false in E.
Qed.

(** What [rstrip] removes is made of characters of the set. *)
Lemma rstrip_prefix cs s :
  ∃ k, s = Str.rstrip cs s +:+ k ∧ Forall (λ c, c ∈ Str.chars cs) (Str.chars k).
Proof.
  destruct (drop_while_end_dropped (λ c, bool_decide (c ∈ Str.chars cs))
              (Str.chars s)) as (k & E & Hk).
  exists (Str.of_chars k). unfold Str.rstrip. split.
  - apply chars_inj. by rewrite chars_app, !chars_of_chars.
  - rewrite chars_of_chars. eapply Forall_impl; [done|].
    intros c Hc. by apply bool_decide_eq_true in Hc.
Qed.

Lemma rstrip_idemp cs s : Str.rstrip cs (Str.rstrip cs s) = Str.rstrip cs s.
Proof. unfold Str.rstrip. by rewrite chars_of_chars, drop_while_end_idemp. Qed.

#[export] Hint Rewrite of_chars_chars chars_of_chars chars_app lower_idemp
  strip_idemp rstrip_idemp : shop.

(** ** Lemmas on results *)

Lemma result_fold_app {A B} (f : B → A → result B) l1 l2 b :
  result_fold f (l1 ++ l2) b = result_bind (result_fold f l1 b) (result_fold f l2).
Proof.
  revert b. induction l1 as [|x l1 IH]; intros b; simpl; [done|].
  destruct (f b x); simpl; [apply IH | done].
Qed.

(** A property that every step keeps holds of the result of a fold. *)
Lemma result_fold_inv {A B} (P : B → Prop) (f : B → A → result B) l b b' :
  (∀ b x b', x ∈ l → P b → f b x = Ok b' → P b') →
  P b → result_fold f l b = Ok b' → P b'.
Proof.
  revert b. induction l as [|x l IH]; intros b Hf Hb; simpl; [by intros [= <-]|].
  destruct (f b x) as [b1|] eqn:E; simpl; [|done].
  apply IH; [|by eapply Hf; [apply list_elem_of_here|..]].
  intros ?????. eapply Hf; [by apply list_elem_of_further|..]; done.
Qed.

Lemma result_map_Ok_length {A B} (f : A → result B) l ys :
  result_map f l = Ok ys → length ys = length l.
Proof.
  revert ys. induction l as [|x l IH]; intros ys; simpl; [by intros [= <-]|].
  destruct (f x); simpl; [|done].
  destruct (result_map f l); simpl; [|done].
  intros [= <-]. simpl. f_equal. by apply IH.
Qed.

(** A fold whose steps all return returns. *)
Lemma result_fold_total {A B} (f : B → A → result B) l b :
  (∀ b x, x ∈ l → is_Ok (f b x) = true) → is_Ok (result_fold f l b) = true.
Proof.
  revert b. induction l as [|x l IH]; intros b Hf; simpl; [done|].
  specialize (Hf b x (list_elem_of_here _ _)) as Hx.
  destruct (f b x); simpl; [|done].
  apply IH. intros. apply Hf. by apply list_elem_of_further.
Qed.

Lemma is_Ok_true {A} (r : result A) : is_Ok r = true ↔ ∃ a, r = Ok a.
Proof. destruct r; naive_solver. Qed.

(** The loop returns a list exactly when every element yields a value:
    the list of these values, in order. *)
Lemma result_map_Ok_Forall2 {A B} (f : A → result B) l ys :
  result_map f l = Ok ys ↔ Forall2 (λ x y, f x = Ok y) l ys.
Proof.
  revert ys. induction l as [|x l IH]; intros ys; simpl.
  - split; [intros [= <-]; constructor | by intros ->%Forall2_nil_inv_l].
  - destruct (f x) as [y|e] eqn:E; simpl.
    + destruct (result_map f l) as [ys'|e] eqn:E'; simpl.
      * split; [intros [= <-]; constructor; [done | by apply IH]|].
        intros (y' & ys'' & Hy & ?%IH & ->)%Forall2_cons_inv_l. congruence.
      * split; [done|]. by intros (? & ? & _ & ?%IH & _)%Forall2_cons_inv_l.
    + split; [done|]. intros (? & ? & ? & _)%Forall2_cons_inv_l. congruence.
Qed.

Lemma result_map_total {A B} (f : A → result B) (g : A → B) l :
  (∀ x, x ∈ l → f x = Ok (g x)) → result_map f l = Ok (g <$> l).
Proof.
  induction l as [|x l IH]; intros Hf; simpl; [done|].
  rewrite (Hf x) by apply list_elem_of_here. simpl.
  rewrite IH; [done|]. intros y Hy. apply Hf. by apply list_elem_of_further.
Qed.

(** The map raises exactly when [f] raises on an element; the exception is
    the one of the first such element. *)
Lemma result_map_Raise {A B} (f : A → result B) l e :
  result_map f l = Raise e → ∃ x, x ∈ l ∧ f x = Raise e.
Proof.
  induction l as [|x l IH]; simpl; [done|].
  destruct (f x) eqn:E; simpl.
  - destruct (result_map f l); simpl; [done|]. intros [= ->].
    destruct IH as (y & ? & ?); [done|]. exists y. split; [by right | done].
  - intros [= ->]. exists x. split; [by left | done].
Qed.

Lemma result_map_Ok_all {A B} (f : A → result B) l ys x :
  result_map f l = Ok ys → x ∈ l → is_Ok (f x) = true.
Proof.
  revert ys. induction l as [|y l IH]; intros ys; simpl; [by intros _ ?%elem_of_nil|].
  destruct (f y) eqn:E; simpl; [|done].
  destruct (result_map f l); simpl; [|done].
  intros _ [->|Hx]%elem_of_cons; [by rewrite E | by eapply IH].
Qed.

(** ** Lemmas on the monad *)

Section Monad.
Context {S : Type}.
Implicit Types s : S.

Lemma bind_ret_l {A B} (a : A) (k : A → M S B) s : bind (ret a) k s = k a s.
Proof. done. Qed.

Lemma bind_ret_r {A} (m : M S A) s : bind m ret s = m s.
Proof. unfold bind, ret. by destruct (m s) as [[?|?] ?]. Qed.

Lemma bind_assoc {A B C} (m : M S A) (k : A → M S B) (h : B → M S C) s :
  bind (bind m k) h s = bind m (λ a, bind (k a) h) s.
Proof. unfold bind. by destruct (m s) as [[?|?] ?]. Qed.

Lemma bind_raise {A B} e (k : A → M S B) s : bind (raise e) k s = (Raise e, s).
Proof. done. Qed.

Lemma bind_lift_Ok {A B} (a : A) (k : A → M S B) s :
  bind (lift (Ok a)) k s = k a s.
Proof. done. Qed.

Lemma bind_lift_Raise {A B} e (k : A → M S B) s :
  bind (lift (Raise e)) k s = (Raise e, s).
Proof. done. Qed.

Lemma try_except_Ok {A} (m : M S A) catches h s a s' :
  m s = (Ok a, s') → try_except m catches h s = (Ok a, s').
Proof. unfold try_except. by intros ->. Qed.

Lemma try_except_caught {A} (m : M S A) catches h s e s' :
  m s = (Raise e, s') → catches e = true → try_except m catches h s = h s'.
Proof. unfold try_except. by intros -> ->. Qed.

Lemma try_except_passed {A} (m : M S A) catches h s e s' :
  m s = (Raise e, s') → catches e = false →
  try_except m catches h s = (Raise e, s').
Proof. unfold try_except. by intros -> ->. Qed.

(** A chain that returns has returned at every step. *)
(** A loop keeps what every round keeps, and raises only what a round
    raises. *)
Lemma for_each_inv {A B} (P : S → Prop) (Q : exn → Prop) l
    (body : A → M S B) s r s' :
  (∀ x s r s', P s → body x s = (r, s') → P s' ∧ ∀ e, r = Raise e → Q e) →
  P s → for_each l body s = (r, s') → P s' ∧ ∀ e, r = Raise e → Q e.
Proof.
  intros Hb. revert s r s'.
  induction l as [|x l IH]; intros s r s' Hs; simpl.
  - by intros [= <- <-].
  - unfold bind at 1. destruct (body x s) as [[y|e0] s0] eqn:E.
    + destruct (Hb _ _ _ _ Hs E) as [Hs0 _]. unfold bind at 1.
      destruct (for_each l body s0) as [[ys|e1] s1] eqn:El.
      * intros [= <- <-]. destruct (IH _ _ _ Hs0 El). by split.
      * intros [= <- <-]. destruct (IH _ _ _ Hs0 El) as [? HQ].
        split; [done|]. intros e [= <-]. by apply HQ.
    + intros [= <- <-]. destruct (Hb _ _ _ _ Hs E) as [? HQ].
      split; [done|]. intros e [= <-]. by apply HQ.
Qed.

(** A loop that raises has a round that raises. *)
Lemma for_each_Raise {A B} (l : list A) (body : A → M S B) s e s' :
  for_each l body s = (Raise e, s') →
  ∃ x s0 s1, x ∈ l ∧ body x s0 = (Raise e, s1).
Proof.
  revert s. induction l as [|x l IH]; intros s; simpl; [done|]. unfold bind at 1.
  destruct (body x s) as [[y|e0] s0] eqn:E.
  - unfold bind at 1. destruct (for_each l body s0) as [[ys|e1] s1] eqn:El; [done|].
    intros [= <- <-]. destruct (IH _ El) as (x' & ? & ? & ? & ?).
    exists x'. eauto using list_elem_of_further.
  - intros [= <- <-]. exists x. eauto using list_elem_of_here.
Qed.

(** A step whose run is known: the chain continues from its result. *)
Lemma bind_run {A B} (m : M S A) (k : A → M S B) s r s' :
  m s = (r, s') →
  bind m k s = match r with Ok a => k a s' | Raise e => (Raise e, s') end.
Proof. unfold bind. by intros ->. Qed.

Lemma bind_Ok_inv {A B} (m : M S A) (k : A → M S B) s b s'' :
  bind m k s = (Ok b, s'') → ∃ a s', m s = (Ok a, s') ∧ k a s' = (Ok b, s'').
Proof. unfold bind. destruct (m s) as [[a|e] s']; [eauto | done]. Qed.

Lemma lift_Ok_inv {A} (r : result A) s a s' :
  lift r s = (Ok a, s') → r = Ok a ∧ s' = s.
Proof. by intros [= -> ->]. Qed.

End Monad.

#[export] Hint Rewrite @bind_ret_l @bind_ret_r @bind_assoc @bind_raise
  @bind_lift_Ok @bind_lift_Raise : shop.
