(* ===== verification/Regex.v ===== *)
(** * Regex: the fragment of Python's [re] used by [get_contact_details]

    [re.findall(pattern, text)] with the two patterns of src/scraper.py.
    The patterns are built from character classes, greedy repetition of a
    class between two bounds, the word boundary, concatenation and
    alternation, and nothing else; [regex] is that fragment.  [exec] is a
    backtracking matcher with the priorities of the library (the left
    alternative first, the longest repetition first), [scan] is the loop of
    [findall], and [Matches] is the declarative meaning of a pattern, with
    the character before and the text after a match as context for the word
    boundary. *)

From Stdlib Require Import Ascii String NArith Lia.
From stdpp Require Import base tactics option list strings.
From S2P Require Import Prelude.

Module Re.

(** ** Patterns *)

(** An item of a bracket expression, or an escape that stands for a class. *)
Inductive citem : Type :=
  | CChar (c : ascii)
  | CRange (lo hi : ascii)
  | CDigit
  | CSpace.

(** A character class: the union of its items. *)
Definition cset : Type := list citem.

Definition citem_mem (c : ascii) (i : citem) : bool :=
  match i with
  | CChar x => bool_decide (c = x)
  | CRange lo hi => Char.in_range (Char.code lo) (Char.code hi) c
  | CDigit => Char.is_digit c
  | CSpace => Char.is_space c
  end.

Definition cset_mem (cs : cset) (c : ascii) : bool := existsb (citem_mem c) cs.

Inductive regex : Type :=
  | Rep (cs : cset) (lo : nat) (hi : option nat)
  | Bound
  | Seq (r1 r2 : regex)
  | Alt (r1 r2 : regex).

(** One character of a class, [cs+], [cs?], [cs{n}], [cs{n,}]. *)
Definition One (cs : cset) : regex := Rep cs 1 (Some 1).
Definition Plus (cs : cset) : regex := Rep cs 1 None.
Definition Opt (cs : cset) : regex := Rep cs 0 (Some 1).
Definition Exactly (n : nat) (cs : cset) : regex := Rep cs n (Some n).
Definition AtLeast (n : nat) (cs : cset) : regex := Rep cs n None.

Declare Scope re_scope.
Delimit Scope re_scope with re.
Infix "⋅" := Seq (at level 40, left associativity) : re_scope.
Infix "∣" := Alt (at level 50, left associativity) : re_scope.

(** ** The matcher *)

(** [\b]: exactly one of the characters around the position is a word
    character; the start and the end of the text count as non-word. *)
Definition word_before (prev : option ascii) : bool :=
  from_option Char.is_word false prev.

Definition at_boundary (prev : option ascii) (s : list ascii) : bool :=
  xorb (word_before prev) (from_option Char.is_word false (head s)).

(** Whether the bound [hi] allows one more repetition. *)
Definition may_repeat (hi : option nat) : bool :=
  match hi with Some 0 => false | _ => true end.

(** Greedy repetition of a class followed by the continuation [k]: one more
    character is taken whenever the class and the upper bound allow it, and
    the repetition stops here, once [lo] is reached, only if everything
    longer has failed. *)
Fixpoint rep {R} (cs : cset) (lo : nat) (hi : option nat)
    (prev : option ascii) (s : list ascii)
    (k : option ascii → list ascii → option R) {struct s} : option R :=
  let stop := match lo with 0 => k prev s | S _ => None end in
  match s with
  | c :: s' =>
      if cset_mem cs c && may_repeat hi then
        match rep cs (pred lo) (pred <$> hi) (Some c) s' k with
        | Some x => Some x
        | None => stop
        end
      else stop
  | [] => stop
  end.

(** The matcher in continuation-passing style: [k] receives the character
    before the position reached and the rest of the text, and a [None] from
    it makes the matcher backtrack. *)
Fixpoint exec {R} (r : regex) (prev : option ascii) (s : list ascii)
    (k : option ascii → list ascii → option R) : option R :=
  match r with
  | Rep cs lo hi => rep cs lo hi prev s k
  | Bound => if at_boundary prev s then k prev s else None
  | Seq r1 r2 => exec r1 prev s (λ prev' s', exec r2 prev' s' k)
  | Alt r1 r2 =>
      match exec r1 prev s k with
      | Some x => Some x
      | None => exec r2 prev s k
      end
  end.

(** One attempt at the current position: the text matched, if any.  With
    [must_advance] an empty match is refused, as the library does for the
    attempt that follows an empty match at the same position. *)
Definition attempt (r : regex) (prev : option ascii) (s : list ascii)
    (must_advance : bool) : option (list ascii) :=
  rest ← exec r prev s (λ _ rest,
            if must_advance && (length rest =? length s) then None
            else Some rest);
  Some (take (length s - length rest) s).

(** The matches that [findall] reports at one position, and the number of
    positions the loop then skips.  After an empty match the library tries
    the same position once more, refusing the empty match. *)
Definition hits_at (r : regex) (prev : option ascii) (s : list ascii)
    : list (list ascii) * nat :=
  match attempt r prev s false with
  | Some [] =>
      match attempt r prev s true with
      | Some w => ([[]; w], pred (length w))
      | None => ([[]], 0)
      end
  | Some w => ([w], pred (length w))
  | None => ([], 0)
  end.

(** The loop of [findall], position by position; [skip] counts the
    positions left inside the match found last. *)
Fixpoint scan (r : regex) (prev : option ascii) (s : list ascii) (skip : nat)
    : list (list ascii) :=
  match skip, s with
  | S n, c :: s' => scan r (Some c) s' n
  | S n, [] => []
  | 0, [] => (hits_at r prev []).1
  | 0, c :: s' =>
      let '(hits, skip') := hits_at r prev s in
      hits ++ scan r (Some c) s' skip'
  end.

(** [re.findall(r, text)] for a pattern without groups. *)
Definition findall (r : regex) (text : string) : list string :=
  Str.of_chars <$> scan r None (Str.chars text) 0.

(** ** The patterns of the program *)

Definition alnum : cset :=
  [CRange "a" "z"; CRange "A" "Z"; CRange "0" "9"]%char.

(** [[a-zA-Z0-9._%+-]+@[a-zA-Z0-9.-]+\.[a-zA-Z]{2,}] *)
Definition email_local : cset :=
  alnum ++ [CChar "."; CChar "_"; CChar "%"; CChar "+"; CChar "-"]%char.
Definition email_domain : cset := alnum ++ [CChar "."; CChar "-"]%char.
Definition email_tld : cset := [CRange "a" "z"; CRange "A" "Z"]%char.

Definition email_re : regex :=
  (Plus email_local ⋅ One [CChar "@"%char] ⋅ Plus email_domain
   ⋅ One [CChar "."%char] ⋅ AtLeast 2 email_tld)%re.

(** [\b\d{10}\b|\+\d{1,3}\s?\d{10}\b] *)
Definition phone_bare : regex := (Bound ⋅ Exactly 10 [CDigit] ⋅ Bound)%re.
Definition phone_intl : regex :=
  (One [CChar "+"%char] ⋅ Rep [CDigit] 1 (Some 3) ⋅ Opt [CSpace]
   ⋅ Exactly 10 [CDigit] ⋅ Bound)%re.
Definition phone_re : regex := (phone_bare ∣ phone_intl)%re.

(** ** What a pattern means *)

(** The character before the position reached by reading [w] from a position
    that [prev] precedes. *)
Definition last_char (prev : option ascii) (w : list ascii) : option ascii :=
  match last w with Some c => Some c | None => prev end.

Definition within (hi : option nat) (n : nat) : Prop :=
  ∀ h, hi = Some h → n ≤ h.

(** [Matches r prev w next]: the text [w] matches [r] where the character
    before it is [prev] and the text after it is [next]. *)
Inductive Matches : regex → option ascii → list ascii → list ascii → Prop :=
  | M_Rep cs lo hi prev w next :
      Forall (λ c, cset_mem cs c = true) w →
      lo ≤ length w → within hi (length w) →
      Matches (Rep cs lo hi) prev w next
  | M_Bound prev next :
      at_boundary prev next = true → Matches Bound prev [] next
  | M_Seq r1 r2 prev w1 w2 next :
      Matches r1 prev w1 (w2 ++ next) →
      Matches r2 (last_char prev w1) w2 next →
      Matches (Seq r1 r2) prev (w1 ++ w2) next
  | M_Alt_l r1 r2 prev w next :
      Matches r1 prev w next → Matches (Alt r1 r2) prev w next
  | M_Alt_r r1 r2 prev w next :
      Matches r2 prev w next → Matches (Alt r1 r2) prev w next.

(** [w] occurs in [s] as a match of [r], between [pre] and [post]; [prev]
    is the character before [s]. *)
Definition Occurs (r : regex) (prev : option ascii) (s pre w post : list ascii)
    : Prop :=
  s = pre ++ w ++ post ∧ Matches r (last_char prev pre) w post.

(** The text made of the gaps and the matches in turn: a gap, a match, a
    gap, ..., a last gap. *)
Fixpoint weave (gaps ws : list (list ascii)) : list ascii :=
  match gaps, ws with
  | g :: gaps', w :: ws' => g ++ w ++ weave gaps' ws'
  | g :: _, [] => g
  | [], _ => []
  end.

(** A lower bound on the length of what a pattern matches. *)
Fixpoint min_len (r : regex) : nat :=
  match r with
  | Rep _ lo _ => lo
  | Bound => 0
  | Seq r1 r2 => min_len r1 + min_len r2
  | Alt r1 r2 => min (min_len r1) (min_len r2)
  end.

(** ** The shape of what the two patterns match *)

Definition all_in (cs : cset) (w : list ascii) : Prop :=
  Forall (λ c, cset_mem cs c = true) w.

(** A local part, an at sign, a domain, a dot, and at least two letters. *)
Definition is_email (w : list ascii) : Prop :=
  ∃ l d t, w = l ++ "@"%char :: d ++ "."%char :: t ∧
    l ≠ [] ∧ all_in email_local l ∧
    d ≠ [] ∧ all_in email_domain d ∧
    2 ≤ length t ∧ all_in email_tld t.

Definition digits (n : nat) (w : list ascii) : Prop :=
  length w = n ∧ Forall (λ c, Char.is_digit c = true) w.

(** The text after a match does not go on with a word character. *)
Definition ends_word (next : list ascii) : Prop :=
  from_option Char.is_word false (head next) = false.

(** Ten digits that stand alone, or a plus sign, one to three digits, at
    most one white space and ten digits that end a word. *)
Definition is_phone (prev : option ascii) (w next : list ascii) : Prop :=
  (digits 10 w ∧ word_before prev = false ∧ ends_word next) ∨
  (∃ cc sp n, w = "+"%char :: cc ++ sp ++ n ∧
     1 ≤ length cc ≤ 3 ∧ Forall (λ c, Char.is_digit c = true) cc ∧
     length sp ≤ 1 ∧ Forall (λ c, Char.is_space c = true) sp ∧
     digits 10 n ∧ ends_word next).

(** [e] stands in [text] between [pre] and [post] and matches [r] there. *)
Definition occurs_in (r : regex) (text pre e post : string) : Prop :=
  text = pre +:+ e +:+ post ∧
  Matches r (last_char None (Str.chars pre)) (Str.chars e) (Str.chars post).

End Re.

Import Re.

#[export] Hint Constructors Matches : shop.

(** ** Lemmas on contexts *)

Lemma last_char_nil prev : last_char prev [] = prev.
Proof. done. Qed.

Lemma last_char_cons prev c w : last_char prev (c :: w) = last_char (Some c) w.
Proof.
  unfold last_char. destruct w as [|a w]; [done|].
  change (last (c :: a :: w)) with (last (a :: w)).
  destruct (last (a :: w)) eqn:E; [done|]. by apply last_None in E.
Qed.

Lemma last_char_app prev w1 w2 :
  last_char prev (w1 ++ w2) = last_char (last_char prev w1) w2.
Proof.
  revert prev. induction w1 as [|c w1 IH]; intros prev; [done|].
  by rewrite <-app_comm_cons, !last_char_cons, IH.
Qed.

Lemma within_pred hi n : within hi (S n) → within (pred <$> hi) n.
Proof. intros H h. destruct hi as [h'|]; [|done]. intros [= <-]. specialize (H h' eq_refl). lia. Qed.

Lemma within_may_repeat hi n : within hi (S n) → may_repeat hi = true.
Proof. destruct hi as [[|h]|]; [|done..]. intros H. specialize (H 0 eq_refl). lia. Qed.

Lemma may_repeat_within hi n :
  may_repeat hi = true → within (pred <$> hi) n → within hi (S n).
Proof.
  destruct hi as [[|h]|]; [done| |by intros _ _ ? [=]].
  intros _ H ? [= <-]. specialize (H h eq_refl). lia.
Qed.

#[export] Hint Rewrite last_char_nil last_char_cons last_char_app : shop.

(** ** The matcher against the meaning *)

Section Matcher.
Context {R : Type}.
Implicit Types k : option ascii → list ascii → option R.

(** What [rep] returns comes from the continuation, after a run of the
    class of an allowed length. *)
Lemma rep_sound cs lo hi prev s k x :
  rep cs lo hi prev s k = Some x →
  ∃ w rest, s = w ++ rest ∧ Forall (λ c, cset_mem cs c = true) w ∧
    lo ≤ length w ∧ within hi (length w) ∧ k (last_char prev w) rest = Some x.
Proof.
  assert (Hstop : ∀ lo hi prev s,
    match lo with 0 => k prev s | S _ => None end = Some x →
    ∃ w rest, s = w ++ rest ∧ Forall (λ c, cset_mem cs c = true) w ∧
      lo ≤ length w ∧ within hi (length w) ∧ k (last_char prev w) rest = Some x).
  { intros [|?] hi' ? s' Hk; [|done]. exists [], s'.
    repeat split; [constructor | done | intros ??; simpl; lia | done]. }
  revert lo hi prev. induction s as [|c s IH]; intros lo hi prev; simpl.
  { apply Hstop. }
  destruct (cset_mem cs c && may_repeat hi) eqn:E; [|apply Hstop].
  destruct (rep cs (pred lo) (pred <$> hi) (Some c) s k) as [y|] eqn:Er;
    [|apply Hstop].
  intros [= ->]. bool_prop.
  destruct (IH _ _ _ Er) as (w & rest & -> & Hw & Hlo & Hhi & Hk).
  exists (c :: w), rest. rewrite last_char_cons.
  repeat split; [by constructor | simpl; lia | by apply may_repeat_within | done].
Qed.

(** If the continuation accepts what follows some run of the class of an
    allowed length, [rep] returns something. *)
Lemma rep_complete cs lo hi prev w rest k :
  Forall (λ c, cset_mem cs c = true) w →
  lo ≤ length w → within hi (length w) →
  is_Some (k (last_char prev w) rest) →
  is_Some (rep cs lo hi prev (w ++ rest) k).
Proof.
  intros Hw. revert lo hi prev.
  induction Hw as [|c w Hc Hw IH]; intros lo hi prev Hlo Hhi Hk; simpl in *.
  - assert (lo = 0) as -> by lia.
    destruct rest as [|c rest]; simpl; [done|].
    destruct (_ && _); [|done]. by destruct (rep _ _ _ _ _ _).
  - rewrite Hc, (within_may_repeat _ _ Hhi). simpl.
    rewrite last_char_cons in Hk.
    destruct (IH (pred lo) (pred <$> hi) (Some c)) as [y ->];
      [lia | by apply within_pred | done | done].
Qed.

Lemma exec_sound r prev s k x :
  exec r prev s k = Some x →
  ∃ w rest, s = w ++ rest ∧ Matches r prev w rest ∧
    k (last_char prev w) rest = Some x.
Proof.
  revert prev s k. induction r as [cs lo hi| |r1 IH1 r2 IH2|r1 IH1 r2 IH2];
    intros prev s k; simpl.
  - intros (w & rest & ? & ? & ? & ? & ?)%rep_sound.
    exists w, rest. eauto with shop.
  - destruct (at_boundary prev s) eqn:E; [|done]. intros Hk.
    exists [], s. eauto with shop.
  - intros (w1 & s1 & -> & H1 & (w2 & rest & -> & H2 & Hk)%IH2)%IH1.
    exists (w1 ++ w2), rest.
    rewrite last_char_app, <-(assoc_L (++)). eauto with shop.
  - destruct (exec r1 prev s k) as [y|] eqn:E1.
    + intros [= <-]. destruct (IH1 _ _ _ E1) as (w & rest & ? & ? & ?).
      exists w, rest. eauto with shop.
    + intros (w & rest & ? & ? & ?)%IH2. exists w, rest. eauto with shop.
Qed.
End Matcher.

Lemma exec_complete {R} r prev w rest (k : option ascii → list ascii → option R) :
  Matches r prev w rest →
  is_Some (k (last_char prev w) rest) →
  is_Some (exec r prev (w ++ rest) k).
Proof.
  intros HM. revert k.
  induction HM as [cs lo hi prev w next Hw Hlo Hhi|prev next Hb
    |r1 r2 prev w1 w2 next _ IH1 _ IH2|r1 r2 prev w next _ IH
    |r1 r2 prev w next _ IH]; intros k Hk; simpl.
  - by apply rep_complete.
  - by rewrite Hb.
  - rewrite <-(assoc_L (++)). apply IH1, IH2. by rewrite <-last_char_app.
  - destruct (IH k Hk) as [y ->]. done.
  - destruct (exec r1 prev (w ++ next) k); [done|]. by apply IH.
Qed.

(** What matches is at least [min_len] long. *)
Lemma Matches_min_len r prev w next : Matches r prev w next → min_len r ≤ length w.
Proof.
  induction 1; simpl; [done|lia| |lia|lia].
  rewrite length_app. lia.
Qed.

(** ** One attempt *)

Lemma attempt_sound r prev s adv w :
  attempt r prev s adv = Some w →
  ∃ rest, s = w ++ rest ∧ Matches r prev w rest ∧ (adv = true → w ≠ []).
Proof.
  unfold attempt. destruct (exec _ _ _ _) as [rest|] eqn:E; [|done].
  intros [= <-]. apply exec_sound in E as (w & rest' & -> & HM & Hk).
  destruct (adv && _) eqn:Eadv; [done|]. injection Hk as ->.
  rewrite length_app, Nat.add_sub, take_app_length.
  exists rest. repeat split; [done|]. intros -> ->.
  by rewrite Nat.eqb_refl in Eadv.
Qed.

Lemma attempt_complete r prev w rest adv :
  Matches r prev w rest → (adv = true → w ≠ []) →
  is_Some (attempt r prev (w ++ rest) adv).
Proof.
  intros HM Hadv. unfold attempt.
  eapply exec_complete in HM as [x ->]; [done|].
  destruct adv; [|done]. simpl.
  destruct (Nat.eqb_spec (length rest) (length (w ++ rest))) as [E|]; [|done].
  rewrite length_app in E. destruct w; [by destruct Hadv | simpl in E; lia].
Qed.

(** No attempt succeeds exactly where nothing matches. *)
Lemma attempt_None r prev s :
  attempt r prev s false = None ↔
  ∀ w rest, s = w ++ rest → ¬ Matches r prev w rest.
Proof.
  split.
  - intros E w rest -> HM.
    apply (attempt_complete _ _ _ _ false) in HM as [x Hx]; [|done].
    by rewrite E in Hx.
  - intros H. destruct (attempt r prev s false) as [w|] eqn:E; [|done].
    apply attempt_sound in E as (rest & -> & HM & _). by destruct (H w rest).
Qed.

(** ** The matches at one position *)

Lemma hits_at_spec r prev s hits n :
  hits_at r prev s = (hits, n) →
  n = pred (length (concat hits)) ∧
  concat hits `prefix_of` s ∧
  Forall (λ w, ∃ rest, s = w ++ rest ∧ Matches r prev w rest) hits ∧
  (hits = [] → attempt r prev s false = None).
Proof.
  unfold hits_at.
  destruct (attempt r prev s false) as [w|] eqn:E1.
  2:{ intros [= <- <-]. repeat split; [apply prefix_nil | constructor]. }
  apply attempt_sound in E1 as (rest & -> & HM & _).
  assert (Hw : ∃ rest0, w ++ rest = w ++ rest0 ∧ Matches r prev w rest0) by eauto.
  destruct w as [|c w].
  - destruct (attempt r prev _ true) as [w'|] eqn:E2.
    + apply attempt_sound in E2 as (rest' & E & HM' & _).
      intros [= <- <-]. simpl. rewrite app_nil_r.
      repeat split; [by exists rest' | | done].
      repeat constructor; [done|]. by exists rest'.
    + intros [= <- <-]. repeat split; [apply prefix_nil | by repeat constructor | done].
  - intros [= <- <-]. simpl concat. rewrite app_nil_r.
    repeat split; [by exists rest | by repeat constructor | done].
Qed.

Lemma hits_at_None r prev s :
  attempt r prev s false = None → hits_at r prev s = ([], 0).
Proof. unfold hits_at. by intros ->. Qed.

(** ** The loop *)

Lemma Occurs_here r prev w rest : Matches r prev w rest → Occurs r prev (w ++ rest) [] w rest.
Proof. by split. Qed.

Lemma Occurs_cons r prev c s pre w post :
  Occurs r (Some c) s pre w post → Occurs r prev (c :: s) (c :: pre) w post.
Proof. intros [-> HM]. split; [done|]. by rewrite last_char_cons. Qed.

Lemma Occurs_cons_inv r prev c s pre w post :
  Occurs r prev (c :: s) pre w post →
  (pre = [] ∧ Matches r prev w post ∧ c :: s = w ++ post) ∨
  (∃ pre', pre = c :: pre' ∧ Occurs r (Some c) s pre' w post).
Proof.
  intros [E HM]. destruct pre as [|x pre]; [left; by eauto|right].
  injection E as <- ->. exists pre. split; [done|]. split; [done|].
  by rewrite last_char_cons in HM.
Qed.

Lemma hits_at_occurs r prev s hits n w :
  hits_at r prev s = (hits, n) → w ∈ hits → ∃ post, Occurs r prev s [] w post.
Proof.
  intros (_ & _ & H & _)%hits_at_spec Hw.
  rewrite Forall_forall in H. destruct (H w Hw) as (rest & -> & HM).
  exists rest. by apply Occurs_here.
Qed.

(** Every match reported is an occurrence of the pattern in the text. *)
Lemma scan_occurs r prev s skip w :
  w ∈ scan r prev s skip →
  ∃ pre post, Occurs r prev s pre w post ∧ skip ≤ length pre.
Proof.
  revert prev skip. induction s as [|c s IH]; intros prev [|n]; simpl.
  - destruct (hits_at r prev []) as [hits m] eqn:E. simpl.
    intros (post & H)%(hits_at_occurs _ _ _ _ _ _ E). by exists [], post.
  - by intros ?%elem_of_nil.
  - destruct (hits_at r prev (c :: s)) as [hits m] eqn:E.
    intros [Hw | Hw]%elem_of_app.
    + destruct (hits_at_occurs _ _ _ _ _ _ E Hw) as [post H]. by exists [], post.
    + destruct (IH _ _ Hw) as (pre & post & H & _).
      exists (c :: pre), post. split; [by apply Occurs_cons | simpl; lia].
  - intros (pre & post & H & ?)%IH.
    exists (c :: pre), post. split; [by apply Occurs_cons | simpl; lia].
Qed.

(** Nothing is reported exactly when the pattern occurs nowhere. *)
Lemma scan_nil r prev s :
  scan r prev s 0 = [] ↔ ∀ pre w post, ¬ Occurs r prev s pre w post.
Proof.
  revert prev. induction s as [|c s IH]; intros prev; simpl.
  - destruct (hits_at r prev []) as [hits m] eqn:E. simpl. split.
    + intros ->. apply hits_at_spec in E as (_ & _ & _ & E).
      specialize (E eq_refl). rewrite attempt_None in E.
      intros pre w post [Hs HM]. symmetry in Hs.
      apply app_eq_nil in Hs as [-> [-> ->]%app_eq_nil]. by eapply (E [] []).
    + intros H. destruct hits as [|w hits]; [done|].
      destruct (hits_at_occurs _ _ _ _ _ w E) as [post Hw]; [by left|].
      by destruct (H [] w post).
  - destruct (hits_at r prev (c :: s)) as [hits m] eqn:E. split.
    + intros [-> Hs]%app_eq_nil pre w post H.
      apply hits_at_spec in E as (-> & _ & _ & E). specialize (E eq_refl).
      apply Occurs_cons_inv in H as [(-> & HM & Hw) | (pre' & -> & H)].
      * rewrite attempt_None in E. by eapply E.
      * by eapply IH.
    + intros H. rewrite hits_at_None in E.
      * injection E as <- <-. apply IH. intros pre w post Ho.
        eapply H. by apply Occurs_cons.
      * apply attempt_None. intros w rest Hs HM. eapply (H [] w rest). by split.
Qed.

(** ** The matches partition the text *)

Lemma weave_cons_gap c g gaps ws :
  weave ((c :: g) :: gaps) ws = c :: weave (g :: gaps) ws.
Proof. by destruct ws. Qed.

Lemma weave_hits hits gaps ws :
  weave (replicate (length hits) [] ++ gaps) (hits ++ ws)
  = concat hits ++ weave gaps ws.
Proof.
  induction hits as [|w hits IH]; simpl; [done|].
  by rewrite IH, (assoc_L (++)).
Qed.

(** One step of the loop on a non-empty text, seen from the gaps. *)
Lemma weave_step c s hits gaps ws :
  concat hits `prefix_of` c :: s →
  length gaps = S (length ws) →
  weave gaps ws = drop (pred (length (concat hits))) s →
  ∃ gaps', length gaps' = S (length (hits ++ ws)) ∧
    weave gaps' (hits ++ ws) = c :: s.
Proof.
  intros [k Hk] Hlen Hw. destruct (concat hits) as [|x l] eqn:E.
  - destruct gaps as [|g gaps]; [done|]. cbn [length pred drop] in Hw.
    exists (replicate (length hits) [] ++ (c :: g) :: gaps). split.
    + rewrite !length_app, length_replicate. simpl in *. lia.
    + by rewrite weave_hits, E, weave_cons_gap, Hw.
  - cbn [length pred] in Hw. simpl in Hk. injection Hk as -> ->.
    rewrite drop_app_length in Hw.
    exists (replicate (length hits) [] ++ gaps). split.
    + rewrite !length_app, length_replicate. lia.
    + by rewrite weave_hits, E, Hw.
Qed.

(** The matches reported are consecutive, non-overlapping pieces of the
    text, in the order of the text: with the gaps between them they make up
    the text again. *)
Lemma scan_weave r prev s skip :
  skip ≤ length s →
  ∃ gaps, length gaps = S (length (scan r prev s skip)) ∧
    weave gaps (scan r prev s skip) = drop skip s.
Proof.
  revert prev skip. induction s as [|c s IH]; intros prev [|n] Hn; simpl in *.
  - destruct (hits_at r prev []) as [hits m] eqn:E. simpl.
    apply hits_at_spec in E as (_ & [k Hk] & _). symmetry in Hk.
    apply app_eq_nil in Hk as [Hk _].
    exists (replicate (length hits) [] ++ [[]]). split.
    + rewrite length_app, length_replicate. simpl. lia.
    + rewrite <-(app_nil_r hits) at 2. by rewrite weave_hits, Hk.
  - lia.
  - destruct (hits_at r prev (c :: s)) as [hits m] eqn:E.
    apply hits_at_spec in E as (-> & Hp & _).
    destruct (IH (Some c) (pred (length (concat hits)))) as (gaps & Hlen & Hw).
    { apply prefix_length in Hp. simpl in Hp. lia. }
    by eapply weave_step.
  - apply IH. lia.
Qed.

(** ** Inversion of the meaning *)

Lemma within_Some h n : within (Some h) n ↔ n ≤ h.
Proof. split; [intros H; by apply H | intros ? ? [= <-]; done]. Qed.

Lemma within_None n : within None n.
Proof. by intros ?. Qed.

Lemma Matches_Rep cs lo hi prev w next :
  Matches (Rep cs lo hi) prev w next ↔
  Forall (λ c, cset_mem cs c = true) w ∧ lo ≤ length w ∧ within hi (length w).
Proof. split; [by inversion 1 | intros (? & ? & ?); by constructor]. Qed.

Lemma Matches_Bound prev w next :
  Matches Bound prev w next ↔ w = [] ∧ at_boundary prev next = true.
Proof. split; [by inversion 1 | intros [-> ?]; by constructor]. Qed.

Lemma Matches_Seq r1 r2 prev w next :
  Matches (Seq r1 r2) prev w next ↔
  ∃ w1 w2, w = w1 ++ w2 ∧ Matches r1 prev w1 (w2 ++ next) ∧
    Matches r2 (last_char prev w1) w2 next.
Proof.
  split; [inversion 1; by eauto 6 | intros (? & ? & -> & ? & ?); by constructor].
Qed.

Lemma Matches_Alt r1 r2 prev w next :
  Matches (Alt r1 r2) prev w next ↔
  Matches r1 prev w next ∨ Matches r2 prev w next.
Proof.
  split; [inversion 1; by eauto | intros [?|?]; eauto with shop].
Qed.

(** A class of one literal character, once. *)
Lemma Matches_lit c prev w next :
  Matches (One [CChar c]) prev w next ↔ w = [c].
Proof.
  unfold One. rewrite Matches_Rep, within_Some. split.
  - intros (Hw & ? & ?). destruct w as [|x [|??]]; simpl in *; [lia| |lia].
    apply Forall_inv in Hw. simpl in Hw. rewrite orb_false_r in Hw.
    by apply bool_decide_eq_true in Hw as ->.
  - intros ->. repeat split; [|done..]. repeat constructor. simpl.
    by rewrite bool_decide_eq_true_2.
Qed.

(** Exactly [n] characters of a class. *)
Lemma Matches_Exactly n cs prev w next :
  Matches (Exactly n cs) prev w next ↔
  length w = n ∧ Forall (λ c, cset_mem cs c = true) w.
Proof. unfold Exactly. rewrite Matches_Rep, within_Some. intuition lia. Qed.

Lemma cset_digit c : cset_mem [CDigit] c = Char.is_digit c.
Proof. simpl. apply orb_false_r. Qed.

Lemma cset_space c : cset_mem [CSpace] c = Char.is_space c.
Proof. simpl. apply orb_false_r. Qed.

(** The boundary after a word character asks for a non-word character or the
    end of the text; the boundary before one asks for the same of what
    precedes. *)
Lemma at_boundary_after c next :
  Char.is_word c = true →
  at_boundary (Some c) next = negb (from_option Char.is_word false (head next)).
Proof. unfold at_boundary. simpl. by intros ->. Qed.

Lemma at_boundary_before prev c s :
  Char.is_word c = true →
  at_boundary prev (c :: s) = negb (word_before prev).
Proof. unfold at_boundary. simpl. intros ->. by destruct (word_before prev). Qed.

Lemma last_char_Forall (P : ascii → Prop) prev w :
  w ≠ [] → Forall P w → ∃ c, last_char prev w = Some c ∧ P c.
Proof.
  intros Hw HP. destruct (last w) as [c|] eqn:E.
  - exists c. unfold last_char. rewrite E. split; [done|].
    rewrite Forall_forall in HP. apply HP. by apply last_Some_elem_of.
  - by apply last_None in E.
Qed.

Lemma all_in_digit w : all_in [CDigit] w ↔ Forall (λ c, Char.is_digit c = true) w.
Proof. unfold all_in. by setoid_rewrite cset_digit. Qed.

Lemma all_in_space w : all_in [CSpace] w ↔ Forall (λ c, Char.is_space c = true) w.
Proof. unfold all_in. by setoid_rewrite cset_space. Qed.

Lemma email_re_spec prev w next : Matches email_re prev w next ↔ is_email w.
Proof.
  unfold email_re, is_email, Plus, AtLeast.
  rewrite !Matches_Seq. repeat setoid_rewrite Matches_Seq.
  repeat setoid_rewrite Matches_lit. repeat setoid_rewrite Matches_Rep.
  repeat setoid_rewrite nonempty_length. split.
  - intros (? & t & -> & (? & ? & -> & (? & d & -> & (l & ? & -> & ? & ->)
      & ?) & ->) & ?). exists l, d, t.
    rewrite <-!(assoc_L (++)). simpl. unfold all_in. intuition.
  - intros (l & d & t & -> & ? & ? & ? & ? & ? & ?).
    exists (l ++ "@"%char :: d ++ ["."%char]), t.
    split; [by rewrite <-(assoc_L (++)); simpl; rewrite <-(assoc_L (++))|].
    split; [|by auto using within_None].
    exists (l ++ "@"%char :: d), ["."%char].
    split; [by rewrite <-(assoc_L (++))|]. split; [|done].
    exists (l ++ ["@"%char]), d. split; [by rewrite <-(assoc_L (++))|].
    split; [|by auto using within_None].
    exists l, ["@"%char]. by auto using within_None.
Qed.

(** The boundary that closes a run of digits. *)
Lemma Bound_after_digits prev n w next :
  0 < n → digits n w →
  Matches Bound (last_char prev w) [] next ↔ ends_word next.
Proof.
  intros Hn [Hlen Hw]. rewrite Matches_Bound.
  assert (Hne : w ≠ []) by (apply nonempty_length; lia).
  destruct (last_char_Forall _ prev w Hne Hw) as (c & -> & Hc).
  rewrite at_boundary_after by auto with shop. unfold ends_word.
  destruct (from_option _ _ _); simpl; intuition congruence.
Qed.

(** The boundary that opens one. *)
Lemma Bound_before_digits prev n w next :
  0 < n → digits n w →
  Matches Bound prev [] (w ++ next) ↔ word_before prev = false.
Proof.
  intros Hn [Hlen Hw]. rewrite Matches_Bound.
  destruct Hw as [|c w Hc Hw]; simpl in *; [lia|].
  rewrite at_boundary_before by auto with shop.
  destruct (word_before prev); simpl; intuition congruence.
Qed.

Lemma phone_bare_spec prev w next :
  Matches phone_bare prev w next ↔
  digits 10 w ∧ word_before prev = false ∧ ends_word next.
Proof.
  unfold phone_bare. rewrite !Matches_Seq. repeat setoid_rewrite Matches_Seq.
  setoid_rewrite Matches_Exactly. setoid_rewrite all_in_digit. split.
  - intros (? & ? & -> & (? & w1 & -> & Hb & Hd) & He).
    apply Matches_Bound in Hb as Hb'. destruct Hb' as [-> _].
    apply Matches_Bound in He as He'. destruct He' as [-> _].
    simpl in *. rewrite app_nil_r in *.
    erewrite (Bound_before_digits _ 10) in Hb by (done || lia).
    erewrite (Bound_after_digits _ 10) in He by (done || lia). done.
  - intros (Hd & Hp & He). exists w, []. rewrite app_nil_r.
    split; [done|]. split.
    + exists [], w. simpl. split; [done|]. split; [|done].
      by eapply (Bound_before_digits _ 10); [lia|..].
    + by eapply (Bound_after_digits _ 10); [lia|..].
Qed.

Lemma phone_intl_spec prev w next :
  Matches phone_intl prev w next ↔
  ∃ cc sp n, w = "+"%char :: cc ++ sp ++ n ∧
    1 ≤ length cc ≤ 3 ∧ Forall (λ c, Char.is_digit c = true) cc ∧
    length sp ≤ 1 ∧ Forall (λ c, Char.is_space c = true) sp ∧
    digits 10 n ∧ ends_word next.
Proof.
  unfold phone_intl, Opt. rewrite !Matches_Seq. repeat setoid_rewrite Matches_Seq.
  repeat setoid_rewrite Matches_lit. setoid_rewrite Matches_Exactly.
  repeat setoid_rewrite Matches_Rep. repeat setoid_rewrite within_Some.
  setoid_rewrite all_in_digit. setoid_rewrite all_in_space. split.
  - intros (? & ? & -> & (? & n & -> & (? & sp & -> & (? & cc & -> & -> & ?)
      & ?) & Hn) & He).
    apply Matches_Bound in He as He'. destruct He' as [-> _].
    rewrite last_char_app in He.
    erewrite (Bound_after_digits _ 10) in He by (done || lia).
    exists cc, sp, n. rewrite app_nil_r, <-!(assoc_L (++)). simpl.
    unfold digits. intuition (done || lia).
  - intros (cc & sp & n & -> & ? & ? & ? & ? & Hn & He).
    exists ("+"%char :: cc ++ sp ++ n), []. rewrite app_nil_r.
    split; [done|]. split.
    + exists ("+"%char :: cc ++ sp), n.
      split; [simpl; by rewrite (assoc_L (++))|]. split; [|done].
      exists ("+"%char :: cc), sp. split; [done|]. split; [|intuition (done || lia)].
      exists ["+"%char], cc. intuition (done || lia).
    + change ("+"%char :: cc ++ sp ++ n) with (("+"%char :: cc) ++ sp ++ n).
      rewrite (assoc_L (++)), last_char_app.
      by eapply (Bound_after_digits _ 10); [lia|..].
Qed.

Lemma phone_re_spec prev w next :
  Matches phone_re prev w next ↔ is_phone prev w next.
Proof.
  unfold phone_re, is_phone.
  by rewrite Matches_Alt, phone_bare_spec, phone_intl_spec.
Qed.

(** A telephone number found has between ten and fifteen characters. *)
Lemma is_phone_length prev w next : is_phone prev w next → 10 ≤ length w ≤ 15.
Proof.
  intros [([? _] & _) | (cc & sp & n & -> & ? & _ & ? & _ & [? _] & _)].
  - lia.
  - simpl. rewrite !length_app. lia.
Qed.

(** An e-mail address found has exactly the characters the pattern allows:
    at least six of them. *)
Lemma is_email_length w : is_email w → 6 ≤ length w.
Proof.
  intros (l & d & t & -> & ?%nonempty_length & _ & ?%nonempty_length & _ & ? & _).
  rewrite length_app. simpl. rewrite length_app. simpl. lia.
Qed.

(** ** [findall] on strings *)

Lemma occurs_in_Occurs r text pre e post :
  occurs_in r text pre e post ↔
  Occurs r None (Str.chars text) (Str.chars pre) (Str.chars e) (Str.chars post).
Proof.
  unfold occurs_in, Occurs. split; intros [E HM]; (split; [|done]).
  - by rewrite E, !chars_app.
  - apply chars_inj. by rewrite !chars_app.
Qed.

Lemma Occurs_occurs_in r text pre w post :
  Occurs r None (Str.chars text) pre w post →
  occurs_in r text (Str.of_chars pre) (Str.of_chars w) (Str.of_chars post).
Proof. intros H. apply occurs_in_Occurs. by rewrite !chars_of_chars. Qed.

(** Every string [findall] returns occurs in the text as a match. *)
Lemma findall_occurs r text e :
  e ∈ findall r text → ∃ pre post, occurs_in r text pre e post.
Proof.
  unfold findall. intros (w & -> & Hw)%list_elem_of_fmap.
  apply scan_occurs in Hw as (pre & post & H & _).
  exists (Str.of_chars pre), (Str.of_chars post). by apply Occurs_occurs_in.
Qed.

(** [findall] returns nothing exactly when the pattern occurs nowhere. *)
Lemma findall_nil r text :
  findall r text = [] ↔ ∀ pre e post, ¬ occurs_in r text pre e post.
Proof.
  unfold findall. rewrite fmap_nil_iff, scan_nil. split.
  - intros H pre e post Ho%occurs_in_Occurs. by eapply H.
  - intros H pre w post Ho%Occurs_occurs_in. by eapply H.
Qed.

(** The strings [findall] returns are pieces of the text that follow one
    another without overlap. *)
Lemma findall_weave r text :
  ∃ gaps, length gaps = S (length (findall r text)) ∧
    weave gaps (Str.chars <$> findall r text) = Str.chars text.
Proof.
  destruct (scan_weave r None (Str.chars text) 0) as (gaps & Hlen & Hw); [lia|].
  exists gaps. unfold findall. rewrite length_fmap, <-list_fmap_compose.
  split; [done|]. erewrite list_fmap_ext; [by rewrite list_fmap_id|].
  intros _ w _. apply chars_of_chars.
Qed.

(** A string of [occurs_in] is a substring of the text. *)
Lemma occurs_in_contains r text pre e post :
  occurs_in r text pre e post → Str.contains e text = true.
Proof. intros [-> _]. apply str_contains_spec. eauto. Qed.
