(* ===== verification/Html.v ===== *)
(** * Html: the document tree and the CSS selectors of the scraper

    What BeautifulSoup gives src/scraper.py and src/competitor.py: a tree of
    elements, text and comments ([node]); [tag.text]; [tag["href"]];
    [select] and [select_one] for the selectors the program writes, which
    are lists of alternatives, each a conjunction of a tag name, class names
    and attribute-contains tests.  [select] lists the proper descendants
    that match in document order; [select_one] is a search that stops at the
    first one. *)

From Stdlib Require Import Ascii String NArith Lia.
From stdpp Require Import base tactics option list strings.
From S2P Require Import Prelude.

Module Dom.

(** ** The tree *)

#[local] Unset Elimination Schemes.
Inductive node : Type :=
  | Text (s : string)
  | Comment (s : string)
  | Elem (tag : string) (attrs : list (string * string)) (children : list node).
#[local] Set Elimination Schemes.

Definition children (n : node) : list node :=
  match n with Elem _ _ cs => cs | _ => [] end.

Definition is_elem (n : node) : bool :=
  match n with Elem _ _ _ => true | _ => false end.

(** The value of the first pair whose key is [a]. *)
Fixpoint assoc (a : string) (l : list (string * string)) : option string :=
  match l with
  | [] => None
  | (k, v) :: l' => if bool_decide (k = a) then Some v else assoc a l'
  end.

(** [tag.get(a)]: the value of attribute [a]. *)
Definition attr (a : string) (n : node) : option string :=
  match n with
  | Elem _ attrs _ => assoc a attrs
  | _ => None
  end.

(** [tag[a]], which raises [KeyError] when the attribute is missing. *)
Definition attr_get (a : string) (n : node) : result string :=
  match attr a n with Some v => Ok v | None => Raise KeyError end.

(** The words of a white-space separated attribute value; [cur] is the word
    being read, reversed. *)
Fixpoint words_go (cur : list ascii) (s : list ascii) : list (list ascii) :=
  let flush := match cur with [] => [] | _ => [reverse cur] end in
  match s with
  | [] => flush
  | c :: s' =>
      if Char.is_space c then flush ++ words_go [] s'
      else words_go (c :: cur) s'
  end.

Definition words (s : string) : list string :=
  Str.of_chars <$> words_go [] (Str.chars s).

(** The class names of an element. *)
Definition classes (n : node) : list string :=
  from_option words [] (attr "class" n).

(** The node and everything below it, in document order. *)
Fixpoint subtree (n : node) : list node :=
  n :: match n with
       | Elem _ _ cs => flat_map subtree cs
       | _ => []
       end.

(** Everything below a node, in document order. *)
Definition descendants (n : node) : list node := flat_map subtree (children n).

(** [tag.text]: the text strings below the node, concatenated. *)
Fixpoint text (n : node) : string :=
  match n with
  | Text s => s
  | Comment _ => ""
  | Elem _ _ cs => fold_right (λ c acc, text c +:+ acc) "" cs
  end.

(** ** Selectors *)

Inductive simple : Type :=
  | STag (t : string)
  | SClass (c : string)
  | SAttrContains (a v : string).

(** [a[href*='x']] is [[STag "a"; SAttrContains "href" "x"]]. *)
Definition compound : Type := list simple.

(** [s1, s2] is [[s1; s2]]. *)
Definition selector : Type := list compound.

Definition matches_simple (n : node) (s : simple) : bool :=
  match n with
  | Elem tag _ _ =>
      match s with
      | STag t => bool_decide (tag = t)
      | SClass c => bool_decide (c ∈ classes n)
      | SAttrContains a v =>
          match attr a n with
          | Some x => negb (bool_decide (v = "")) && Str.contains v x
          | None => false
          end
      end
  | _ => false
  end.

Definition matches_compound (n : node) (c : compound) : bool :=
  is_elem n && forallb (matches_simple n) c.

Definition matches (sel : selector) (n : node) : bool :=
  existsb (matches_compound n) sel.

(** [tag.select(sel)]. *)
Definition select (sel : selector) (n : node) : list node :=
  filter (λ x, matches sel x = true) (descendants n).

(** The first node of a subtree that satisfies [p], searching in document
    order and stopping as soon as one is found. *)
Fixpoint find_first (p : node → bool) (n : node) : option node :=
  if p n then Some n
  else match n with
       | Elem _ _ cs =>
           (fix find_in (l : list node) : option node :=
              match l with
              | [] => None
              | c :: l' =>
                  match find_first p c with
                  | Some x => Some x
                  | None => find_in l'
                  end
              end) cs
       | _ => None
       end.

Fixpoint find_in (p : node → bool) (l : list node) : option node :=
  match l with
  | [] => None
  | c :: l' =>
      match find_first p c with
      | Some x => Some x
      | None => find_in p l'
      end
  end.

(** [tag.select_one(sel)]. *)
Definition select_one (sel : selector) (n : node) : option node :=
  find_in (matches sel) (children n).

(** A selector all of whose alternatives test that attribute [a] contains
    something. *)
Definition tests_attr (a : string) (sel : selector) : Prop :=
  Forall (λ c, ∃ v, SAttrContains a v ∈ c) sel.

End Dom.

Import Dom.

(** ** Lemmas *)

(** The induction principle that reaches the children. *)
Lemma node_ind' (P : node → Prop)
    (HText : ∀ s, P (Text s))
    (HComment : ∀ s, P (Comment s))
    (HElem : ∀ tag attrs children, Forall P children → P (Elem tag attrs children)) :
  ∀ n, P n.
Proof.
  fix IH 1. intros [s|s|tag attrs children]; [apply HText | apply HComment |].
  apply HElem. induction children as [|c cs IHcs]; constructor; [apply IH | apply IHcs].
Qed.

Lemma find_first_unfold p n :
  find_first p n = if p n then Some n else find_in p (children n).
Proof.
  destruct n as [s|s|tag attrs cs]; simpl; [done..|].
  destruct (p _); [done|]. induction cs as [|c cs IH]; simpl; [done|].
  by rewrite IH.
Qed.

Lemma find_in_head_of p l :
  Forall (λ c, find_first p c = head (filter (λ x, p x = true) (subtree c))) l →
  find_in p l = head (filter (λ x, p x = true) (flat_map subtree l)).
Proof.
  induction 1 as [|c l Hc _ IH]; simpl; [done|].
  by rewrite filter_app_head, <-Hc, IH.
Qed.

(** The early-exit search finds the first match of the document order. *)
Lemma find_first_head p n :
  find_first p n = head (filter (λ x, p x = true) (subtree n)).
Proof.
  induction n as [s|s|tag attrs cs IH] using node_ind';
    rewrite find_first_unfold; simpl subtree; rewrite filter_cons;
    destruct (p _) eqn:E; simpl;
    rewrite ?decide_True, ?decide_False by congruence; try done.
  by apply find_in_head_of.
Qed.

Lemma find_in_head p l :
  find_in p l = head (filter (λ x, p x = true) (flat_map subtree l)).
Proof. apply find_in_head_of, Forall_forall. intros. apply find_first_head. Qed.

(** [select_one] returns the first element of [select]. *)
Lemma select_one_head sel n : select_one sel n = head (select sel n).
Proof. apply find_in_head. Qed.

Lemma select_one_None sel n : select_one sel n = None ↔ select sel n = [].
Proof. rewrite select_one_head. by destruct (select sel n). Qed.

Lemma select_one_Some sel n x :
  select_one sel n = Some x → x ∈ select sel n.
Proof.
  rewrite select_one_head. destruct (select sel n) as [|y l]; [done|].
  intros [= ->]. apply list_elem_of_here.
Qed.

(** What [select] returns matches the selector and lies below the node. *)
Lemma elem_of_select sel n x :
  x ∈ select sel n ↔ matches sel x = true ∧ x ∈ descendants n.
Proof. unfold select. by rewrite list_elem_of_filter. Qed.

Lemma matches_app sel1 sel2 n :
  matches (sel1 ++ sel2) n = matches sel1 n || matches sel2 n.
Proof. unfold matches. apply existsb_app. Qed.

Lemma matches_is_elem sel n : matches sel n = true → is_elem n = true.
Proof.
  unfold matches. rewrite existsb_exists. intros (c & _ & Hc).
  unfold matches_compound in Hc. by bool_prop.
Qed.

Lemma matches_simple_attr n a v :
  matches_simple n (SAttrContains a v) = true →
  ∃ x, attr a n = Some x ∧ Str.contains v x = true.
Proof.
  destruct n as [| |tag attrs cs]; simpl; [done..|].
  destruct (assoc a attrs) as [x|]; [|done].
  intros. bool_prop. eauto.
Qed.

(** An element selected by its attribute has the attribute: [tag[a]] does
    not raise on it. *)
Lemma matches_attr a sel n :
  tests_attr a sel → matches sel n = true →
  ∃ x, attr a n = Some x ∧
    ∃ c v, c ∈ sel ∧ SAttrContains a v ∈ c ∧ Str.contains v x = true.
Proof.
  unfold tests_attr, matches. rewrite Forall_forall, existsb_exists.
  intros Hsel (c & Hc%list_elem_of_In & Hm).
  destruct (Hsel c Hc) as [v Hv]. unfold matches_compound in Hm. bool_prop.
  assert (Hx : matches_simple n (SAttrContains a v) = true).
  { eapply forallb_forall; [eassumption | by apply list_elem_of_In]. }
  apply matches_simple_attr in Hx as (x & Hx & Hcont). eauto 8.
Qed.

(** What a selector that tests [a] selects has [a]. *)
Lemma select_attr a sel n x :
  tests_attr a sel → x ∈ select sel n → ∃ v, attr a x = Some v.
Proof.
  intros Hsel [Hm _]%elem_of_select.
  destruct (matches_attr a sel x Hsel Hm) as (v & Hv & _). eauto.
Qed.

Lemma select_one_attr a sel n x :
  tests_attr a sel → select_one sel n = Some x → ∃ v, attr a x = Some v.
Proof. intros Hsel Hx%select_one_Some. by eapply select_attr. Qed.

(** The selector proves itself to test an attribute: every alternative
    lists the test. *)
Ltac tests_attr :=
  repeat (apply Forall_cons; split;
          [eexists; repeat first [apply list_elem_of_here
                                 | apply list_elem_of_further]|]);
  by apply Forall_nil.

Lemma attr_get_Ok a n x : attr a n = Some x → attr_get a n = Ok x.
Proof. unfold attr_get. by intros ->. Qed.

#[export] Hint Rewrite select_one_head matches_app : shop.
#[export] Hint Resolve attr_get_Ok matches_is_elem : shop.
