(* ===== verification/Json.v ===== *)
(** * Json: the values [response.json()] returns and what the code does to them

    [get_product_catalog] in src/scraper.py calls [.get(key, default)] on
    the decoded body and on every item, subscripts the variants with [[0]],
    iterates over the products and turns values into text with [str()] and
    an f-string.  None of these is checked by the code, so each of them can
    raise on a value of the wrong shape; the definitions here say which
    exception each raises on which value. *)

From Stdlib Require Import Ascii String ZArith Lia.
From stdpp Require Import base tactics option list strings pretty.
From S2P Require Import Prelude.

Module Py.

#[local] Unset Elimination Schemes.
Inductive json : Type :=
  | JNull
  | JBool (b : bool)
  | JInt (z : Z)
  | JFloat (repr : string)
  | JStr (s : string)
  | JArr (items : list json)
  | JObj (fields : list (string * json)).
#[local] Set Elimination Schemes.

(** [d[k]] for a decoded object; the decoder keeps one value per key. *)
Fixpoint lookup (k : string) (fields : list (string * json)) : option json :=
  match fields with
  | [] => None
  | (k', v) :: fields' => if bool_decide (k' = k) then Some v else lookup k fields'
  end.

(** [v.get(k, default)]: only a dict has the method. *)
Definition get (k : string) (default : json) (v : json) : result json :=
  match v with
  | JObj fields => Ok (from_option id default (lookup k fields))
  | _ => Raise AttributeError
  end.

(** [v[0]]. *)
Definition index0 (v : json) : result json :=
  match v with
  | JArr (x :: _) => Ok x
  | JArr [] => Raise IndexError
  | JStr (String c _) => Ok (JStr (String c ""))
  | JStr "" => Raise IndexError
  | JObj _ => Raise KeyError
  | JNull | JBool _ | JInt _ | JFloat _ => Raise TypeError
  end.

(** [for item in v]: the items the loop visits.  A string yields its
    characters, a dict its keys, and the rest is not iterable. *)
Definition iter (v : json) : result (list json) :=
  match v with
  | JArr items => Ok items
  | JStr s => Ok ((λ c, JStr (String c "")) <$> Str.chars s)
  | JObj fields => Ok ((λ kv, JStr kv.1) <$> fields)
  | JNull | JBool _ | JInt _ | JFloat _ => Raise TypeError
  end.

(** [str(v)], which is also how an f-string formats [v].  [repr] is the
    text of a list or a dict. *)
Definition str (repr : json → string) (v : json) : string :=
  match v with
  | JNull => "None"
  | JBool true => "True"
  | JBool false => "False"
  | JInt z => pretty z
  | JFloat r => r
  | JStr s => s
  | JArr _ | JObj _ => repr v
  end.

Definition is_dict (v : json) : bool :=
  match v with JObj _ => true | _ => false end.

End Py.

(** ** Lemmas *)

Lemma py_get_Ok k d v x : Py.get k d v = Ok x → Py.is_dict v = true.
Proof. by destruct v. Qed.

Lemma py_get_dict k d fields :
  Py.get k d (Py.JObj fields) = Ok (from_option id d (Py.lookup k fields)).
Proof. done. Qed.

Lemma py_get_not_dict k d v : Py.is_dict v = false → Py.get k d v = Raise AttributeError.
Proof. by destruct v. Qed.

Lemma py_get_missing k d fields :
  Py.lookup k fields = None → Py.get k d (Py.JObj fields) = Ok d.
Proof. simpl. by intros ->. Qed.

Lemma py_get_present k d fields x :
  Py.lookup k fields = Some x → Py.get k d (Py.JObj fields) = Ok x.
Proof. simpl. by intros ->. Qed.

Lemma py_iter_arr items : Py.iter (Py.JArr items) = Ok items.
Proof. done. Qed.

Lemma py_str_JStr repr s : Py.str repr (Py.JStr s) = s.
Proof. done. Qed.

Lemma py_str_JInt_inj repr z1 z2 : Py.str repr (Py.JInt z1) = Py.str repr (Py.JInt z2) → z1 = z2.
Proof. simpl. apply (inj pretty). Qed.

(** The exceptions the operations raise. *)
Lemma py_get_Raise k d v e : Py.get k d v = Raise e → e = AttributeError.
Proof. destruct v; simpl; congruence. Qed.

Lemma py_iter_Raise v e : Py.iter v = Raise e → e = TypeError.
Proof. destruct v; simpl; congruence. Qed.

Lemma py_index0_Raise v e :
  Py.index0 v = Raise e → e ∈ [IndexError; KeyError; TypeError].
Proof.
  destruct v as [| | | |[|??]|[|??]|]; simpl; intros [= <-]; elem_list.
Qed.

#[export] Hint Rewrite py_get_dict py_iter_arr py_str_JStr : shop.
#[export] Hint Resolve py_get_not_dict py_get_missing py_get_present : shop.
