(* ===== verification/Dict.v ===== *)
(** * Dict: Python's insertion-ordered dictionary

    [get_important_links] in src/scraper.py fills a [dict] with
    [links[name] = url] and [save_to_db] in src/main.py walks its [items()],
    so both the value kept for a key and the order of the keys matter.  A
    dictionary is the list of its items in insertion order, without
    duplicate keys; assigning to a key that is present replaces the value
    where it stands, assigning to a new key appends.  [to_map] is the
    abstract view, a finite map, and [set] implements insertion there. *)

From Stdlib Require Import String.
From stdpp Require Import base tactics option list strings gmap.
From S2P Require Import Prelude.

Module Dict.

Section Dict.
Context {V : Type}.

Definition t : Type := list (string * V).

Definition empty : t := [].

(** [d.get(k)]. *)
Fixpoint get (k : string) (d : t) : option V :=
  match d with
  | [] => None
  | (k', v) :: d' => if bool_decide (k' = k) then Some v else get k d'
  end.

(** [d[k] = v]. *)
Fixpoint set (k : string) (v : V) (d : t) : t :=
  match d with
  | [] => [(k, v)]
  | (k', v') :: d' =>
      if bool_decide (k' = k) then (k, v) :: d' else (k', v') :: set k v d'
  end.

(** [d.keys()] and [d.items()]. *)
Definition keys (d : t) : list string := fst <$> d.
Definition items (d : t) : list (string * V) := d.

(** The invariant of a dictionary: no key twice. *)
Definition wf (d : t) : Prop := NoDup (keys d).

(** The finite map a dictionary stands for. *)
Definition to_map (d : t) : gmap string V := list_to_map d.

End Dict.

Arguments t : clear implicits.

End Dict.

(** ** Lemmas *)

Section DictFacts.
Context {V : Type}.
Implicit Types (d : Dict.t V) (v : V).

Lemma dict_keys_set k v d :
  Dict.keys (Dict.set k v d) = if bool_decide (k ∈ Dict.keys d) then Dict.keys d else Dict.keys d ++ [k].
Proof.
  unfold Dict.keys. induction d as [|[k' v'] d IH]; [done|]. cbn [Dict.set].
  destruct (decide (k' = k)) as [->|Hne].
  - rewrite bool_decide_eq_true_2 by done. csimpl.
    by rewrite bool_decide_eq_true_2 by apply list_elem_of_here.
  - rewrite bool_decide_eq_false_2 by done. csimpl. rewrite IH.
    destruct (decide (k ∈ fst <$> d)) as [Hin|Hnin].
    + rewrite !bool_decide_eq_true_2; [done | by apply list_elem_of_further | done].
    + rewrite !bool_decide_eq_false_2; [done | | done].
      rewrite elem_of_cons. naive_solver.
Qed.

Lemma dict_wf_empty : Dict.wf (V:=V) Dict.empty.
Proof. constructor. Qed.

(** Assignment keeps the invariant. *)
Lemma dict_wf_set k v d : Dict.wf d → Dict.wf (Dict.set k v d).
Proof.
  unfold Dict.wf. rewrite dict_keys_set. case_bool_decide as E; [done|].
  intros Hd. apply NoDup_app. repeat split; [done| |apply NoDup_singleton].
  intros x Hx ->%list_elem_of_singleton. done.
Qed.

Lemma dict_get_to_map k d : Dict.get k d = Dict.to_map d !! k.
Proof.
  unfold Dict.to_map. induction d as [|[k' v'] d IH]; simpl; [done|].
  destruct (decide (k' = k)) as [->|Hne].
  - by rewrite bool_decide_eq_true_2, lookup_insert_eq.
  - by rewrite bool_decide_eq_false_2, lookup_insert_ne.
Qed.

(** Assignment is insertion in the finite map. *)
Lemma dict_to_map_set k v d : Dict.to_map (Dict.set k v d) = <[k := v]> (Dict.to_map d).
Proof.
  unfold Dict.to_map. induction d as [|[k' v'] d IH]; simpl; [done|].
  destruct (decide (k' = k)) as [->|Hne].
  - rewrite bool_decide_eq_true_2 by done. simpl. by rewrite insert_insert_eq.
  - rewrite bool_decide_eq_false_2 by done. simpl.
    by rewrite IH, insert_insert_ne.
Qed.

Lemma dict_get_set_eq k v d : Dict.get k (Dict.set k v d) = Some v.
Proof. by rewrite dict_get_to_map, dict_to_map_set, lookup_insert_eq. Qed.

Lemma dict_get_set_ne k k' v d : k ≠ k' → Dict.get k' (Dict.set k v d) = Dict.get k' d.
Proof. intros. by rewrite !dict_get_to_map, dict_to_map_set, lookup_insert_ne. Qed.

Lemma dict_get_Some_keys k d v : Dict.get k d = Some v → k ∈ Dict.keys d.
Proof.
  induction d as [|[k' v'] d IH]; simpl; [done|].
  destruct (decide (k' = k)) as [->|Hne]; [intros; apply list_elem_of_here|].
  rewrite bool_decide_eq_false_2 by done.
  intros. by apply list_elem_of_further, IH.
Qed.

Lemma dict_get_None_keys k d : Dict.get k d = None ↔ k ∉ Dict.keys d.
Proof.
  induction d as [|[k' v'] d IH]; simpl.
  - split; [intros; apply not_elem_of_nil | done].
  - rewrite not_elem_of_cons. destruct (decide (k' = k)) as [->|Hne].
    + rewrite bool_decide_eq_true_2 by done. naive_solver.
    + rewrite bool_decide_eq_false_2 by done. naive_solver.
Qed.

(** The Dict.items of a dictionary are found by [Dict.get]. *)
Lemma dict_elem_of_items k v d : Dict.wf d → (k, v) ∈ Dict.items d ↔ Dict.get k d = Some v.
Proof.
  unfold Dict.wf, Dict.items. induction d as [|[k' v'] d IH]; simpl.
  - split; [by intros ?%elem_of_nil | done].
  - intros [Hk Hd]%NoDup_cons. rewrite elem_of_cons, IH by done.
    destruct (decide (k' = k)) as [->|Hne].
    + rewrite bool_decide_eq_true_2 by done. split; [|naive_solver].
      intros [?|Hg]; [naive_solver|]. by apply dict_get_Some_keys in Hg.
    + rewrite bool_decide_eq_false_2 by done. naive_solver.
Qed.

Lemma dict_length_set k v d :
  length (Dict.set k v d) = if bool_decide (k ∈ Dict.keys d) then length d else S (length d).
Proof.
  rewrite <-!(length_fmap fst). fold (Dict.keys (Dict.set k v d)). rewrite dict_keys_set.
  case_bool_decide; [done|]. rewrite length_app. simpl. unfold Dict.keys. lia.
Qed.

End DictFacts.

#[export] Hint Resolve dict_wf_empty dict_wf_set : shop.
#[export] Hint Rewrite @dict_get_set_eq @dict_to_map_set : shop.
