(* ===== verification/Models.v ===== *)
(** * Models: the pydantic models and what the program takes from libraries

    [Platform] gathers the library functions whose results the program uses
    and whose code is not part of it: the HTML and JSON decoders, [repr] of
    a container, [urljoin], [quote], the two validators that the field types
    [HttpUrl] and [EmailStr] of src/pydantic_models.py run, the host of a
    validated URL and the message of an exception.

    The records are the models of src/pydantic_models.py.  Building a model
    validates its fields, and a field that fails raises [ValidationError]:
    [new_Product], [new_SocialHandle], [new_ContactDetail] and
    [new_BrandContext] are the constructors with that validation, for the
    arguments the program passes.  The program relies on version 1 of the
    library (it calls [rstrip] on a validated URL), whose [str] fields accept
    a string or a number and refuse [None], a list or a dict. *)

From Stdlib Require Import Ascii String ZArith Lia.
From stdpp Require Import base tactics option list strings.
From S2P Require Import Prelude Html Json Dict.

(** ** The libraries behind the program *)
Class Platform : Type := {
  (** [BeautifulSoup(text, "html.parser")]: the root of the tree. *)
  parse_html : string → Dom.node;
  (** [response.json()]: the decoded body, if it is JSON. *)
  parse_json : string → option Py.json;
  (** [repr] of a list or a dict. *)
  py_repr : Py.json → string;
  (** [urllib.parse.urljoin(base, url)]. *)
  urljoin : string → string → string;
  (** [urllib.parse.quote(s)]. *)
  quote : string → string;
  (** The validator of [HttpUrl]: the URL kept, or a refusal. *)
  http_url : string → option string;
  (** The validator of [EmailStr]: the address kept, or a refusal. *)
  email_str : string → option string;
  (** [url.host] of a validated URL. *)
  url_host : string → string;
  (** [str(e)] of an exception. *)
  exn_str : exn → string;
}.

(** ** The models *)

Record FAQ : Type := mkFAQ {
  question : string;
  answer : string;
}.

Record SocialHandle : Type := mkSocialHandle {
  platform : string;
  handle_url : string;
}.

Record ContactDetail : Type := mkContactDetail {
  emails : list string;
  phone_numbers : list string;
}.

Record Product : Type := mkProduct {
  product_id : option string;
  title : string;
  price : option string;
  description : option string;
  product_url : option string;
}.

Record BrandContext : Type := mkBrandContext {
  store_url : string;
  product_catalog : list Product;
  hero_products : list Product;
  privacy_policy : option string;
  return_policy : option string;
  faqs : list FAQ;
  social_handles : list SocialHandle;
  contact_details : ContactDetail;
  brand_description : option string;
  important_links : Dict.t string;
}.

Record APIResponse : Type := mkAPIResponse {
  status : string;
  data : option BrandContext;
  error : option string;
  error_code : option nat;
}.

Record URLInput : Type := mkURLInput {
  website_url : string;
}.

#[global] Instance FAQ_eq_dec : EqDecision FAQ.
Proof. solve_decision. Defined.
#[global] Instance SocialHandle_eq_dec : EqDecision SocialHandle.
Proof. solve_decision. Defined.
#[global] Instance ContactDetail_eq_dec : EqDecision ContactDetail.
Proof. solve_decision. Defined.
#[global] Instance Product_eq_dec : EqDecision Product.
Proof. solve_decision. Defined.

(** ** Validation *)

Section Validation.
Context `{Platform}.

(** An [Optional] field accepts [None] and otherwise validates. *)
Definition optional {A} (f : Py.json → result A) (v : Py.json)
    : result (option A) :=
  match v with
  | Py.JNull => Ok None
  | _ => result_bind (f v) (λ a, Ok (Some a))
  end.

(** A field of type [str]. *)
Definition str_field (v : Py.json) : result string :=
  match v with
  | Py.JStr s => Ok s
  | Py.JInt _ | Py.JFloat _ | Py.JBool _ => Ok (Py.str py_repr v)
  | Py.JNull | Py.JArr _ | Py.JObj _ => Raise ValidationError
  end.

(** A string checked by a validator of the platform. *)
Definition checked (validator : string → option string) (s : string)
    : result string :=
  match validator s with
  | Some s' => Ok s'
  | None => Raise ValidationError
  end.

(** A field of type [HttpUrl]. *)
Definition url_field (v : Py.json) : result string :=
  match v with
  | Py.JStr s => checked http_url s
  | _ => Raise ValidationError
  end.

(** [Product(id=.., title=.., price=.., description=.., url=..)]. *)
Definition new_Product (id title price description url : Py.json)
    : result Product :=
  match optional str_field id, str_field title, optional str_field price,
        optional str_field description, optional url_field url with
  | Ok i, Ok t, Ok p, Ok d, Ok u => Ok (mkProduct i t p d u)
  | _, _, _, _, _ => Raise ValidationError
  end.

(** [SocialHandle(platform=.., url=..)] for two strings. *)
Definition new_SocialHandle (platform url : string) : result SocialHandle :=
  (u <-r checked http_url url ;; Ok (mkSocialHandle platform u))%py.

(** [ContactDetail(emails=.., phone_numbers=..)] for two lists of
    strings. *)
Definition new_ContactDetail (emails phone_numbers : list string)
    : result ContactDetail :=
  (es <-r result_map (checked email_str) emails ;;
   Ok (mkContactDetail es phone_numbers))%py.

(** The values of [important_links: Dict[str, HttpUrl]]. *)
Definition validate_links (links : Dict.t string) : result (Dict.t string) :=
  result_map (λ kv, u <-r checked http_url kv.2 ;; Ok (kv.1, u))%py links.

(** [BrandContext(store_url=.., ...)] for a string, models already built,
    optional strings and a dict of strings. *)
Definition new_BrandContext (store_url : string)
    (product_catalog hero_products : list Product)
    (privacy_policy return_policy : option string)
    (faqs : list FAQ) (social_handles : list SocialHandle)
    (contact_details : ContactDetail) (brand_description : option string)
    (important_links : Dict.t string) : result BrandContext :=
  match checked http_url store_url, validate_links important_links with
  | Ok u, Ok links =>
      Ok (mkBrandContext u product_catalog hero_products privacy_policy
            return_policy faqs social_handles contact_details
            brand_description links)
  | _, _ => Raise ValidationError
  end.

End Validation.

Section ValidationFacts.
Context `{Platform}.

(** ** Lemmas *)

Lemma checked_Ok validator s s' :
  checked validator s = Ok s' ↔ validator s = Some s'.
Proof. unfold checked. destruct (validator s); naive_solver. Qed.

Lemma checked_Raise validator s e :
  checked validator s = Raise e ↔ validator s = None ∧ e = ValidationError.
Proof. unfold checked. destruct (validator s); naive_solver. Qed.

Lemma result_map_checked validator l ys :
  result_map (checked validator) l = Ok ys ↔
  Forall2 (λ s s', validator s = Some s') l ys.
Proof.
  rewrite result_map_Ok_Forall2. apply Forall2_iff_elem.
  intros. apply checked_Ok.
Qed.

Lemma str_field_str s : str_field (Py.JStr s) = Ok s.
Proof. done. Qed.

(** A model that was built has valid fields. *)
Lemma new_SocialHandle_Ok p u h :
  new_SocialHandle p u = Ok h ↔
  ∃ u', http_url u = Some u' ∧ h = mkSocialHandle p u'.
Proof.
  unfold new_SocialHandle, checked. destruct (http_url u); simpl; naive_solver.
Qed.

(** Only [ValidationError] comes out of a constructor. *)
Lemma new_SocialHandle_Raise p u e :
  new_SocialHandle p u = Raise e → e = ValidationError.
Proof.
  unfold new_SocialHandle. destruct (checked _ _) eqn:E; simpl; [done|].
  intros [= <-]. by apply checked_Raise in E as [_ ->].
Qed.

Lemma new_ContactDetail_Raise es ps e :
  new_ContactDetail es ps = Raise e → e = ValidationError.
Proof.
  unfold new_ContactDetail. destruct (result_map _ _) eqn:E; simpl; [done|].
  intros [= <-]. apply result_map_Raise in E as (x & _ & E).
  by apply checked_Raise in E as [_ ->].
Qed.

Lemma new_Product_Raise i t p d u e :
  new_Product i t p d u = Raise e → e = ValidationError.
Proof. unfold new_Product. repeat case_match; congruence. Qed.

Lemma new_BrandContext_Raise u pc hp pp rp fs sh cd bd il e :
  new_BrandContext u pc hp pp rp fs sh cd bd il = Raise e → e = ValidationError.
Proof. unfold new_BrandContext. repeat case_match; congruence. Qed.

(** A product built from strings keeps them. *)
Lemma new_Product_strings t p u u' :
  http_url u = Some u' →
  new_Product Py.JNull (Py.JStr t) (Py.JStr p) Py.JNull (Py.JStr u)
  = Ok (mkProduct None t (Some p) None (Some u')).
Proof. intros E. unfold new_Product, checked. simpl. unfold checked. by rewrite E. Qed.

Lemma new_Product_no_url t p :
  new_Product Py.JNull (Py.JStr t) (Py.JStr p) Py.JNull Py.JNull
  = Ok (mkProduct None t (Some p) None None).
Proof. done. Qed.

End ValidationFacts.

#[export] Hint Rewrite @str_field_str @new_Product_no_url : shop.
