(* ===== verification/Net.v ===== *)
(** * Net: the network and the trace of what the program does to the world

    [World] is the state every effect of the program acts on: the trace of
    the requests made and the pauses taken, in order.  The network is a
    [Network]: what a GET of a URL answers after a given trace, so that a
    site may answer the same URL differently from one request to the next.
    [session_get] and [raise_for_status] are the two calls of the [requests]
    client that src/scraper.py makes; [client_get] and [sleep] are the
    request and the pause of src/competitor.py. *)

From Stdlib Require Import Ascii String Lia.
From stdpp Require Import base tactics option list strings.
From S2P Require Import Prelude.

(** What a GET comes back with: no response at all (connection refused,
    timeout, malformed URL), or a status and a body. *)
Inductive response : Type :=
  | Unreachable
  | Response (status : nat) (body : string).

(** What the program does that the outside can see. *)
Inductive event : Type :=
  | EvGet (url : string)
  | EvSleep (seconds : nat).

#[global] Instance event_eq_dec : EqDecision event.
Proof. solve_decision. Defined.

Record World : Type := mkWorld {
  trace : list event;
}.

(** The world after one more event. *)
Definition log (e : event) (w : World) : World :=
  mkWorld (trace w ++ [e]).

(** The answer to a GET of [url] after the events of the trace. *)
Class Network : Type := respond : list event → string → response.

(** The URLs requested in a trace, in order. *)
Definition gets (t : list event) : list string :=
  omap (λ e, match e with EvGet u => Some u | _ => None end) t.

(** [m] requests the URLs [us] in this order and does nothing else that can
    be seen: all of them if it returns, the first ones if it raises. *)
Definition Requests {A} (m : M World A) (us : list string) : Prop :=
  ∀ w r w', m w = (r, w') →
    ∃ n, n ≤ length us ∧ trace w' = trace w ++ (EvGet <$> take n us) ∧
      (is_Ok r = true → n = length us).

Section Net.
Context `{Network}.

Definition emit (e : event) : M World unit :=
  λ w, (Ok tt, log e w).

(** [session.get(url, timeout=10)]: the status and the body, or a
    [RequestException] when there is no response. *)
Definition session_get (url : string) : M World (nat * string) :=
  λ w, let w' := log (EvGet url) w in
       match respond (trace w) url with
       | Unreachable => (Raise ConnectionError, w')
       | Response status body => (Ok (status, body), w')
       end.

(** [session.get(url)] of the asynchronous client of src/competitor.py:
    the status and the text of the response, or a [ClientError]. *)
Definition client_get (url : string) : M World (nat * string) :=
  λ w, let w' := log (EvGet url) w in
       match respond (trace w) url with
       | Unreachable => (Raise ClientError, w')
       | Response status body => (Ok (status, body), w')
       end.

(** [asyncio.sleep(seconds)] *)
Definition sleep (seconds : nat) : M World unit := emit (EvSleep seconds).

(** [response.raise_for_status()]: statuses 400 to 599 raise. *)
Definition raise_for_status (status : nat) : M World unit :=
  if (400 <=? status) && (status <? 600) then raise (HTTPError status)
  else ret tt.

End Net.

Section NetFacts.
Context `{Network}.

(** ** Lemmas *)

Lemma session_get_state url w : (session_get url w).2 = log (EvGet url) w.
Proof. unfold session_get. by destruct (respond _ _). Qed.

Lemma session_get_Ok url w status body w' :
  session_get url w = (Ok (status, body), w') ↔
  respond (trace w) url = Response status body ∧ w' = log (EvGet url) w.
Proof. unfold session_get. destruct (respond _ _); naive_solver. Qed.

Lemma session_get_Raise url w e w' :
  session_get url w = (Raise e, w') ↔
  respond (trace w) url = Unreachable ∧ e = ConnectionError ∧
  w' = log (EvGet url) w.
Proof. unfold session_get. destruct (respond _ _); naive_solver. Qed.

Lemma raise_for_status_state status w : (raise_for_status status w).2 = w.
Proof. unfold raise_for_status. by destruct (_ && _). Qed.

Lemma raise_for_status_Ok status w :
  status < 400 ∨ 600 ≤ status → raise_for_status status w = (Ok tt, w).
Proof.
  intros Hs. unfold raise_for_status.
  destruct (Nat.leb_spec 400 status), (Nat.ltb_spec status 600); simpl; (done || lia).
Qed.

Lemma raise_for_status_Raise status w :
  400 ≤ status < 600 → raise_for_status status w = (Raise (HTTPError status), w).
Proof.
  intros Hs. unfold raise_for_status.
  destruct (Nat.leb_spec 400 status), (Nat.ltb_spec status 600); simpl; (done || lia).
Qed.

(** A request followed by [raise_for_status]: the continuation runs on the
    body of a response whose status is outside 400..599. *)
Lemma session_get_checked {A} url (k : nat * string → M World A) w :
  bind (session_get url) (λ r, bind (raise_for_status r.1) (λ _, k r)) w
  = match respond (trace w) url with
    | Unreachable => (Raise ConnectionError, log (EvGet url) w)
    | Response status body =>
        if (400 <=? status) && (status <? 600)
        then (Raise (HTTPError status), log (EvGet url) w)
        else k (status, body) (log (EvGet url) w)
    end.
Proof.
  unfold bind, session_get, raise_for_status.
  destruct (respond _ _) as [|status body]; [done|]. simpl.
  by destruct (_ && _).
Qed.

Lemma client_get_run url w :
  client_get url w
  = (match respond (trace w) url with
     | Unreachable => Raise ClientError
     | Response status body => Ok (status, body)
     end, log (EvGet url) w).
Proof. unfold client_get. by destruct (respond _ _). Qed.

End NetFacts.

(** *** Composition of requests *)

Lemma Requests_lift {A} (r : result A) : Requests (lift r) [].
Proof.
  intros w ? ? [= <- <-]. exists 0. by rewrite app_nil_r.
Qed.

Lemma Requests_ret {A} (a : A) : Requests (ret a) [].
Proof. apply (Requests_lift (Ok a)). Qed.

(** A method whose state after the call is one GET later. *)
Lemma Requests_one {A} (m : M World A) u :
  (∀ w, (m w).2 = log (EvGet u) w) → Requests m [u].
Proof.
  intros Hm w r w' E. exists 1. specialize (Hm w). rewrite E in Hm.
  simpl in Hm. subst w'. by repeat split.
Qed.

Lemma Requests_bind {A B} (m : M World A) (k : A → M World B) us vs :
  Requests m us → (∀ a, Requests (k a) vs) → Requests (bind m k) (us ++ vs).
Proof.
  intros Hm Hk w r w'' E. unfold bind in E.
  destruct (m w) as [[a|e] w'] eqn:Em.
  - destruct (Hm _ _ _ Em) as (n & _ & Ht & Hn). rewrite Hn in Ht by done.
    destruct (Hk a _ _ _ E) as (n' & Hle & Ht' & Hn').
    exists (length us + n'). rewrite length_app, take_app_add, fmap_app, Ht', Ht.
    rewrite firstn_all, <-(assoc_L (++)).
    repeat split; [lia | intros; rewrite Hn' by done; lia].
  - injection E as <- <-. destruct (Hm _ _ _ Em) as (n & Hle & Ht & _).
    exists n. rewrite length_app, take_app_le by done.
    repeat split; [lia | done..].
Qed.

Lemma trace_log e w : trace (log e w) = trace w ++ [e].
Proof. done. Qed.

Lemma gets_app t1 t2 : gets (t1 ++ t2) = gets t1 ++ gets t2.
Proof. apply omap_app. Qed.

#[export] Hint Rewrite trace_log gets_app : shop.
