(* ===== verification/Database.v ===== *)
(** * Database: the tables of src/sqlalchemy_models.py and the session

    [Orm] holds one record per mapped class, with the columns of the class;
    [id] is [None] until the row is inserted.  A column declared
    [nullable=False] that the program always fills with a string is a
    [string], the other columns are options.  The [relationship] attributes
    are not modelled: src/main.py never reads them.

    [Db] is the session of src/main.py: the rows of the database, and the
    objects added to the session, which are the Python objects the program
    holds (an object gets its [id] when [commit] inserts it, and [brand.id]
    read after the commit sees it; [add] returns the place of the object in
    the session, which stands for the Python reference to it).  The rows of
    the seven tables are kept in one list, a table being the rows of its
    class in insertion order.  [commit] inserts the new objects in one
    transaction: a second brand with the same [store_url] violates the
    unique index, the transaction is rolled back and [IntegrityError] is
    raised.

    The engine behind the session is not part of the sources; [Engine] says
    what the development needs of it: the key given to a new row is not the
    key of a row of the table. *)

From Stdlib Require Import String Lia.
From stdpp Require Import base tactics option list strings.
From S2P Require Import Prelude.

(** The choice of primary keys. *)
Class Engine : Type := {
  next_id : list nat → nat;
  next_id_fresh ids : next_id ids ∉ ids;
}.

Module Orm.

Module Brand.
Record t : Type := mk {
  id : option nat;
  store_url : string;
  brand_description : option string;
  privacy_policy : option string;
  return_policy : option string;
}.
#[global] Instance eq_dec : EqDecision t.
Proof. solve_decision. Defined.
End Brand.

Module Product.
Record t : Type := mk {
  id : option nat;
  brand_id : option nat;
  title : string;
  price : option string;
  description : option string;
  url : option string;
}.
#[global] Instance eq_dec : EqDecision t.
Proof. solve_decision. Defined.
End Product.

Module HeroProduct.
Record t : Type := mk {
  id : option nat;
  brand_id : option nat;
  title : string;
  price : option string;
  description : option string;
  url : option string;
}.
#[global] Instance eq_dec : EqDecision t.
Proof. solve_decision. Defined.
End HeroProduct.

Module FAQ.
Record t : Type := mk {
  id : option nat;
  brand_id : option nat;
  question : string;
  answer : string;
}.
#[global] Instance eq_dec : EqDecision t.
Proof. solve_decision. Defined.
End FAQ.

Module SocialHandle.
Record t : Type := mk {
  id : option nat;
  brand_id : option nat;
  platform : string;
  url : string;
}.
#[global] Instance eq_dec : EqDecision t.
Proof. solve_decision. Defined.
End SocialHandle.

Module ContactDetail.
Record t : Type := mk {
  id : option nat;
  brand_id : option nat;
  email : option string;
  phone_number : option string;
}.
#[global] Instance eq_dec : EqDecision t.
Proof. solve_decision. Defined.
End ContactDetail.

Module ImportantLink.
Record t : Type := mk {
  id : option nat;
  brand_id : option nat;
  name : string;
  url : string;
}.
#[global] Instance eq_dec : EqDecision t.
Proof. solve_decision. Defined.
End ImportantLink.

(** An instance of a mapped class: what [db.add] takes. *)
Inductive entity : Type :=
  | EBrand (b : Brand.t)
  | EProduct (p : Product.t)
  | EHeroProduct (p : HeroProduct.t)
  | EFAQ (f : FAQ.t)
  | ESocialHandle (h : SocialHandle.t)
  | EContactDetail (c : ContactDetail.t)
  | EImportantLink (l : ImportantLink.t).

(** [obj.id] *)
Definition id (e : entity) : option nat :=
  match e with
  | EBrand b => Brand.id b
  | EProduct p => Product.id p
  | EHeroProduct p => HeroProduct.id p
  | EFAQ f => FAQ.id f
  | ESocialHandle h => SocialHandle.id h
  | EContactDetail c => ContactDetail.id c
  | EImportantLink l => ImportantLink.id l
  end.

(** [obj.brand_id], for the classes that have the column. *)
Definition brand_id (e : entity) : option nat :=
  match e with
  | EBrand _ => None
  | EProduct p => Product.brand_id p
  | EHeroProduct p => HeroProduct.brand_id p
  | EFAQ f => FAQ.brand_id f
  | ESocialHandle h => SocialHandle.brand_id h
  | EContactDetail c => ContactDetail.brand_id c
  | EImportantLink l => ImportantLink.brand_id l
  end.

(** The object once the insert has given it the key [n]. *)
Definition with_id (n : nat) (e : entity) : entity :=
  match e with
  | EBrand (Brand.mk _ u d p r) => EBrand (Brand.mk (Some n) u d p r)
  | EProduct (Product.mk _ b t p d u) => EProduct (Product.mk (Some n) b t p d u)
  | EHeroProduct (HeroProduct.mk _ b t p d u) =>
      EHeroProduct (HeroProduct.mk (Some n) b t p d u)
  | EFAQ (FAQ.mk _ b q a) => EFAQ (FAQ.mk (Some n) b q a)
  | ESocialHandle (SocialHandle.mk _ b p u) =>
      ESocialHandle (SocialHandle.mk (Some n) b p u)
  | EContactDetail (ContactDetail.mk _ b e p) =>
      EContactDetail (ContactDetail.mk (Some n) b e p)
  | EImportantLink (ImportantLink.mk _ b k u) =>
      EImportantLink (ImportantLink.mk (Some n) b k u)
  end.

(** The seven tables. *)
Inductive table : Type :=
  | brands | products | hero_products | faqs | social_handles
  | contact_details | important_links.

(** [type(obj).__tablename__] *)
Definition table_of (e : entity) : table :=
  match e with
  | EBrand _ => brands
  | EProduct _ => products
  | EHeroProduct _ => hero_products
  | EFAQ _ => faqs
  | ESocialHandle _ => social_handles
  | EContactDetail _ => contact_details
  | EImportantLink _ => important_links
  end.

(** The object without its key. *)
Definition unkeyed (e : entity) : entity :=
  match e with
  | EBrand (Brand.mk _ u d p r) => EBrand (Brand.mk None u d p r)
  | EProduct (Product.mk _ b t p d u) => EProduct (Product.mk None b t p d u)
  | EHeroProduct (HeroProduct.mk _ b t p d u) =>
      EHeroProduct (HeroProduct.mk None b t p d u)
  | EFAQ (FAQ.mk _ b q a) => EFAQ (FAQ.mk None b q a)
  | ESocialHandle (SocialHandle.mk _ b p u) =>
      ESocialHandle (SocialHandle.mk None b p u)
  | EContactDetail (ContactDetail.mk _ b e p) =>
      EContactDetail (ContactDetail.mk None b e p)
  | EImportantLink (ImportantLink.mk _ b k u) =>
      EImportantLink (ImportantLink.mk None b k u)
  end.

(** [obj.store_url], for a brand. *)
Definition store_url (e : entity) : option string :=
  match e with EBrand b => Some (Brand.store_url b) | _ => None end.

End Orm.

#[global] Instance table_eq_dec : EqDecision Orm.table.
Proof. solve_decision. Defined.
#[global] Instance entity_eq_dec : EqDecision Orm.entity.
Proof. solve_decision. Defined.

Module Db.

(** The rows of table [t], in insertion order, their keys, and the store
    URLs of the brands. *)
Definition rows_of (t : Orm.table) (rows : list Orm.entity) : list Orm.entity :=
  filter (λ e, Orm.table_of e = t) rows.

Definition keys (t : Orm.table) (rows : list Orm.entity) : list nat :=
  omap Orm.id (rows_of t rows).

Definition store_urls (rows : list Orm.entity) : list string :=
  omap Orm.store_url rows.

(** The session: the committed rows and the objects of the session. *)
Record Session : Type := mkSession {
  rows : list Orm.entity;
  objects : list Orm.entity;
}.

(** What the schema promises of the rows: every row has a key, no key
    twice in a table, no store URL twice. *)
Definition wf (rows : list Orm.entity) : Prop :=
  Forall (λ e, is_Some (Orm.id e)) rows ∧
  (∀ t, NoDup (keys t rows)) ∧
  NoDup (store_urls rows).

(** Every child row points to a brand of the table. *)
Definition linked (rows : list Orm.entity) : Prop :=
  ∀ e b, e ∈ rows → Orm.brand_id e = Some b → b ∈ keys Orm.brands rows.

(** A session between two calls of [save_to_db]: the rows keep the
    promises of the schema and are linked, and no object is waiting for its
    insert. *)
Definition ok (s : Session) : Prop :=
  wf (rows s) ∧ linked (rows s) ∧ Forall (λ e, is_Some (Orm.id e)) (objects s).

(** The unique index on [brands.store_url]. *)
Definition violates (e : Orm.entity) (rows : list Orm.entity) : bool :=
  match Orm.store_url e with
  | Some u => bool_decide (u ∈ store_urls rows)
  | None => false
  end.

Section Session.
Context `{Engine}.

(** The INSERT of one object: the row gets a key of its table. *)
Definition insert (e : Orm.entity) (rows : list Orm.entity)
    : result (Orm.entity * list Orm.entity) :=
  if violates e rows then Raise IntegrityError
  else
    let e' := Orm.with_id (next_id (keys (Orm.table_of e) rows)) e in
    Ok (e', rows ++ [e']).

(** The flush: the objects without a key are inserted, in the order they
    were added. *)
Fixpoint flush (objs : list Orm.entity) (rows : list Orm.entity)
    : result (list Orm.entity * list Orm.entity) :=
  match objs with
  | [] => Ok ([], rows)
  | e :: objs' =>
      match Orm.id e with
      | Some _ =>
          r <-r flush objs' rows ;; Ok (e :: r.1, r.2)
      | None =>
          i <-r insert e rows ;;
          r <-r flush objs' i.2 ;; Ok (i.1 :: r.1, r.2)
      end
  end%py.

(** [db.add(obj)]: the place of the object in the session. *)
Definition add (e : Orm.entity) : M Session nat :=
  λ s, (Ok (length (objects s)), mkSession (rows s) (objects s ++ [e])).

(** [db.commit()]: all the inserts or none; after a failure the objects
    that were new are no longer in the session. *)
Definition commit : M Session unit :=
  λ s, match flush (objects s) (rows s) with
       | Ok (objs, rows') => (Ok tt, mkSession rows' objs)
       | Raise e =>
           (Raise e,
            mkSession (rows s) (filter (λ o, is_Some (Orm.id o)) (objects s)))
       end.

(** [db.refresh(obj)]: only an object that has a row can be refreshed. *)
Definition refresh (obj : nat) : M Session unit :=
  λ s, match objects s !! obj with
       | Some e =>
           if bool_decide (e ∈ rows s) then (Ok tt, s)
           else (Raise InvalidRequestError, s)
       | None => (Raise InvalidRequestError, s)
       end.

(** [obj.id] for an object of the session. *)
Definition id_of (obj : nat) : M Session (option nat) :=
  λ s, (Ok (objects s !! obj ≫= Orm.id), s).

End Session.

End Db.

(** ** Lemmas on objects *)

(** Case analysis on an object and on the record inside it. *)
Ltac entity_cases e := destruct e as [[]|[]|[]|[]|[]|[]|[]].

Lemma id_with_id n e : Orm.id (Orm.with_id n e) = Some n.
Proof. by entity_cases e. Qed.

Lemma table_of_with_id n e : Orm.table_of (Orm.with_id n e) = Orm.table_of e.
Proof. by entity_cases e. Qed.

Lemma store_url_with_id n e : Orm.store_url (Orm.with_id n e) = Orm.store_url e.
Proof. by entity_cases e. Qed.

Lemma brand_id_with_id n e : Orm.brand_id (Orm.with_id n e) = Orm.brand_id e.
Proof. by entity_cases e. Qed.

Lemma unkeyed_with_id n e : Orm.unkeyed (Orm.with_id n e) = Orm.unkeyed e.
Proof. by entity_cases e. Qed.

Lemma unkeyed_new e : Orm.id e = None → Orm.unkeyed e = e.
Proof. entity_cases e; simpl; by intros ->. Qed.

Lemma table_of_unkeyed e : Orm.table_of (Orm.unkeyed e) = Orm.table_of e.
Proof. by entity_cases e. Qed.

Lemma brand_id_unkeyed e : Orm.brand_id (Orm.unkeyed e) = Orm.brand_id e.
Proof. by entity_cases e. Qed.

Lemma store_url_brands e u : Orm.store_url e = Some u → Orm.table_of e = Orm.brands.
Proof. by entity_cases e. Qed.

#[export] Hint Rewrite id_with_id table_of_with_id store_url_with_id
  brand_id_with_id unkeyed_with_id table_of_unkeyed : shop.

(** ** Lemmas on tables *)

Lemma rows_of_app t l1 l2 :
  Db.rows_of t (l1 ++ l2) = Db.rows_of t l1 ++ Db.rows_of t l2.
Proof. apply filter_app. Qed.

Lemma keys_app t l1 l2 : Db.keys t (l1 ++ l2) = Db.keys t l1 ++ Db.keys t l2.
Proof. unfold Db.keys. by rewrite rows_of_app, omap_app. Qed.

Lemma store_urls_app l1 l2 :
  Db.store_urls (l1 ++ l2) = Db.store_urls l1 ++ Db.store_urls l2.
Proof. apply omap_app. Qed.

(** The keys of a table after one more row. *)
Lemma keys_snoc t rows n e :
  Db.keys t (rows ++ [Orm.with_id n e])
  = Db.keys t rows ++ (if bool_decide (Orm.table_of e = t) then [n] else []).
Proof.
  rewrite keys_app. f_equal. unfold Db.keys, Db.rows_of.
  rewrite filter_cons, filter_nil, table_of_with_id.
  destruct (decide (Orm.table_of e = t)) as [Ht|Ht].
  - rewrite bool_decide_eq_true_2 by done. simpl. by rewrite id_with_id.
  - by rewrite bool_decide_eq_false_2.
Qed.

(** Rows of a table, seen without their keys, commute with the view. *)
Lemma rows_of_unkeyed t rows :
  Orm.unkeyed <$> Db.rows_of t rows = Db.rows_of t (Orm.unkeyed <$> rows).
Proof.
  unfold Db.rows_of. induction rows as [|e rows IH]; [done|]. csimpl.
  rewrite !filter_cons, table_of_unkeyed.
  destruct (decide (Orm.table_of e = t)); csimpl; by rewrite IH.
Qed.

Lemma wf_nil : Db.wf [].
Proof. repeat split; [constructor | intros; constructor | constructor]. Qed.

(** ** Lemmas on the session *)

Section DbFacts.
Context `{Engine}.

Lemma insert_Ok e rows e' rows' :
  Db.insert e rows = Ok (e', rows') ↔
  Db.violates e rows = false ∧
  e' = Orm.with_id (next_id (Db.keys (Orm.table_of e) rows)) e ∧
  rows' = rows ++ [e'].
Proof. unfold Db.insert. destruct (Db.violates e rows); naive_solver. Qed.

Lemma insert_Raise e rows x :
  Db.insert e rows = Raise x ↔ Db.violates e rows = true ∧ x = IntegrityError.
Proof. unfold Db.insert. destruct (Db.violates e rows); naive_solver. Qed.

(** Only a brand can violate the index. *)
Lemma violates_child e rows : Orm.store_url e = None → Db.violates e rows = false.
Proof. unfold Db.violates. by intros ->. Qed.

Lemma violates_brand e u rows :
  Orm.store_url e = Some u → Db.violates e rows = bool_decide (u ∈ Db.store_urls rows).
Proof. unfold Db.violates. by intros ->. Qed.

(** An insert keeps the promises of the schema. *)
Lemma insert_wf e rows e' rows' :
  Db.wf rows → Db.insert e rows = Ok (e', rows') → Db.wf rows'.
Proof.
  intros (Hk & Hn & Hu) (Hv & -> & ->)%insert_Ok. repeat split.
  - apply Forall_app. split; [done|]. apply Forall_singleton.
    by rewrite id_with_id.
  - intros t. rewrite keys_snoc. case_bool_decide as Ht; [|by rewrite app_nil_r].
    subst t. apply NoDup_app. repeat split; [done | | apply NoDup_singleton].
    intros n Hn1 ->%list_elem_of_singleton. by apply next_id_fresh in Hn1.
  - rewrite store_urls_app. unfold Db.store_urls at 2. simpl.
    rewrite store_url_with_id. unfold Db.violates in Hv.
    destruct (Orm.store_url e) as [u|]; simpl; [|by rewrite app_nil_r].
    apply bool_decide_eq_false in Hv.
    apply NoDup_app. repeat split; [done | | apply NoDup_singleton].
    by intros x Hx ->%list_elem_of_singleton.
Qed.

(** An insert whose object points to a brand of the table keeps the rows
    linked. *)
Lemma insert_linked e rows e' rows' :
  Db.linked rows →
  (∀ b, Orm.brand_id e = Some b → b ∈ Db.keys Orm.brands rows) →
  Db.insert e rows = Ok (e', rows') → Db.linked rows'.
Proof.
  intros Hl He (_ & -> & ->)%insert_Ok x b. rewrite keys_app, !elem_of_app.
  intros [Hx | ->%list_elem_of_singleton] Hb; left.
  - by eapply Hl.
  - rewrite brand_id_with_id in Hb. by apply He.
Qed.

Lemma insert_keys e rows e' rows' t n :
  Db.insert e rows = Ok (e', rows') → n ∈ Db.keys t rows → n ∈ Db.keys t rows'.
Proof.
  intros (_ & -> & ->)%insert_Ok Hn. rewrite keys_app, elem_of_app. by left.
Qed.

(** The flush of two lists of objects, one after the other. *)
Lemma flush_app l1 l2 rows :
  Db.flush (l1 ++ l2) rows
  = (r1 <-r Db.flush l1 rows ;;
     r2 <-r Db.flush l2 r1.2 ;; Ok (r1.1 ++ r2.1, r2.2))%py.
Proof.
  revert rows. induction l1 as [|e l1 IH]; intros rows; simpl.
  - by destruct (Db.flush l2 rows) as [[??]|].
  - destruct (Orm.id e).
    + rewrite IH. destruct (Db.flush l1 rows) as [[??]|]; simpl; [|done].
      by destruct (Db.flush l2 _) as [[??]|].
    + destruct (Db.insert e rows) as [[??]|]; simpl; [|done]. rewrite IH.
      destruct (Db.flush l1 _) as [[??]|]; simpl; [|done].
      by destruct (Db.flush l2 _) as [[??]|].
Qed.

(** Objects that have their rows are left alone. *)
Lemma flush_keyed l rows :
  Forall (λ e, is_Some (Orm.id e)) l → Db.flush l rows = Ok (l, rows).
Proof.
  induction 1 as [|e l [n He] _ IH]; simpl; [done|]. by rewrite He, IH.
Qed.

(** New objects that are not brands are all inserted: the rows they become
    are the objects with their keys. *)
Lemma flush_children l rows :
  Forall (λ e, Orm.id e = None ∧ Orm.store_url e = None) l →
  ∃ l', Db.flush l rows = Ok (l', rows ++ l') ∧ Orm.unkeyed <$> l' = l ∧
    Forall (λ e, is_Some (Orm.id e)) l'.
Proof.
  intros Hl. revert rows.
  induction Hl as [|e l [He Hu] _ IH]; intros rows; simpl.
  - exists []. by rewrite app_nil_r.
  - rewrite He. unfold Db.insert. rewrite violates_child by done. simpl.
    destruct (IH (rows ++ [Orm.with_id (next_id (Db.keys (Orm.table_of e) rows)) e]))
      as (l' & -> & El & Hk). simpl. eexists (_ :: l'). repeat split.
    + by rewrite <-(assoc_L (++)).
    + csimpl. by rewrite unkeyed_with_id, unkeyed_new, El.
    + constructor; [by rewrite id_with_id | done].
Qed.

(** A flush keeps the promises of the schema. *)
Lemma flush_wf l rows l' rows' :
  Db.wf rows → Db.flush l rows = Ok (l', rows') → Db.wf rows'.
Proof.
  revert rows l'. induction l as [|e l IH]; intros rows l' Hwf; simpl.
  - by intros [= _ <-].
  - destruct (Orm.id e).
    + destruct (Db.flush l rows) as [[l1 r1]|] eqn:E; simpl; [|done].
      intros [= _ <-]. by eapply IH.
    + destruct (Db.insert e rows) as [[e1 r1]|] eqn:Ei; simpl; [|done].
      destruct (Db.flush l r1) as [[l2 r2]|] eqn:E; simpl; [|done].
      intros [= _ <-]. eapply IH; [|done]. by eapply insert_wf.
Qed.

(** A flush raises nothing but [IntegrityError]. *)
Lemma flush_Raise l rows x : Db.flush l rows = Raise x → x = IntegrityError.
Proof.
  revert rows. induction l as [|e l IH]; intros rows; simpl; [done|].
  destruct (Orm.id e).
  - destruct (Db.flush l rows) as [[??]|] eqn:E; simpl; [done|].
    intros [= <-]. by eapply IH.
  - destruct (Db.insert e rows) as [[??]|] eqn:Ei; simpl.
    + destruct (Db.flush l _) as [[??]|] eqn:E; simpl; [done|].
      intros [= <-]. by eapply IH.
    + intros [= <-]. by apply insert_Raise in Ei as [_ ->].
Qed.

(** A commit that fails leaves the rows as they were. *)
Lemma commit_Raise s x s' :
  Db.commit s = (Raise x, s') → x = IntegrityError ∧ Db.rows s' = Db.rows s.
Proof.
  unfold Db.commit. destruct (Db.flush _ _) as [[??]|] eqn:E; [done|].
  intros [= <- <-]. split; [by eapply flush_Raise | done].
Qed.

Lemma commit_wf s r s' :
  Db.wf (Db.rows s) → Db.commit s = (r, s') → Db.wf (Db.rows s').
Proof.
  unfold Db.commit. destruct (Db.flush _ _) as [[??]|] eqn:E.
  - intros Hwf [= _ <-]. by eapply flush_wf.
  - by intros Hwf [= _ <-].
Qed.

Lemma add_run e s :
  Db.add e s
  = (Ok (length (Db.objects s)), Db.mkSession (Db.rows s) (Db.objects s ++ [e])).
Proof. done. Qed.

(** An object of the session that has its row can be refreshed. *)
Lemma refresh_run rows pre e post :
  e ∈ rows →
  Db.refresh (length pre) (Db.mkSession rows (pre ++ e :: post))
  = (Ok tt, Db.mkSession rows (pre ++ e :: post)).
Proof.
  intros He. unfold Db.refresh. simpl. rewrite list_lookup_middle by done.
  by rewrite bool_decide_eq_true_2.
Qed.

(** The brand a commit has inserted: the rows keep the promises of the
    schema and the key of the brand is a key of the table. *)
Lemma insert_brand_wf rows b u :
  Db.wf rows → Orm.store_url b = Some u → u ∉ Db.store_urls rows →
  Db.wf (rows ++ [Orm.with_id (next_id (Db.keys Orm.brands rows)) b]).
Proof.
  intros Hwf Hu Hn. eapply insert_wf; [done|]. apply insert_Ok.
  rewrite (violates_brand _ _ _ Hu), bool_decide_eq_false_2 by done.
  by rewrite (store_url_brands _ _ Hu).
Qed.

Lemma keys_brand rows n b u l :
  Orm.store_url b = Some u →
  n ∈ Db.keys Orm.brands (rows ++ Orm.with_id n b :: l).
Proof.
  intros Hu. change (Orm.with_id n b :: l) with ([Orm.with_id n b] ++ l).
  rewrite (assoc_L (++)), keys_app, keys_snoc, (store_url_brands _ _ Hu).
  rewrite bool_decide_eq_true_2 by done. rewrite !elem_of_app.
  left. right. by left.
Qed.

(** *** The three commits of the program *)

(** A new brand whose store URL is not in the table is inserted. *)
Lemma commit_new_brand rows objs b u :
  Forall (λ e, is_Some (Orm.id e)) objs →
  Orm.id b = None → Orm.store_url b = Some u → u ∉ Db.store_urls rows →
  let b' := Orm.with_id (next_id (Db.keys Orm.brands rows)) b in
  Db.commit (Db.mkSession rows (objs ++ [b]))
  = (Ok tt, Db.mkSession (rows ++ [b']) (objs ++ [b'])).
Proof.
  intros Hk Hb Hu Hn b'. unfold Db.commit. simpl.
  rewrite flush_app, flush_keyed by done. simpl. rewrite Hb.
  unfold Db.insert. rewrite (violates_brand _ _ _ Hu).
  rewrite bool_decide_eq_false_2 by done. simpl.
  by rewrite (store_url_brands _ _ Hu).
Qed.

(** A new brand whose store URL is in the table is refused: nothing is
    written and the brand leaves the session. *)
Lemma commit_duplicate_brand rows objs b u :
  Forall (λ e, is_Some (Orm.id e)) objs →
  Orm.id b = None → Orm.store_url b = Some u → u ∈ Db.store_urls rows →
  Db.commit (Db.mkSession rows (objs ++ [b]))
  = (Raise IntegrityError, Db.mkSession rows objs).
Proof.
  intros Hk Hb Hu Hn. unfold Db.commit. simpl.
  rewrite flush_app, flush_keyed by done. simpl. rewrite Hb.
  unfold Db.insert. rewrite (violates_brand _ _ _ Hu).
  rewrite bool_decide_eq_true_2 by done. simpl. f_equal. f_equal.
  rewrite filter_app, filter_cons, Hb, decide_False by (by intros []).
  rewrite filter_nil, app_nil_r. induction Hk as [|e l He _ IH]; [done|].
  by rewrite filter_cons, decide_True, IH.
Qed.

(** New objects that are not brands are all inserted. *)
Lemma commit_children rows objs l :
  Forall (λ e, is_Some (Orm.id e)) objs →
  Forall (λ e, Orm.id e = None ∧ Orm.store_url e = None) l →
  ∃ l', Db.commit (Db.mkSession rows (objs ++ l))
        = (Ok tt, Db.mkSession (rows ++ l') (objs ++ l')) ∧
    Orm.unkeyed <$> l' = l ∧
    Forall (λ e, is_Some (Orm.id e)) l' ∧
    (Db.wf rows → Db.wf (rows ++ l')).
Proof.
  intros Hk Hl. destruct (flush_children l rows Hl) as (l' & E & El & Hk').
  exists l'. split; [|split; [done|split; [done|]]].
  - unfold Db.commit. simpl.
    rewrite flush_app, flush_keyed by done. simpl. by rewrite E.
  - intros Hwf. by eapply flush_wf.
Qed.

End DbFacts.

Lemma ok_empty : Db.ok (Db.mkSession [] []).
Proof.
  split; [apply wf_nil|]. split; [|constructor]. by intros e b ?%elem_of_nil.
Qed.

(** ** An engine

    Keys counted upwards: the key of a new row is one more than the largest
    key of the table. *)
Lemma serial_fresh ids : S (max_list ids) ∉ ids.
Proof. intros Hn%max_list_elem_of_le. lia. Qed.

Definition serial : Engine :=
  {| next_id ids := S (max_list ids); next_id_fresh := serial_fresh |}.
