(* ===== verification/Fixtures.v ===== *)
(** * Fixtures: a small concrete platform, network and storefront

    The theorems of the development hold for every [Platform] and every
    [Network].  The examples and the witnesses need one of each to run on:
    a storefront of six pages and a page of search results whose bodies are
    decoded by table, a URL
    validator that asks for an [http://] or [https://] prefix, an e-mail
    validator that refuses two dots in a row, and [urljoin] for the two
    kinds of link the pages use (absolute URLs and paths from the root). *)

From Stdlib Require Import Ascii String ZArith Lia.
From stdpp Require Import base tactics option list strings.
From S2P Require Import Prelude Html Json Dict Models Net.

Import Dom.

Module Demo.

Definition root : string := "https://shop.example.com".

(** ** The pages *)

Definition a (href label : string) : node :=
  Elem "a" [("href", href)] [Text label].

Definition div (class : string) (children : list node) : node :=
  Elem "div" [("class", class)] children.

Definition doc (children : list node) : node := Elem "[document]" [] children.

Definition home : node :=
  doc [
    div "product-card" [
      Elem "h3" [] [Text " Blue Mug "];
      Elem "span" [("class", "price big")] [Text "12.00"];
      a "/products/blue-mug" "see"];
    div "featured-product" [
      Elem "p" [("class", "product-title")] [Text "Red Cup"]];
    a "https://instagram.com/shop" "Instagram";
    a "https://www.facebook.com/shop" "Facebook";
    a "/pages/contact" " Contact Us ";
    a "/blogs/news" "Blogs";
    a "https://track.example.com/a" "Contact us";
    a "/pages/size" "Size guide"].

Definition faq : node :=
  doc [
    div "faq-item" [
      div "faq-question" [Text "Do you ship? "];
      div "faq-answer" [Text " Yes."]];
    div "faq-item" [div "faq-question" [Text "Returns?"]];
    div "accordion" [
      div "accordion-title" [Text "Where?"];
      div "accordion-content" [Text "Everywhere"]]].

Definition contact : node :=
  doc [Elem "p" [] [Text "reach us at a@b.co or 1234567890"]].

Definition policy : node :=
  doc [div "main-content" [Text "  We keep nothing.  "]].

(** The page of results of the search for competitors: five links to
    storefronts, the first of them relative. *)
Definition search : node :=
  doc [
    a "/url?q=https://one.myshopify.com" "One";
    a "https://rival.myshopify.com/" "Rival";
    a "https://other.myshopify.com" "Other";
    a "https://fourth.myshopify.com" "Fourth";
    a "https://fifth.myshopify.com" "Fifth"].

(** ** The platform *)

Definition pages : list (string * node) :=
  [("HOME", home); ("FAQ", faq); ("CONTACT", contact); ("POLICY", policy);
   ("SEARCH", search)].

Definition blue_mug : Py.json :=
  Py.JObj [("id", Py.JInt 7); ("title", Py.JStr "Blue Mug");
           ("variants", Py.JArr [Py.JObj [("price", Py.JStr "12.00")]]);
           ("body_html", Py.JStr "<p>A mug</p>"); ("handle", Py.JStr "blue-mug")].

Definition catalog_items : list Py.json :=
  [blue_mug; Py.JObj [("title", Py.JStr "Red Cup"); ("handle", Py.JStr "red-cup")]].

Definition catalog_json : Py.json :=
  Py.JObj [("products", Py.JArr catalog_items)].

Fixpoint find_page (body : string) (l : list (string * node)) : node :=
  match l with
  | [] => doc [Text body]
  | (k, n) :: l' => if bool_decide (k = body) then n else find_page body l'
  end.

(** What follows [https://] or [http://]. *)
Definition strip_scheme (s : string) : string :=
  if Str.startswith "https://" s then Str.of_chars (drop 8 (Str.chars s))
  else if Str.startswith "http://" s then Str.of_chars (drop 7 (Str.chars s))
  else s.

#[export] Instance platform : Platform := {|
  parse_html body := find_page body pages;
  parse_json body :=
    if bool_decide (body = "CATALOG") then Some catalog_json
    else if bool_decide (body = "LIST") then Some (Py.JArr [])
    else None;
  py_repr _ := "<repr>";
  urljoin base url :=
    if Str.startswith "http" url then url else base +:+ url;
  quote s := s;
  http_url s :=
    if Str.startswith "http://" s || Str.startswith "https://" s then Some s
    else None;
  email_str s := if Str.contains ".." s then None else Some s;
  url_host s := Str.before "/" (strip_scheme s);
  exn_str e :=
    match e with
    | IntegrityError => "UNIQUE constraint failed: brands.store_url"
    | _ => "error"
    end;
|}.

(** ** The network *)

Definition site : list (string * response) :=
  [(root, Response 200 "HOME");
   (root +:+ "/products.json", Response 200 "CATALOG");
   (root +:+ "/pages/faq", Response 200 "FAQ");
   (root +:+ "/pages/contact", Response 200 "CONTACT");
   (root +:+ "/policies/privacy-policy", Response 200 "POLICY");
   (root +:+ "/pages/about", Response 404 "not found");
   (root +:+ "/list/products.json", Response 200 "LIST");
   ("https://lone.example.com", Response 200 "HOME");
   ("https://www.google.com/search?q=site:*.myshopify.com shop competitors",
    Response 200 "SEARCH");
   ("https://www.google.com/search?q=site:*.myshopify.com busy competitors",
    Response 429 "slow down")].

Fixpoint find_response (url : string) (l : list (string * response)) : response :=
  match l with
  | [] => Unreachable
  | (k, r) :: l' => if bool_decide (k = url) then r else find_response url l'
  end.

(** A site that answers every request from the table. *)
#[export] Instance network : Network := λ _ url, find_response url site.

Definition w0 : World := mkWorld [].

End Demo.
