(* ===== verification/Scraper.v ===== *)
(** * Scraper: [ShopifyScraper] of src/scraper.py

    One definition per method.  A method that fetches a page is the fetch
    followed by a pure function of the page fetched ([hero_products_of],
    [content_text], [faqs_of], [social_handles_of], [contact_of],
    [links_of]), which is where the selectors, the regular expressions and
    the construction of the models are.  [scrape] runs the nine extractors
    in the order in which Python evaluates the keyword arguments of
    [BrandContext(...)] and then builds the context. *)

From Stdlib Require Import Ascii String ZArith Lia.
From stdpp Require Import base tactics option list strings pretty.
From S2P Require Import Prelude Regex Html Json Dict Models Net Fixtures.

#[local] Open Scope py_scope.

Import Dom.

(** ** The selectors written in the source *)

(** [".product-card, .featured-product"] *)
Definition sel_hero : selector :=
  [[SClass "product-card"]; [SClass "featured-product"]].
(** [".product-title"], ["h3"], [".product-price"], [".price"] *)
Definition sel_title : selector := [[SClass "product-title"]].
Definition sel_h3 : selector := [[STag "h3"]].
Definition sel_product_price : selector := [[SClass "product-price"]].
Definition sel_price : selector := [[SClass "price"]].
(** ["a[href*='/products/']"] *)
Definition sel_product_link : selector :=
  [[STag "a"; SAttrContains "href" "/products/"]].
(** [".policy-content, .main-content"] *)
Definition sel_policy : selector :=
  [[SClass "policy-content"]; [SClass "main-content"]].
(** [".about-content, .main-content"] *)
Definition sel_about : selector :=
  [[SClass "about-content"]; [SClass "main-content"]].
(** [".faq-item, .accordion"] and the two selectors inside an item *)
Definition sel_faq : selector := [[SClass "faq-item"]; [SClass "accordion"]].
Definition sel_question : selector :=
  [[SClass "faq-question"]; [SClass "accordion-title"]].
Definition sel_answer : selector :=
  [[SClass "faq-answer"]; [SClass "accordion-content"]].
(** ["a[href*='instagram.com'], a[href*='facebook.com'], a[href*='tiktok.com']"] *)
Definition sel_social : selector :=
  [[STag "a"; SAttrContains "href" "instagram.com"];
   [STag "a"; SAttrContains "href" "facebook.com"];
   [STag "a"; SAttrContains "href" "tiktok.com"]].
(** ["a[href*='/pages/'], a[href*='track'], a[href*='contact'], a[href*='blog']"] *)
Definition sel_links : selector :=
  [[STag "a"; SAttrContains "href" "/pages/"];
   [STag "a"; SAttrContains "href" "track"];
   [STag "a"; SAttrContains "href" "contact"];
   [STag "a"; SAttrContains "href" "blog"]].

(** The labels [get_important_links] keeps. *)
Definition link_names : list string := ["order tracking"; "contact us"; "blogs"].

Record ShopifyScraper : Type := mkScraper {
  base_url : string;
}.

Section Scraper.
Context `{Platform, Network}.

(** [ShopifyScraper.__init__] *)
Definition init (url : string) : ShopifyScraper :=
  mkScraper (Str.rstrip "/" url).

(** [ShopifyScraper.fetch_page] *)
Definition fetch_page (url : string) : M World (option node) :=
  try_except
    (r <- session_get url ;;
     raise_for_status r.1 ;;;
     ret (Some (parse_html r.2)))
    is_RequestException
    (ret None).

(** *** [get_product_catalog] *)

(** The body of the loop: the product built from one item. *)
Definition product_of_item (self : ShopifyScraper) (item : Py.json)
    : result Product :=
  id <-r Py.get "id" Py.JNull item ;;
  title <-r Py.get "title" (Py.JStr "") item ;;
  variants <-r Py.get "variants" (Py.JArr [Py.JObj []]) item ;;
  variant <-r Py.index0 variants ;;
  price <-r Py.get "price" (Py.JStr "") variant ;;
  body_html <-r Py.get "body_html" (Py.JStr "") item ;;
  handle <-r Py.get "handle" (Py.JStr "") item ;;
  new_Product
    (Py.JStr (Py.str py_repr id))
    title
    (Py.JStr (Py.str py_repr price))
    body_html
    (Py.JStr (base_url self +:+ "/products/" +:+ Py.str py_repr handle)).

(** The loop over [data.get("products", [])]. *)
Definition products_of_data (self : ShopifyScraper) (data : Py.json)
    : result (list Product) :=
  products <-r Py.get "products" (Py.JArr []) data ;;
  items <-r Py.iter products ;;
  result_map (product_of_item self) items.

(** [response.json()] *)
Definition response_json (body : string) : M World Py.json :=
  match parse_json body with
  | Some v => ret v
  | None => raise JSONDecodeError
  end.

Definition get_product_catalog (self : ShopifyScraper) : M World (list Product) :=
  try_except
    (r <- session_get (base_url self +:+ "/products.json") ;;
     raise_for_status r.1 ;;;
     data <- response_json r.2 ;;
     lift (products_of_data self data))
    is_RequestException
    (ret []).

(** *** [get_hero_products] *)

(** [x.text.strip() if x else ""] *)
Definition text_or_empty (x : option node) : string :=
  match x with Some n => Str.strip (text n) | None => "" end.

(** The body of the loop: the product of one card. *)
Definition hero_product (self : ShopifyScraper) (product_div : node)
    : result Product :=
  let title := or_else (select_one sel_title product_div)
                       (select_one sel_h3 product_div) in
  let price := or_else (select_one sel_product_price product_div)
                       (select_one sel_price product_div) in
  let url := select_one sel_product_link product_div in
  url_arg <-r match url with
              | Some a =>
                  href <-r attr_get "href" a ;;
                  Ok (Py.JStr (urljoin (base_url self) href))
              | None => Ok Py.JNull
              end ;;
  new_Product Py.JNull (Py.JStr (text_or_empty title))
    (Py.JStr (text_or_empty price)) Py.JNull url_arg.

Definition hero_products_of (self : ShopifyScraper) (soup : option node)
    : result (list Product) :=
  match soup with
  | Some s => result_map (hero_product self) (select sel_hero s)
  | None => Ok []
  end.

Definition get_hero_products (self : ShopifyScraper) : M World (list Product) :=
  soup <- fetch_page (base_url self) ;;
  lift (hero_products_of self soup).

(** *** [get_privacy_policy], [get_return_policy], [get_brand_description] *)

(** The stripped text of the first element that matches, if the page was
    fetched and has one. *)
Definition content_text (sel : selector) (soup : option node) : option string :=
  match soup with
  | Some s =>
      match select_one sel s with
      | Some content => Some (Str.strip (text content))
      | None => None
      end
  | None => None
  end.

Definition get_privacy_policy (self : ShopifyScraper) : M World (option string) :=
  soup <- fetch_page (base_url self +:+ "/policies/privacy-policy") ;;
  ret (content_text sel_policy soup).

Definition get_return_policy (self : ShopifyScraper) : M World (option string) :=
  soup <- fetch_page (base_url self +:+ "/policies/refunded-policy") ;;
  ret (content_text sel_policy soup).

Definition get_brand_description (self : ShopifyScraper) : M World (option string) :=
  soup <- fetch_page (base_url self +:+ "/pages/about") ;;
  ret (content_text sel_about soup).

(** *** [get_faqs] *)

(** The body of the loop: an item yields a FAQ only if it has both a
    question and an answer. *)
Definition faq_of (faq_item : node) : option FAQ :=
  match select_one sel_question faq_item, select_one sel_answer faq_item with
  | Some question, Some answer =>
      Some (mkFAQ (Str.strip (text question)) (Str.strip (text answer)))
  | _, _ => None
  end.

Definition faqs_of (soup : option node) : list FAQ :=
  match soup with
  | Some s => omap faq_of (select sel_faq s)
  | None => []
  end.

Definition get_faqs (self : ShopifyScraper) : M World (list FAQ) :=
  soup <- fetch_page (base_url self +:+ "/pages/faq") ;;
  ret (faqs_of soup).

(** *** [get_social_handles] *)

(** The conditional expression that names the platform of a link. *)
Definition platform_of (href : string) : string :=
  if Str.contains "instagram.com" href then "instagram"
  else if Str.contains "facebook Xcom" href then "facebook"
  else "tiktok".

Definition social_handle (link : node) : result SocialHandle :=
  href <-r attr_get "href" link ;;
  new_SocialHandle (platform_of href) href.

Definition social_handles_of (soup : option node) : result (list SocialHandle) :=
  match soup with
  | Some s => result_map social_handle (select sel_social s)
  | None => Ok []
  end.

Definition get_social_handles (self : ShopifyScraper)
    : M World (list SocialHandle) :=
  soup <- fetch_page (base_url self) ;;
  lift (social_handles_of soup).

(** *** [get_contact_details] *)

Definition extract_emails (text : string) : list string :=
  Re.findall Re.email_re text.

Definition extract_phone_numbers (text : string) : list string :=
  Re.findall Re.phone_re text.

Definition contact_of (soup : option node) : result ContactDetail :=
  match soup with
  | Some s =>
      let t := text s in
      new_ContactDetail (extract_emails t) (extract_phone_numbers t)
  | None => new_ContactDetail [] []
  end.

Definition get_contact_details (self : ShopifyScraper) : M World ContactDetail :=
  soup <- fetch_page (base_url self +:+ "/pages/contact") ;;
  lift (contact_of soup).

(** *** [get_important_links] *)

(** The body of the loop: a link whose label is one of the three kept
    sets the entry of that label. *)
Definition link_name (link : node) : string :=
  Str.lower (Str.strip (text link)).

Definition add_link (self : ShopifyScraper) (links : Dict.t string)
    (link : node) : result (Dict.t string) :=
  let name := link_name link in
  if Str.mem name link_names then
    href <-r attr_get "href" link ;;
    Ok (Dict.set name (urljoin (base_url self) href) links)
  else Ok links.

Definition links_of (self : ShopifyScraper) (soup : option node)
    : result (Dict.t string) :=
  match soup with
  | Some s => result_fold (add_link self) (select sel_links s) Dict.empty
  | None => Ok Dict.empty
  end.

Definition get_important_links (self : ShopifyScraper)
    : M World (Dict.t string) :=
  soup <- fetch_page (base_url self) ;;
  lift (links_of self soup).

(** *** [scrape] *)

Definition scrape (self : ShopifyScraper) : M World BrandContext :=
  product_catalog <- get_product_catalog self ;;
  hero_products <- get_hero_products self ;;
  privacy_policy <- get_privacy_policy self ;;
  return_policy <- get_return_policy self ;;
  faqs <- get_faqs self ;;
  social_handles <- get_social_handles self ;;
  contact_details <- get_contact_details self ;;
  brand_description <- get_brand_description self ;;
  important_links <- get_important_links self ;;
  lift (new_BrandContext (base_url self) product_catalog hero_products
          privacy_policy return_policy faqs social_handles contact_details
          brand_description important_links).

(** ** What a fetch yields *)

(** The page [fetch_page] makes of a response: none when there is no
    response or the status is one that [raise_for_status] refuses. *)
Definition page_of (r : response) : option node :=
  match r with
  | Unreachable => None
  | Response status body =>
      if (400 <=? status) && (status <? 600) then None
      else Some (parse_html body)
  end.

(** The URLs [scrape] requests, in order. *)
Definition scrape_urls (self : ShopifyScraper) : list string :=
  [base_url self +:+ "/products.json";
   base_url self;
   base_url self +:+ "/policies/privacy-policy";
   base_url self +:+ "/policies/refunded-policy";
   base_url self +:+ "/pages/faq";
   base_url self;
   base_url self +:+ "/pages/contact";
   base_url self +:+ "/pages/about";
   base_url self].

(** The trace after the first [i] requests of [scrape], and the page the
    next request fetches from [u]. *)
Definition trace_after (self : ShopifyScraper) (w : World) (i : nat) : list event :=
  trace w ++ (EvGet <$> take i (scrape_urls self)).

Definition page_after (self : ShopifyScraper) (w : World) (i : nat) (u : string)
    : option node :=
  page_of (respond (trace_after self w i) u).

(** What [get_product_catalog] makes of the response to its request. *)
Definition catalog_of (self : ShopifyScraper) (r : response)
    : result (list Product) :=
  match r with
  | Unreachable => Ok []
  | Response status body =>
      if (400 <=? status) && (status <? 600) then Ok []
      else match parse_json body with
           | Some data => products_of_data self data
           | None => Ok []
           end
  end.

(** What the loop of [get_product_catalog] can raise. *)
Definition catalog_errors : list exn :=
  [AttributeError; TypeError; IndexError; KeyError; ValidationError].

(** What [scrape] returns in a world, from the pages its nine requests
    fetch there. *)
Definition scrape_result (self : ShopifyScraper) (w : World)
    : result BrandContext :=
  let page := page_after self w in
  let u := base_url self in
  product_catalog <-r catalog_of self (respond (trace w) (u +:+ "/products.json")) ;;
  hero_products <-r hero_products_of self (page 1 u) ;;
  social_handles <-r social_handles_of (page 5 u) ;;
  contact_details <-r contact_of (page 6 (u +:+ "/pages/contact")) ;;
  important_links <-r links_of self (page 8 u) ;;
  new_BrandContext u product_catalog hero_products
    (content_text sel_policy (page 2 (u +:+ "/policies/privacy-policy")))
    (content_text sel_policy (page 3 (u +:+ "/policies/refunded-policy")))
    (faqs_of (page 4 (u +:+ "/pages/faq")))
    social_handles contact_details
    (content_text sel_about (page 7 (u +:+ "/pages/about")))
    important_links.

End Scraper.

(** ** The demonstration storefront

    The scraper of the storefront of [Fixtures] and what scraping it
    returns. *)
Definition demo_scraper : ShopifyScraper :=
  Eval vm_compute in init (Demo.root +:+ "/").

Definition demo_run : result BrandContext * World :=
  Eval vm_compute in
    scrape (H := Demo.platform) (H0 := Demo.network) demo_scraper Demo.w0.

Definition empty_context : BrandContext :=
  mkBrandContext "" [] [] None None [] [] (mkContactDetail [] []) None [].

Definition demo_context : BrandContext :=
  Eval vm_compute in
    match demo_run.1 with Ok b => b | Raise _ => empty_context end.

(** One step of a chain of [result_bind]: case analysis on the first
    result. *)
Ltac result_step :=
  match goal with
  | |- context [result_bind ?r _] =>
      let E := fresh "E" in destruct r eqn:E; simpl
  end.

Section ScraperFacts.
Context `{Platform, Network}.

(** C2: [fetch_page] never raises and makes exactly one request.  It
    returns no page exactly when the request has no response or the status
    of the response is in 400..599, and otherwise the parsed body of the
    response, whatever the status: a response with status 304 or 100 is
    parsed like one with status 200. *)
Theorem fetch_page_spec url w :
  ∃ r, fetch_page url w = (Ok r, log (EvGet url) w) ∧
    (r = None ↔
       respond (trace w) url = Unreachable ∨
       ∃ status body, respond (trace w) url = Response status body ∧
         400 ≤ status < 600) ∧
    (∀ page, r = Some page →
       ∃ status body, respond (trace w) url = Response status body ∧
         page = parse_html body).
Proof.
  unfold fetch_page, try_except. rewrite session_get_checked.
  destruct (respond (trace w) url) as [|status body]; [naive_solver|].
  destruct (Nat.leb_spec 400 status), (Nat.ltb_spec status 600); simpl;
    eexists; (split; [done|]);
    (split; [split; [try done|intros [|(? & ? & [= <- <-] & ?)]; (done || lia)]
            | intros ? [= <-]; eauto]).
  intros _. right. eauto with lia.
Qed.

(** When there is no page. *)
Lemma page_of_None r :
  page_of r = None ↔
  r = Unreachable ∨ ∃ status body, r = Response status body ∧ 400 ≤ status < 600.
Proof.
  destruct r as [|status body]; [naive_solver|]. unfold page_of.
  destruct ((400 <=? status) && (status <? 600)) eqn:E.
  - apply andb_true_iff in E as [?%Nat.leb_le ?%Nat.ltb_lt].
    split; [|done]. intros _. right. exists status, body. split; [done | lia].
  - apply andb_false_iff in E as [?%Nat.leb_gt|?%Nat.ltb_ge];
      (split; [done|]); intros [|(? & ? & [= <- <-] & ?)]; (done || lia).
Qed.

(** [fetch_page] in closed form: one request, and the page of the
    response. *)
Lemma fetch_page_run url w :
  fetch_page url w = (Ok (page_of (respond (trace w) url)), log (EvGet url) w).
Proof.
  unfold fetch_page, try_except, page_of. rewrite session_get_checked.
  destruct (respond (trace w) url) as [|status body]; [done|].
  by destruct (_ && _).
Qed.

(** A method that starts with a fetch continues with the page of the
    response, one event later. *)
Lemma bind_fetch_page {A} url (k : option node → M World A) w :
  bind (fetch_page url) k w
  = k (page_of (respond (trace w) url)) (log (EvGet url) w).
Proof. unfold bind. by rewrite fetch_page_run. Qed.

(** *** The catalogue *)

Lemma catalog_errors_uncaught e :
  e ∈ catalog_errors → is_RequestException e = false.
Proof. unfold catalog_errors. intros He. by elem_list. Qed.

Lemma product_of_item_Raise self item e :
  product_of_item self item = Raise e → e ∈ catalog_errors.
Proof.
  unfold product_of_item, catalog_errors. repeat result_step;
    try (intros [= <-];
         repeat match goal with
         | E : Py.get _ _ _ = Raise _ |- _ => apply py_get_Raise in E as ->
         | E : Py.index0 _ = Raise _ |- _ => apply py_index0_Raise in E
         end; by elem_list).
  intros ->%new_Product_Raise. elem_list.
Qed.

(** The loop raises nothing that the handler of [get_product_catalog]
    catches: the list the handler returns is still empty. *)
Lemma products_of_data_Raise self data e :
  products_of_data self data = Raise e → e ∈ catalog_errors.
Proof.
  unfold products_of_data. repeat result_step; [|unfold catalog_errors..].
  - intros (x & _ & Hx)%result_map_Raise. by eapply product_of_item_Raise.
  - intros [= <-]. apply py_iter_Raise in E0 as ->. elem_list.
  - intros [= <-]. apply py_get_Raise in E as ->. elem_list.
Qed.

(** C5: when the catalogue request has no response, is answered with a
    status in 400..599, or with a body that is not JSON,
    [get_product_catalog] returns the empty list after its one request. *)
Theorem get_product_catalog_degrades self w :
  let url := base_url self +:+ "/products.json" in
  respond (trace w) url = Unreachable ∨
  (∃ status body, respond (trace w) url = Response status body ∧
     (400 ≤ status < 600 ∨ parse_json body = None)) →
  get_product_catalog self w = (Ok [], log (EvGet url) w).
Proof.
  intros url Hr. unfold get_product_catalog, try_except.
  rewrite session_get_checked. fold url.
  destruct Hr as [->|(status & body & -> & Hs)]; [done|].
  destruct ((400 <=? status) && (status <? 600)) eqn:E; [done|].
  destruct Hs as [Hs|Hj].
  - destruct (Nat.leb_spec 400 status), (Nat.ltb_spec status 600); (done || lia).
  - unfold response_json. simpl. by rewrite Hj.
Qed.

(** [get_product_catalog] in closed form: one request, and [catalog_of]
    of the response. *)
Lemma get_product_catalog_run self w :
  get_product_catalog self w
  = (catalog_of self (respond (trace w) (base_url self +:+ "/products.json")),
     log (EvGet (base_url self +:+ "/products.json")) w).
Proof.
  unfold get_product_catalog, try_except, catalog_of.
  rewrite session_get_checked. destruct (respond _ _) as [|status body]; [done|].
  destruct (_ && _); [done|]. unfold response_json, bind, lift. simpl.
  destruct (parse_json body) as [data|]; [|done]. simpl.
  destruct (products_of_data self data) as [ps|e] eqn:E; [done|].
  by rewrite (catalog_errors_uncaught _ (products_of_data_Raise _ _ _ E)).
Qed.

(** A status that [raise_for_status] lets through. *)
Lemma status_ok status :
  status < 400 ∨ 600 ≤ status → (400 <=? status) && (status <? 600) = false.
Proof.
  intros Hs. destruct (Nat.leb_spec 400 status), (Nat.ltb_spec status 600);
    simpl; (done || lia).
Qed.

(** C6: a catalogue whose body decodes to an object with a ["products"]
    array yields, when it returns, one product per entry of the array, in
    the order of the array. *)
Theorem catalog_one_product_per_item self w status body fields items ps w' :
  respond (trace w) (base_url self +:+ "/products.json") = Response status body →
  status < 400 ∨ 600 ≤ status →
  parse_json body = Some (Py.JObj fields) →
  Py.lookup "products" fields = Some (Py.JArr items) →
  get_product_catalog self w = (Ok ps, w') →
  length ps = length items ∧ result_map (product_of_item self) items = Ok ps.
Proof.
  intros Hr Hs Hj Hp. rewrite get_product_catalog_run, Hr.
  unfold catalog_of. rewrite status_ok, Hj by done. unfold products_of_data. simpl. rewrite Hp.
  simpl. intros [= E _]. split; [by eapply result_map_Ok_length | done].
Qed.

(** C21: a body that is valid JSON but not an object makes
    [get_product_catalog] raise [AttributeError]: the handler of the method
    names [RequestException] only, so the exception leaves the method. *)
Theorem catalog_raises_on_non_object self w status body data :
  respond (trace w) (base_url self +:+ "/products.json") = Response status body →
  status < 400 ∨ 600 ≤ status →
  parse_json body = Some data →
  Py.is_dict data = false →
  (get_product_catalog self w).1 = Raise AttributeError.
Proof.
  intros Hr Hs Hj Hd. rewrite get_product_catalog_run, Hr.
  unfold catalog_of. rewrite status_ok, Hj by done. unfold products_of_data.
  by rewrite py_get_not_dict.
Qed.

(** C23: an entry with all its fields yields the product with the id as
    decimal text, the title, the price of the first variant, the body and
    the validated URL of the handle under [/products/]. *)
Theorem product_of_item_fields self fields id title vfields vs price body handle u :
  Py.lookup "id" fields = Some (Py.JInt id) →
  Py.lookup "title" fields = Some (Py.JStr title) →
  Py.lookup "variants" fields = Some (Py.JArr (Py.JObj vfields :: vs)) →
  Py.lookup "price" vfields = Some (Py.JStr price) →
  Py.lookup "body_html" fields = Some (Py.JStr body) →
  Py.lookup "handle" fields = Some (Py.JStr handle) →
  http_url (base_url self +:+ "/products/" +:+ handle) = Some u →
  product_of_item self (Py.JObj fields)
  = Ok (mkProduct (Some (pretty id)) title (Some price) (Some body) (Some u)).
Proof.
  intros Hi Ht Hv Hp Hb Hh Hu. unfold product_of_item. simpl.
  rewrite Hi, Ht, Hv, Hb, Hh. simpl. rewrite Hp. simpl.
  unfold new_Product. simpl. unfold checked. by rewrite Hu.
Qed.

(** C22: what a missing or malformed field does to an entry.  Without an
    ["id"] the product's id is the text ["None"]; without ["variants"] the
    price is the empty text; with [variants] an empty array the entry raises
    [IndexError]; with a [null] title it raises [ValidationError]; an entry
    that is not an object raises [AttributeError]. *)
Theorem product_of_item_degraded self :
  (∀ u, http_url (base_url self +:+ "/products/") = Some u →
     product_of_item self (Py.JObj [])
     = Ok (mkProduct (Some "None") "" (Some "") (Some "") (Some u))) ∧
  (∀ fields, Py.lookup "variants" fields = Some (Py.JArr []) →
     product_of_item self (Py.JObj fields) = Raise IndexError) ∧
  (∀ fields, Py.lookup "title" fields = Some Py.JNull →
     Py.lookup "variants" fields = None →
     product_of_item self (Py.JObj fields) = Raise ValidationError) ∧
  (∀ item, Py.is_dict item = false →
     product_of_item self item = Raise AttributeError).
Proof.
  repeat split.
  - intros u Hu. unfold product_of_item, new_Product. simpl. unfold checked.
    by rewrite str_app_empty_r, Hu.
  - intros fields Hv. unfold product_of_item. simpl. by rewrite Hv.
  - intros fields Ht Hv. unfold product_of_item, new_Product. simpl.
    rewrite Ht, Hv. simpl. by repeat case_match.
  - intros item Hd. unfold product_of_item. by rewrite py_get_not_dict.
Qed.

(** *** The hero products *)

(** The three arguments a card gives to the constructor. *)
Lemma hero_product_unfold self card :
  hero_product self card
  = (url_arg <-r match select_one sel_product_link card with
                 | Some a => href <-r attr_get "href" a ;;
                             Ok (Py.JStr (urljoin (base_url self) href))
                 | None => Ok Py.JNull
                 end ;;
     new_Product Py.JNull
       (Py.JStr (text_or_empty (or_else (select_one sel_title card)
                                        (select_one sel_h3 card))))
       (Py.JStr (text_or_empty (or_else (select_one sel_product_price card)
                                        (select_one sel_price card))))
       Py.JNull url_arg)%py.
Proof. done. Qed.

Lemma sel_product_link_href card a :
  select_one sel_product_link card = Some a → ∃ href, attr "href" a = Some href.
Proof. apply select_one_attr. tests_attr. Qed.




(** *** The FAQ *)

(** C8: an item yields no FAQ exactly when it lacks a question element
    or an answer element. *)
Theorem faq_of_None item :
  faq_of item = None ↔
  select sel_question item = [] ∨ select sel_answer item = [].
Proof.
  unfold faq_of. rewrite <-!select_one_None.
  destruct (select_one sel_question item), (select_one sel_answer item);
    naive_solver.
Qed.

(** C35: the FAQs returned are exactly those of the items that have both
    elements, with the stripped texts of the first question and the first
    answer of the item. *)
Theorem faqs_of_elem s f :
  f ∈ faqs_of (Some s) ↔
  ∃ item q a, item ∈ select sel_faq s ∧
    select_one sel_question item = Some q ∧
    select_one sel_answer item = Some a ∧
    f = mkFAQ (Str.strip (text q)) (Str.strip (text a)).
Proof.
  unfold faqs_of. rewrite list_elem_of_omap. unfold faq_of. split.
  - intros (item & Hi & E). exists item.
    destruct (select_one sel_question item) as [q|]; [|done].
    destruct (select_one sel_answer item) as [a|]; [|done]. naive_solver.
  - intros (item & q & a & Hi & Eq & Ea & ->). exists item.
    by rewrite Eq, Ea.
Qed.

(** C36: there are at most as many FAQs as items, and question and
    answer of each have no white space left at either end. *)
Theorem faqs_of_stripped soup f :
  f ∈ faqs_of soup →
  Str.strip (question f) = question f ∧ Str.strip (answer f) = answer f.
Proof.
  destruct soup as [s|]; [|by intros ?%elem_of_nil].
  intros (item & _ & E)%list_elem_of_omap. unfold faq_of in E.
  repeat case_match; simplify_eq. simpl. by rewrite !strip_idemp.
Qed.

Lemma faqs_of_length s : length (faqs_of (Some s)) ≤ length (select sel_faq s).
Proof. apply omap_length_le. Qed.

(** *** The social handles *)

(** A link the selector of [get_social_handles] finds has an [href], and
    the [href] contains one of the three domains. *)
Lemma sel_social_href s x :
  x ∈ select sel_social s →
  ∃ href, attr "href" x = Some href ∧
    (Str.contains "instagram.com" href = true ∨
     Str.contains "facebook.com" href = true ∨
     Str.contains "tiktok.com" href = true).
Proof.
  intros [Hm _]%elem_of_select.
  apply (matches_attr "href") in Hm as (href & E & c & v & Hc & Hv & Hin);
    [|tests_attr].
  exists href. split; [done|]. unfold sel_social in Hc.
  repeat (apply elem_of_cons in Hc as [->|Hc]); [..|by apply elem_of_nil in Hc];
    apply elem_of_cons in Hv as [?|Hv%list_elem_of_singleton]; naive_solver.
Qed.

(** C31: the handle of a selected link: the subscript [link["href"]]
    never raises, the URL is the validated [href], and the platform is what
    the conditional expression makes of the [href]. *)
Theorem social_handles_of_spec s hs :
  social_handles_of (Some s) = Ok hs ↔
  Forall2 (λ x h, ∃ href, attr "href" x = Some href ∧
             http_url href = Some (handle_url h) ∧
             platform h = platform_of href)
    (select sel_social s) hs.
Proof.
  unfold social_handles_of. rewrite result_map_Ok_Forall2.
  apply Forall2_iff_elem. intros x [p u] Hx. unfold social_handle.
  destruct (sel_social_href _ _ Hx) as (href & E & _).
  rewrite (attr_get_Ok _ _ _ E). simpl. rewrite new_SocialHandle_Ok.
  naive_solver.
Qed.

(** C7: the platform is never ["facebook"] for a URL without a space: the
    text the code looks for is ["facebook Xcom"], so a link to facebook.com
    is given the platform ["tiktok"]. *)
Theorem platform_of_facebook href :
  Str.contains " " href = false →
  Str.contains "instagram.com" href = false →
  platform_of href = "tiktok".
Proof.
  intros Hsp Hi. unfold platform_of. rewrite Hi.
  destruct (Str.contains "facebook Xcom" href) eqn:E; [|done].
  by rewrite (str_contains_trans " " "facebook Xcom" href eq_refl E) in Hsp.
Qed.

(** *** The contact details *)

(** C25: every address [get_contact_details] finds is a piece of the text
    of the page that has the shape [local@domain.tld]: a non-empty local
    part of letters, digits and [._%+-], a non-empty domain of letters,
    digits and [.-], and a final label of at least two letters. *)
Theorem extract_emails_shape t e :
  e ∈ extract_emails t →
  Re.is_email (Str.chars e) ∧ Str.contains e t = true.
Proof.
  intros (pre & post & Ho)%findall_occurs. split.
  - destruct Ho as [_ Hm]. by eapply email_re_spec.
  - by eapply occurs_in_contains.
Qed.

(** C26: no address is found exactly when no piece of the text has the
    shape of an address. *)
Theorem extract_emails_none t :
  extract_emails t = [] ↔
  ∀ pre e post, t = pre +:+ e +:+ post → ¬ Re.is_email (Str.chars e).
Proof.
  unfold extract_emails. rewrite findall_nil. unfold Re.occurs_in.
  split; intros Hn pre e post.
  - intros -> He. eapply Hn. split; [done|]. by apply email_re_spec.
  - intros [-> Hm%email_re_spec]. by eapply Hn.
Qed.

(** C27: every phone number found is a piece of the text that is either
    ten digits between two word boundaries, or a [+], one to three digits,
    at most one white space and ten digits before a word boundary; it has
    between 10 and 15 characters. *)
Theorem extract_phone_numbers_shape t p :
  p ∈ extract_phone_numbers t →
  ∃ pre post, t = pre +:+ p +:+ post ∧
    Re.is_phone (Re.last_char None (Str.chars pre)) (Str.chars p) (Str.chars post) ∧
    10 ≤ length (Str.chars p) ≤ 15.
Proof.
  intros (pre & post & -> & Hm%phone_re_spec)%findall_occurs.
  exists pre, post. repeat split; [done | by eapply is_phone_length..].
Qed.


(** C28: [get_contact_details] builds its result exactly when the
    validator of [EmailStr] accepts every address found; the result holds
    the validated addresses and the phone numbers found, both in the order
    of the text. *)
Theorem contact_of_spec s c :
  contact_of (Some s) = Ok c ↔
  Forall2 (λ e e', email_str e = Some e') (extract_emails (text s)) (emails c) ∧
  phone_numbers c = extract_phone_numbers (text s).
Proof.
  unfold contact_of, new_ContactDetail. rewrite <-result_map_checked.
  destruct (result_map _ _) as [es|e]; destruct c; simpl; naive_solver.
Qed.

(** *** The policies and the description *)

(** C10: a content method returns [None] exactly when the page was not
    fetched or no element of it matches the selector, and otherwise the
    stripped text of the first match in document order. *)
Theorem content_text_spec sel soup :
  content_text sel soup
  = (s ← soup; x ← head (select sel s); Some (Str.strip (text x))).
Proof.
  destruct soup as [s|]; [|done]. simpl. rewrite select_one_head.
  by destruct (select sel s).
Qed.

Lemma content_text_stripped sel soup t :
  content_text sel soup = Some t → Str.strip t = t.
Proof.
  unfold content_text. repeat case_match; try done.
  intros [= <-]. apply strip_idemp.
Qed.

(** *** The important links *)

Lemma sel_links_href s x :
  x ∈ select sel_links s → ∃ href, attr "href" x = Some href.
Proof. apply select_attr. tests_attr. Qed.

(** One round of the loop on a link that has an [href]. *)
Lemma add_link_spec self d x href :
  attr "href" x = Some href →
  add_link self d x
  = Ok (if Str.mem (link_name x) link_names
        then Dict.set (link_name x) (urljoin (base_url self) href) d else d).
Proof.
  intros E. unfold add_link. destruct (Str.mem _ _); [|done].
  by rewrite (attr_get_Ok _ _ _ E).
Qed.

(** A round keeps the keys apart and among the three labels. *)
Lemma add_link_inv self d x d' :
  add_link self d x = Ok d' →
  Dict.wf d ∧ Dict.keys d ⊆ link_names →
  Dict.wf d' ∧ Dict.keys d' ⊆ link_names.
Proof.
  unfold add_link. destruct (Str.mem _ _) eqn:Em; [|naive_solver].
  apply mem_spec in Em. destruct (attr_get _ _); simpl; [|done].
  intros [= <-] [Hwf Hk]. split; [by apply dict_wf_set|].
  rewrite dict_keys_set. case_bool_decide; [done|].
  intros k [?|Hk'%list_elem_of_singleton]%elem_of_app; [auto | by subst].
Qed.

(** A round on a link with another label leaves the entry of [k] alone. *)
Lemma add_link_other self d x d' k :
  link_name x ≠ k → add_link self d x = Ok d' → Dict.get k d' = Dict.get k d.
Proof.
  intros Hk. unfold add_link. destruct (Str.mem _ _); [|congruence].
  destruct (attr_get _ _); simpl; [|done].
  intros [= <-]. by apply dict_get_set_ne.
Qed.

Lemma links_of_Ok self soup : ∃ d, links_of self soup = Ok d.
Proof.
  apply is_Ok_true. destruct soup as [s|]; [|done]. simpl.
  apply result_fold_total. intros b x [href E]%sel_links_href.
  by rewrite (add_link_spec _ _ _ _ E).
Qed.


(** C30: the last link with a label decides the entry of that label:
    when no later selected link has the same label, the dictionary maps the
    label to the link's [href] joined to the base URL. *)
Theorem links_of_last self s l1 x l2 href :
  select sel_links s = l1 ++ x :: l2 →
  attr "href" x = Some href →
  link_name x ∈ link_names →
  Forall (λ y, link_name y ≠ link_name x) l2 →
  ∃ d, links_of self (Some s) = Ok d ∧
    Dict.get (link_name x) d = Some (urljoin (base_url self) href).
Proof.
  intros Hs Hh Hn%mem_spec Hl2.
  destruct (links_of_Ok self (Some s)) as [d Hd]. exists d.
  split; [done|]. revert Hd. unfold links_of.
  rewrite Hs, result_fold_app. destruct (result_fold _ l1 _) as [d1|]; [|done].
  simpl. rewrite (add_link_spec _ _ _ _ Hh), Hn. simpl.
  apply (result_fold_inv (λ d, Dict.get (link_name x) d = Some _));
    [|apply dict_get_set_eq].
  intros b y b' Hy Hb Hstep. rewrite <-Hb. eapply add_link_other; [|done].
  by eapply Forall_forall in Hl2.
Qed.

(** *** The constructor *)

(** C37: the base URL of a scraper is the URL given without its trailing
    slashes: it is a prefix of the URL, what follows it is slashes only, and
    it does not end with a slash. *)
Theorem init_spec url :
  (∃ slashes, url = base_url (init url) +:+ slashes ∧
     Forall (λ c, c = "/"%char) (Str.chars slashes)) ∧
  (∀ l c, Str.chars (base_url (init url)) = l ++ [c] → c ≠ "/"%char).
Proof.
  split.
  - destruct (rstrip_prefix "/" url) as (k & E & Hk). exists k.
    split; [done|]. eapply Forall_impl; [done|].
    by intros c ?%list_elem_of_singleton.
  - intros l c Hc%rstrip_last ->. apply Hc. by left.
Qed.

(** *** The methods that fetch one page *)

Lemma get_hero_products_run self w :
  get_hero_products self w
  = (hero_products_of self (page_of (respond (trace w) (base_url self))),
     log (EvGet (base_url self)) w).
Proof. apply bind_fetch_page. Qed.

Lemma get_privacy_policy_run self w :
  let u := base_url self +:+ "/policies/privacy-policy" in
  get_privacy_policy self w
  = (Ok (content_text sel_policy (page_of (respond (trace w) u))), log (EvGet u) w).
Proof. apply bind_fetch_page. Qed.

Lemma get_return_policy_run self w :
  let u := base_url self +:+ "/policies/refunded-policy" in
  get_return_policy self w
  = (Ok (content_text sel_policy (page_of (respond (trace w) u))), log (EvGet u) w).
Proof. apply bind_fetch_page. Qed.

Lemma get_brand_description_run self w :
  let u := base_url self +:+ "/pages/about" in
  get_brand_description self w
  = (Ok (content_text sel_about (page_of (respond (trace w) u))), log (EvGet u) w).
Proof. apply bind_fetch_page. Qed.

Lemma get_faqs_run self w :
  let u := base_url self +:+ "/pages/faq" in
  get_faqs self w = (Ok (faqs_of (page_of (respond (trace w) u))), log (EvGet u) w).
Proof. apply bind_fetch_page. Qed.

Lemma get_social_handles_run self w :
  get_social_handles self w
  = (social_handles_of (page_of (respond (trace w) (base_url self))),
     log (EvGet (base_url self)) w).
Proof. apply bind_fetch_page. Qed.

Lemma get_contact_details_run self w :
  let u := base_url self +:+ "/pages/contact" in
  get_contact_details self w
  = (contact_of (page_of (respond (trace w) u)), log (EvGet u) w).
Proof. apply bind_fetch_page. Qed.

Lemma get_important_links_run self w :
  get_important_links self w
  = (links_of self (page_of (respond (trace w) (base_url self))),
     log (EvGet (base_url self)) w).
Proof. apply bind_fetch_page. Qed.

(** *** [scrape] *)

(** The hypothesis of [Requests_one] from a lemma that gives the pair a
    method returns. *)
Ltac one_request run := apply Requests_one; intros w; by rewrite run.

(** C3: whatever [scrape] returns, the requests it has made are the first
    ones of the nine of [scrape_urls], in that order, and nothing else has
    happened; if it returns a context it has made all nine. *)
Theorem scrape_requests self : Requests (scrape self) (scrape_urls self).
Proof.
  unfold scrape, scrape_urls.
  apply (Requests_bind _ _ [_]); [one_request get_product_catalog_run|intros ?].
  apply (Requests_bind _ _ [_]); [one_request get_hero_products_run|intros ?].
  apply (Requests_bind _ _ [_]); [one_request get_privacy_policy_run|intros ?].
  apply (Requests_bind _ _ [_]); [one_request get_return_policy_run|intros ?].
  apply (Requests_bind _ _ [_]); [one_request get_faqs_run|intros ?].
  apply (Requests_bind _ _ [_]); [one_request get_social_handles_run|intros ?].
  apply (Requests_bind _ _ [_]); [one_request get_contact_details_run|intros ?].
  apply (Requests_bind _ _ [_]); [one_request get_brand_description_run|intros ?].
  apply (Requests_bind _ _ [_] []); [one_request get_important_links_run|intros ?].
  apply Requests_lift.
Qed.

(** One step of a chain that has returned: the value and the state of the
    step [run] describes. *)
Ltac ran H run :=
  let a := fresh "a" in let w := fresh "w" in let E := fresh "E" in
  apply bind_Ok_inv in H as (a & w & E & H);
  rewrite run in E; cbv zeta in E; injection E as _ <-.

(** A scrape that returns has made its nine requests. *)
Lemma scrape_Ok_trace self w b w' :
  scrape self w = (Ok b, w') →
  trace w' = trace w ++ (EvGet <$> scrape_urls self).
Proof.
  intros Hs. unfold scrape in Hs.
  ran Hs get_product_catalog_run. ran Hs get_hero_products_run.
  ran Hs get_privacy_policy_run. ran Hs get_return_policy_run.
  ran Hs get_faqs_run. ran Hs get_social_handles_run.
  ran Hs get_contact_details_run. ran Hs get_brand_description_run.
  ran Hs get_important_links_run.
  apply lift_Ok_inv in Hs as [_ ->]. unfold scrape_urls. simpl.
  by rewrite <-!(assoc_L (++)).
Qed.

(** One step of [scrape]: the run of the method, then the trace kept as
    the trace before [scrape] and the requests made since. *)
Ltac runs run :=
  rewrite (bind_run _ _ _ _ _ (run _ _)); cbv zeta;
  rewrite ?trace_log, <-?(assoc_L (++)); simpl.

(** [scrape] in closed form: the first extractor that raises decides the
    exception, and otherwise the context is built from the fields. *)
Lemma scrape_run self w : (scrape self w).1 = scrape_result self w.
Proof.
  unfold scrape, scrape_result, page_after, trace_after, scrape_urls. simpl.
  rewrite ?app_nil_r.
  runs get_product_catalog_run. destruct (catalog_of _ _); simpl; [|done].
  runs get_hero_products_run. destruct (hero_products_of _ _); simpl; [|done].
  runs get_privacy_policy_run. runs get_return_policy_run. runs get_faqs_run.
  runs get_social_handles_run. destruct (social_handles_of _); simpl; [|done].
  runs get_contact_details_run. destruct (contact_of _); simpl; [|done].
  runs get_brand_description_run. runs get_important_links_run.
  by destruct (links_of _ _).
Qed.

(** C1: [scrape] returns a context exactly when the catalogue and the
    three extractors that validate return and the validators accept the
    base URL and every link; every field of the context is then the pure
    extractor of that field applied to the page its own request fetched
    (the i-th request is answered after the i earlier ones), so that no
    field depends on the page of another. *)
Theorem scrape_fields self w b :
  (scrape self w).1 = Ok b ↔
  let page := page_after self w in
  let u := base_url self in
  catalog_of self (respond (trace w) (u +:+ "/products.json"))
    = Ok (product_catalog b) ∧
  hero_products_of self (page 1 u) = Ok (hero_products b) ∧
  privacy_policy b
    = content_text sel_policy (page 2 (u +:+ "/policies/privacy-policy")) ∧
  return_policy b
    = content_text sel_policy (page 3 (u +:+ "/policies/refunded-policy")) ∧
  faqs b = faqs_of (page 4 (u +:+ "/pages/faq")) ∧
  social_handles_of (page 5 u) = Ok (social_handles b) ∧
  contact_of (page 6 (u +:+ "/pages/contact")) = Ok (contact_details b) ∧
  brand_description b = content_text sel_about (page 7 (u +:+ "/pages/about")) ∧
  (∃ links, links_of self (page 8 u) = Ok links ∧
     validate_links links = Ok (important_links b)) ∧
  http_url u = Some (store_url b).
Proof.
  rewrite scrape_run. unfold scrape_result, new_BrandContext. cbv zeta. split.
  - repeat result_step; try done.
    destruct (checked http_url _) eqn:Eu; [|done].
    destruct (validate_links _) eqn:El; [|done].
    intros [= <-]. simpl. apply checked_Ok in Eu. eauto 12.
  - destruct b. simpl.
    intros (-> & -> & -> & -> & -> & -> & -> & -> & (links & -> & El) & Eu).
    apply checked_Ok in Eu. simpl. by rewrite Eu, El.
Qed.

(** *** What [scrape] can raise *)

Lemma catalog_of_Raise self r e : catalog_of self r = Raise e → e ∈ catalog_errors.
Proof.
  unfold catalog_of. destruct r as [|status body]; [done|].
  destruct (_ && _); [done|]. destruct (parse_json body); [|done].
  apply products_of_data_Raise.
Qed.

Lemma hero_products_of_Raise self soup e :
  hero_products_of self soup = Raise e → e = ValidationError.
Proof.
  destruct soup as [s|]; [|done]. intros (card & _ & E)%result_map_Raise.
  revert E. rewrite hero_product_unfold.
  destruct (select_one _ _) as [a|] eqn:Ea; simpl; [|apply new_Product_Raise].
  destruct (sel_product_link_href _ _ Ea) as [href Eh].
  rewrite (attr_get_Ok _ _ _ Eh). apply new_Product_Raise.
Qed.

Lemma social_handles_of_Raise soup e :
  social_handles_of soup = Raise e → e = ValidationError.
Proof.
  destruct soup as [s|]; [|done]. intros (x & Hx & E)%result_map_Raise.
  destruct (sel_social_href _ _ Hx) as (href & Eh & _). revert E.
  unfold social_handle. rewrite (attr_get_Ok _ _ _ Eh).
  apply new_SocialHandle_Raise.
Qed.

Lemma contact_of_Raise soup e : contact_of soup = Raise e → e = ValidationError.
Proof. destruct soup; apply new_ContactDetail_Raise. Qed.

(** What the pure form of [scrape] raises. *)
Lemma scrape_result_Raise self w e :
  scrape_result self w = Raise e →
  e ∈ catalog_errors ∧
  (e ≠ ValidationError →
   catalog_of self (respond (trace w) (base_url self +:+ "/products.json"))
   = Raise e).
Proof.
  assert (ValidationError ∈ catalog_errors) by (unfold catalog_errors; elem_list).
  unfold scrape_result. cbv zeta.
  destruct (links_of_Ok self (page_after self w 8 (base_url self))) as [d Ed].
  rewrite Ed. repeat result_step.
  - by intros ->%new_BrandContext_Raise.
  - intros [= <-]. by apply contact_of_Raise in E2 as ->.
  - intros [= <-]. by apply social_handles_of_Raise in E1 as ->.
  - intros [= <-]. by apply hero_products_of_Raise in E0 as ->.
  - intros [= <-]. split; [by eapply catalog_of_Raise | done].
Qed.


(** The store URL of a context that [scrape] returns is the validated base
    URL. *)
Lemma scrape_Ok_store_url self w b :
  (scrape self w).1 = Ok b → http_url (base_url self) = Some (store_url b).
Proof.
  rewrite scrape_run. unfold scrape_result, new_BrandContext. cbv zeta.
  repeat result_step; try done.
  destruct (checked http_url _) eqn:Eu; [|done].
  destruct (validate_links _); [|done].
  intros [= <-]. by apply checked_Ok in Eu.
Qed.

End ScraperFacts.

(** ** The theorems at work on the demonstration storefront *)

#[local] Existing Instances Demo.platform Demo.network.

Lemma catalog_one_product_per_item_witness :
  length (product_catalog demo_context) = length Demo.catalog_items ∧
  result_map (product_of_item demo_scraper) Demo.catalog_items
  = Ok (product_catalog demo_context).
Proof.
  eapply (catalog_one_product_per_item demo_scraper Demo.w0 200 "CATALOG");
    [reflexivity | left; lia | reflexivity | reflexivity | vm_compute; reflexivity].
Defined.

Lemma catalog_raises_on_non_object_witness :
  (get_product_catalog (mkScraper (Demo.root +:+ "/list")) Demo.w0).1
  = Raise AttributeError.
Proof.
  apply (catalog_raises_on_non_object _ _ 200 "LIST" (Py.JArr []));
    [reflexivity | left; lia | reflexivity | reflexivity].
Defined.

Lemma product_of_item_fields_witness :
  product_of_item demo_scraper Demo.blue_mug
  = Ok (mkProduct (Some "7") "Blue Mug" (Some "12.00") (Some "<p>A mug</p>")
          (Some "https://shop.example.com/products/blue-mug")).
Proof.
  eapply (product_of_item_fields demo_scraper _ 7 "Blue Mug"
            [("price", Py.JStr "12.00")] [] "12.00" "<p>A mug</p>" "blue-mug");
    reflexivity.
Defined.

Lemma product_of_item_degraded_witness :
  product_of_item demo_scraper (Py.JObj [("variants", Py.JArr [])])
  = Raise IndexError.
Proof.
  apply (proj1 (proj2 (product_of_item_degraded demo_scraper))). reflexivity.
Defined.

Lemma get_product_catalog_degrades_witness :
  get_product_catalog (mkScraper "https://down.example.com") Demo.w0
  = (Ok [], log (EvGet "https://down.example.com/products.json") Demo.w0).
Proof.
  apply (get_product_catalog_degrades (mkScraper "https://down.example.com")).
  left. reflexivity.
Defined.



Lemma faqs_of_stripped_witness :
  Str.strip "Do you ship?" = "Do you ship?" ∧ Str.strip "Yes." = "Yes.".
Proof.
  apply (faqs_of_stripped (Some Demo.faq) (mkFAQ "Do you ship?" "Yes.")).
  vm_compute. apply list_elem_of_here.
Defined.

Lemma platform_of_facebook_witness :
  platform_of "https://www.facebook.com/shop" = "tiktok".
Proof. apply platform_of_facebook; reflexivity. Defined.

Lemma extract_emails_shape_witness :
  Re.is_email (Str.chars "a@b.co") ∧
  Str.contains "a@b.co" "reach us at a@b.co or 1234567890" = true.
Proof.
  apply (extract_emails_shape "reach us at a@b.co or 1234567890" "a@b.co").
  vm_compute. apply list_elem_of_here.
Defined.

Lemma extract_phone_numbers_shape_witness :
  ∃ pre post, "call +91 9876543210 now" = pre +:+ "+91 9876543210" +:+ post ∧
    Re.is_phone (Re.last_char None (Str.chars pre))
      (Str.chars "+91 9876543210") (Str.chars post) ∧
    10 ≤ length (Str.chars "+91 9876543210") ≤ 15.
Proof.
  apply (extract_phone_numbers_shape "call +91 9876543210 now").
  vm_compute. apply list_elem_of_here.
Defined.

Lemma links_of_last_witness :
  ∃ d, links_of demo_scraper (Some Demo.home) = Ok d ∧
    Dict.get (link_name (Demo.a "https://track.example.com/a" "Contact us")) d
    = Some (urljoin (base_url demo_scraper) "https://track.example.com/a").
Proof.
  apply (links_of_last demo_scraper Demo.home
           [Demo.a "/pages/contact" " Contact Us "; Demo.a "/blogs/news" "Blogs"]
           (Demo.a "https://track.example.com/a" "Contact us")
           [Demo.a "/pages/size" "Size guide"] "https://track.example.com/a");
    [reflexivity | reflexivity | apply mem_spec; reflexivity |].
  apply Forall_cons. split; [vm_compute; discriminate | apply Forall_nil; exact I].
Defined.

