(* ===== verification/Competitor.v ===== *)
(** * Competitor: the discovery of competitors in src/competitor.py

    [fetch_competitors] asks a search engine for storefronts, keeps links of
    the first three results and scrapes each of them with [scrape] of
    [Scraper], pausing one second after each scrape.  The coroutine runs from
    start to end without yielding to another task of the same request, so it
    is a computation over the same world as the scraper: the trace records
    its requests and its pauses in order. *)

From Stdlib Require Import Ascii String ZArith Lia.
From stdpp Require Import base tactics option list strings.
From S2P Require Import Prelude Regex Html Json Dict Models Net Database Fixtures Scraper.

Import Dom.
#[local] Open Scope py_scope.

(** ["a[href*='.myshopify.com']"] *)
Definition sel_myshopify : selector :=
  [[STag "a"; SAttrContains "href" ".myshopify.com"]].

Section Competitor.
Context `{Platform, Network}.

(** The URL of the search. *)
Definition search_url (brand_name : string) : string :=
  "https://www.google.com/search?q="
  +:+ quote ("site:*.myshopify.com " +:+ brand_name +:+ " competitors").

(** The body of the first loop: the [href] of a link, kept if it starts
    with ["http"]. *)
Definition competitor_url_of (link : node) : result (option string) :=
  match attr "href" link with
  | Some href => Ok (if Str.startswith "http" href then Some href else None)
  | None => Raise AttributeError
  end.

(** The first loop, over the first three links the selector finds. *)
Definition competitor_urls_of (soup : node) : result (list string) :=
  kept <-r result_map competitor_url_of (take 3 (select sel_myshopify soup)) ;;
  Ok (omap id kept).

(** The body of the second loop: a scrape, then the pause. *)
Definition scrape_competitor (url : string) : M World BrandContext :=
  competitor <- scrape (init url) ;;
  sleep 1 ;;;
  ret competitor.

Definition fetch_competitors (brand_name : string) (base_url : string)
    : M World (list BrandContext) :=
  response <- client_get (search_url brand_name) ;;
  if negb (response.1 =? 200) then ret []
  else
    competitor_urls <- lift (competitor_urls_of (parse_html response.2)) ;;
    for_each competitor_urls scrape_competitor.

(** What the second loop does to the world when every scrape returns: for
    each URL the nine requests of its scrape, then the pause. *)
Definition competitor_events (urls : list string) : list event :=
  urls ≫= λ url, (EvGet <$> scrape_urls (init url)) ++ [EvSleep 1].

End Competitor.

(** The competitors of the demonstration storefront. *)
Definition demo_competitors : result (list BrandContext) * World :=
  Eval vm_compute in
    fetch_competitors (H := Demo.platform) (H0 := Demo.network)
      "shop" Demo.root Demo.w0.

Definition demo_competitor_list : list BrandContext :=
  Eval vm_compute in
    match demo_competitors.1 with Ok l => l | Raise _ => [] end.

Section CompetitorFacts.
Context `{Platform, Network}.

(** ** The links kept *)

(** The loop over links that all have an [href]: it returns, and keeps the
    [href]s that start with ["http"], in order. *)
Lemma competitor_urls_kept l :
  Forall (λ x, is_Some (attr "href" x)) l →
  ∃ kept, result_map competitor_url_of l = Ok kept ∧
    omap id kept
    = filter (λ h, Str.startswith "http" h = true) (omap (attr "href") l).
Proof.
  induction 1 as [|x l [href Ex] _ (kept & Ek & IH)]; [by exists []|].
  simpl. unfold competitor_url_of at 1. rewrite Ex, Ek. csimpl.
  eexists. split; [done|]. rewrite filter_cons.
  case_decide as Hd; [|apply not_true_is_false in Hd]; rewrite Hd; csimpl;
    by rewrite IH.
Qed.

Lemma sel_myshopify_href soup :
  Forall (λ x, is_Some (attr "href" x)) (take 3 (select sel_myshopify soup)).
Proof.
  apply Forall_take, Forall_forall. intros x Hx.
  apply (select_attr "href") in Hx as [v ->]; [done | tests_attr].
Qed.

Lemma competitor_urls_of_Ok soup :
  competitor_urls_of soup
  = Ok (filter (λ h, Str.startswith "http" h = true)
          (omap (attr "href") (take 3 (select sel_myshopify soup)))).
Proof.
  destruct (competitor_urls_kept _ (sel_myshopify_href soup)) as (kept & Ek & E).
  unfold competitor_urls_of. by rewrite Ek, <-E.
Qed.

(** C19: the loop over the results never raises (every link selected has
    an [href]); it returns the [href]s that start with ["http"] among the
    first three links selected, so at most three URLs, and fewer when one
    of the first three links is relative, however many links follow. *)
Theorem competitor_urls_of_spec soup :
  ∃ urls, competitor_urls_of soup = Ok urls ∧
    urls = filter (λ h, Str.startswith "http" h = true)
             (omap (attr "href") (take 3 (select sel_myshopify soup))) ∧
    length urls ≤ 3.
Proof.
  eexists. split; [apply competitor_urls_of_Ok|]. split; [done|].
  etrans; [apply length_filter|]. etrans; [apply omap_length_le|].
  rewrite length_take. lia.
Qed.

(** ** The scrapes *)

(** One round of the second loop that returns: the nine requests of the
    scrape, then the pause. *)
Lemma scrape_competitor_Ok url w c w' :
  scrape_competitor url w = (Ok c, w') →
  (scrape (init url) w).1 = Ok c ∧
  trace w' = trace w ++ (EvGet <$> scrape_urls (init url)) ++ [EvSleep 1].
Proof.
  unfold scrape_competitor. intros (c' & w1 & Es & Hk)%bind_Ok_inv.
  injection Hk as <- <-. rewrite Es. split; [done|].
  rewrite trace_log, (scrape_Ok_trace _ _ _ _ Es). by rewrite <-(assoc_L (++)).
Qed.

Lemma for_each_scrape_competitor urls w cs w' :
  for_each urls scrape_competitor w = (Ok cs, w') →
  length cs = length urls ∧
  trace w' = trace w ++ competitor_events urls ∧
  Forall2 (λ url c, http_url (base_url (init url)) = Some (store_url c)) urls cs.
Proof.
  revert w cs w'. induction urls as [|url urls IH]; intros w cs w'; simpl.
  - intros [= <- <-]. by rewrite app_nil_r.
  - intros (c & w1 & [Es Ht]%scrape_competitor_Ok & Hk)%bind_Ok_inv.
    apply bind_Ok_inv in Hk as (cs' & w2 & (Hl & Ht' & Hu)%IH & [= <- <-]).
    simpl. rewrite Hl, Ht', Ht. unfold competitor_events. csimpl.
    rewrite <-!(assoc_L (++)).
    repeat split. constructor; [|done].
    by apply (scrape_Ok_store_url (init url) w).
Qed.

(** C9: a search answered with a status other than 200 yields no
    competitor, after the one request and without a pause; a status such
    as 201 or 206 is refused like an error. *)
Theorem fetch_competitors_not_200 brand_name root w status body :
  respond (trace w) (search_url brand_name) = Response status body →
  status ≠ 200 →
  fetch_competitors brand_name root w
  = (Ok [], log (EvGet (search_url brand_name)) w).
Proof.
  intros Hr Hs. unfold fetch_competitors.
  rewrite (bind_run _ _ _ _ _ (client_get_run _ _)), Hr. simpl.
  by destruct (Nat.eqb_spec status 200).
Qed.

(** C18: when the search is answered with status 200 and the discovery
    returns, it returns one context per URL kept, in order, each with the
    validated base URL of its storefront, and what has happened is the
    search request and then, for each URL, the nine requests of its scrape
    followed by a pause of one second: there is a pause after the last
    scrape too. *)
Theorem fetch_competitors_trace brand_name root w body urls cs w' :
  respond (trace w) (search_url brand_name) = Response 200 body →
  competitor_urls_of (parse_html body) = Ok urls →
  fetch_competitors brand_name root w = (Ok cs, w') →
  length cs = length urls ∧
  trace w' = trace w ++ EvGet (search_url brand_name) :: competitor_events urls ∧
  Forall2 (λ url c, http_url (base_url (init url)) = Some (store_url c)) urls cs.
Proof.
  intros Hr Hu. unfold fetch_competitors.
  rewrite (bind_run _ _ _ _ _ (client_get_run _ _)), Hr. simpl.
  rewrite Hu, bind_lift_Ok.
  intros (Hl & Ht & Hs)%for_each_scrape_competitor.
  rewrite Ht, trace_log, <-(assoc_L (++)). done.
Qed.

(** The discovery raises [ClientError] when the search has no response,
    and otherwise only what the scrape of a competitor raises. *)
Lemma fetch_competitors_Raise brand_name root w e :
  (fetch_competitors brand_name root w).1 = Raise e →
  (e = ClientError ∧ respond (trace w) (search_url brand_name) = Unreachable) ∨
  (e ∈ catalog_errors ∧
   ∃ body, respond (trace w) (search_url brand_name) = Response 200 body).
Proof.
  unfold fetch_competitors.
  rewrite (bind_run _ _ _ _ _ (client_get_run _ _)).
  destruct (respond _ _) as [|status body]; [intros [= <-]; by left|].
  simpl. destruct (Nat.eqb_spec status 200) as [->|]; [|done]. simpl.
  rewrite competitor_urls_of_Ok, bind_lift_Ok. destruct (for_each _ _ _) as [r w'] eqn:E.
  simpl. intros ->. right. split; [|by eexists].
  apply for_each_Raise in E as (url & w0 & w1 & _ & E).
  unfold scrape_competitor, bind in E.
  destruct (scrape (init url) w0) as [[c|e'] w2] eqn:Es; [done|].
  injection E as -> _. eapply scrape_result_Raise. by rewrite <-scrape_run, Es.
Qed.

End CompetitorFacts.

(** ** The theorems at work on the demonstration storefront *)

#[local] Existing Instances Demo.platform Demo.network.

Lemma fetch_competitors_not_200_witness :
  fetch_competitors "busy" Demo.root Demo.w0
  = (Ok [], log (EvGet (search_url "busy")) Demo.w0).
Proof.
  apply (fetch_competitors_not_200 "busy" Demo.root Demo.w0 429 "slow down");
    [reflexivity | lia].
Defined.

Lemma fetch_competitors_trace_witness :
  length demo_competitor_list
  = length ["https://rival.myshopify.com/"; "https://other.myshopify.com"] ∧
  trace demo_competitors.2
  = trace Demo.w0 ++ EvGet (search_url "shop")
      :: competitor_events
           ["https://rival.myshopify.com/"; "https://other.myshopify.com"] ∧
  Forall2 (λ url c, http_url (base_url (init url)) = Some (store_url c))
    ["https://rival.myshopify.com/"; "https://other.myshopify.com"]
    demo_competitor_list.
Proof.
  apply (fetch_competitors_trace "shop" Demo.root Demo.w0 "SEARCH");
    [reflexivity | vm_compute; reflexivity | vm_compute; reflexivity].
Defined.
