(* ===== verification/Main.v ===== *)
(** * Main: the persistence and the request handler of src/main.py

    [save_to_db] writes a brand context to the tables of [Database] through
    the session; [fetch_insights] is the handler of [POST /fetch-insights]:
    the check that the storefront answers, the scrape, the persistence, the
    discovery of competitors and their persistence, and the two [except]
    clauses that turn every failure into an [HTTPException].

    The handler acts on the world of [Net] and on the session of
    [Database]; its state [App] holds both, and [net] and [dbm] run a
    computation of one of them in it.  The validation of the request body
    ([URLInput]) and the serialisation of the response are done by the
    framework before and after the handler and are not modelled: the handler
    is given an input whose URL the validator has accepted. *)

From Stdlib Require Import Ascii String ZArith Lia.
From stdpp Require Import base tactics option list strings.
From S2P Require Import Prelude Regex Html Json Dict Models Net Database Fixtures Scraper Competitor.

#[local] Open Scope py_scope.

(** ** The state of a request *)

Record App : Type := mkApp {
  world : World;
  session : Db.Session;
}.

(** A computation on the world, and one on the session, in the state of
    the request. *)
Definition net {A} (m : M World A) : M App A :=
  λ a, let r := m (world a) in (r.1, mkApp r.2 (session a)).

Definition dbm {A} (m : M Db.Session A) : M App A :=
  λ a, let r := m (session a) in (r.1, mkApp (world a) r.2).

(** ** The rows of a context *)

(** [str(x.url) if x.url else None] *)
Definition url_or_none (url : option string) : option string :=
  match url with
  | Some u => if bool_decide (u = "") then None else Some u
  | None => None
  end.

(** The objects [save_to_db] builds, given [brand.id]. *)
Definition brand_row (brand_context : BrandContext) : Orm.entity :=
  Orm.EBrand (Orm.Brand.mk None (store_url brand_context)
                (brand_description brand_context)
                (privacy_policy brand_context) (return_policy brand_context)).

Definition product_row (product : Product) (brand_id : option nat) : Orm.entity :=
  Orm.EProduct (Orm.Product.mk None brand_id (title product) (price product)
                  (description product) (url_or_none (product_url product))).

Definition hero_product_row (product : Product) (brand_id : option nat)
    : Orm.entity :=
  Orm.EHeroProduct (Orm.HeroProduct.mk None brand_id (title product)
                      (price product) (description product)
                      (url_or_none (product_url product))).

Definition faq_row (faq : FAQ) (brand_id : option nat) : Orm.entity :=
  Orm.EFAQ (Orm.FAQ.mk None brand_id (question faq) (answer faq)).

Definition social_handle_row (handle : SocialHandle) (brand_id : option nat)
    : Orm.entity :=
  Orm.ESocialHandle (Orm.SocialHandle.mk None brand_id (platform handle)
                       (handle_url handle)).

Definition email_row (email : string) (brand_id : option nat) : Orm.entity :=
  Orm.EContactDetail (Orm.ContactDetail.mk None brand_id (Some email) None).

Definition phone_row (phone : string) (brand_id : option nat) : Orm.entity :=
  Orm.EContactDetail (Orm.ContactDetail.mk None brand_id None (Some phone)).

Definition important_link_row (item : string * string) (brand_id : option nat)
    : Orm.entity :=
  Orm.EImportantLink (Orm.ImportantLink.mk None brand_id item.1 item.2).

(** The child objects of a context, in the order [save_to_db] adds them. *)
Definition child_rows (brand_id : option nat) (brand_context : BrandContext)
    : list Orm.entity :=
  ((λ x, product_row x brand_id) <$> product_catalog brand_context) ++
  ((λ x, hero_product_row x brand_id) <$> hero_products brand_context) ++
  ((λ x, faq_row x brand_id) <$> faqs brand_context) ++
  ((λ x, social_handle_row x brand_id) <$> social_handles brand_context) ++
  ((λ x, email_row x brand_id) <$> emails (contact_details brand_context)) ++
  ((λ x, phone_row x brand_id) <$> phone_numbers (contact_details brand_context)) ++
  ((λ x, important_link_row x brand_id)
     <$> Dict.items (important_links brand_context)).

Section Main.
Context `{Platform, Network, Engine}.

(** [db.add(C(brand_id=brand.id, ...))] for the object [brand] of the
    session. *)
Definition add_with_brand (brand : nat) (row : option nat → Orm.entity)
    : M Db.Session nat :=
  brand_id <- Db.id_of brand ;;
  Db.add (row brand_id).

Definition save_to_db (brand_context : BrandContext) : M Db.Session unit :=
  brand <- Db.add (brand_row brand_context) ;;
  Db.commit ;;;
  Db.refresh brand ;;;
  for_each (product_catalog brand_context)
    (λ product, add_with_brand brand (product_row product)) ;;;
  for_each (hero_products brand_context)
    (λ product, add_with_brand brand (hero_product_row product)) ;;;
  for_each (faqs brand_context)
    (λ faq, add_with_brand brand (faq_row faq)) ;;;
  for_each (social_handles brand_context)
    (λ handle, add_with_brand brand (social_handle_row handle)) ;;;
  for_each (emails (contact_details brand_context))
    (λ email, add_with_brand brand (email_row email)) ;;;
  for_each (phone_numbers (contact_details brand_context))
    (λ phone, add_with_brand brand (phone_row phone)) ;;;
  for_each (Dict.items (important_links brand_context))
    (λ item, add_with_brand brand (important_link_row item)) ;;;
  Db.commit.

(** The row of the brand once [save_to_db] has committed it to [rows]. *)
Definition saved_brand (rows : list Orm.entity) (brand_context : BrandContext)
    : Orm.entity :=
  Orm.with_id (next_id (Db.keys Orm.brands rows)) (brand_row brand_context).

(** [input.website_url.host.split(".")[0]] *)
Definition brand_name_of (website_url : string) : string :=
  Str.before "." (url_host website_url).

(** The two [except] clauses of the handler, in order. *)
Definition on_exception {A} (e : exn) : M App A :=
  if is_HTTPException e then raise e
  else raise (HTTPException 500 ("Internal error: " +:+ exn_str e)).

(** The end of the [try] block, from the persistence on. *)
Definition persist_and_compete (input : URLInput) (brand_context : BrandContext)
    : M App APIResponse :=
  dbm (save_to_db brand_context) ;;;
  let brand_name := brand_name_of (website_url input) in
  competitors <- net (fetch_competitors brand_name (website_url input)) ;;
  for_each competitors (λ competitor, dbm (save_to_db competitor)) ;;;
  ret (mkAPIResponse "success" (Some brand_context) None None).

(** The [try] block of the handler. *)
Definition fetch_insights_try (input : URLInput) : M App APIResponse :=
  let scraper := init (website_url input) in
  soup <- net (fetch_page (website_url input)) ;;
  match soup with
  | None => raise (HTTPException 401 "Website not found")
  | Some _ => ret tt
  end ;;;
  brand_context <- net (scrape scraper) ;;
  persist_and_compete input brand_context.

Definition fetch_insights (input : URLInput) : M App APIResponse :=
  try_catch (fetch_insights_try input) (λ _, true) on_exception.

End Main.

(** ** The demonstration storefront, saved and handled *)

Definition demo_app : App := mkApp Demo.w0 (Db.mkSession [] []).

Definition demo_saved : Db.Session :=
  Eval vm_compute in
    (save_to_db (H1 := serial) demo_context (Db.mkSession [] [])).2.

Definition demo_handled : result APIResponse * App :=
  Eval vm_compute in
    fetch_insights (H := Demo.platform) (H0 := Demo.network) (H1 := serial)
      (mkURLInput Demo.root) demo_app.

(** A storefront for which the search of competitors has no response. *)
Definition lone : string := "https://lone.example.com".

Definition lone_run : result BrandContext * World :=
  Eval vm_compute in
    scrape (H := Demo.platform) (H0 := Demo.network) (init lone)
      (log (EvGet lone) Demo.w0).

Definition lone_context : BrandContext :=
  Eval vm_compute in
    match lone_run.1 with Ok b => b | Raise _ => empty_context end.

(** ** Lemmas on the state of a request *)

Lemma net_run {A} (m : M World A) a r w' :
  m (world a) = (r, w') → net m a = (r, mkApp w' (session a)).
Proof. unfold net. by intros ->. Qed.

Lemma dbm_run {A} (m : M Db.Session A) a r s' :
  m (session a) = (r, s') → dbm m a = (r, mkApp (world a) s').
Proof. unfold dbm. by intros ->. Qed.

Lemma net_session {A} (m : M World A) a : session (net m a).2 = session a.
Proof. done. Qed.

Lemma dbm_world {A} (m : M Db.Session A) a : world (dbm m a).2 = world a.
Proof. done. Qed.

(** ** The rows of a context *)

(** The child objects are new and none of them is a brand. *)
Lemma child_rows_new brand_id brand_context :
  Forall (λ e, Orm.id e = None ∧ Orm.store_url e = None)
    (child_rows brand_id brand_context).
Proof.
  unfold child_rows. rewrite !Forall_app, !Forall_fmap.
  repeat split; by apply Forall_true.
Qed.

(** They point to the brand they were built for. *)
Lemma child_rows_brand_id brand_id brand_context e :
  e ∈ child_rows brand_id brand_context → Orm.brand_id e = brand_id.
Proof.
  unfold child_rows. rewrite !elem_of_app, !list_elem_of_fmap.
  intros H; repeat destruct H as [H|H]; by destruct H as (? & -> & _).
Qed.

Section MainFacts.
Context `{Platform, Network, Engine}.

(** ** [save_to_db] *)

(** A loop that adds one object per element, each with the key of the
    brand, which is the object after [pre] in the session. *)
Lemma add_with_brand_each {A} (row : A → option nat → Orm.entity) l rows pre e post :
  ∃ hs,
    for_each l (λ x, add_with_brand (length pre) (row x))
      (Db.mkSession rows (pre ++ e :: post))
    = (Ok hs,
       Db.mkSession rows (pre ++ e :: post ++ ((λ x, row x (Orm.id e)) <$> l))).
Proof.
  revert post. induction l as [|x l IH]; intros post; simpl.
  - exists []. by rewrite app_nil_r.
  - unfold bind at 1, add_with_brand at 1, bind at 1, Db.id_of, Db.add. simpl.
    rewrite list_lookup_middle by done. simpl.
    destruct (IH (post ++ [row x (Orm.id e)])) as [hs E]. unfold bind at 1.
    rewrite <-(assoc_L (++) post) in E. simpl in E.
    rewrite <-(assoc_L (++) pre). simpl. rewrite E. simpl. by eexists.
Qed.

(** One loop of [save_to_db], when the chain has reached it. *)
Ltac add_loop :=
  match goal with
  | |- context [bind (for_each ?l (λ x, add_with_brand _ (@?row x))) _
                  (Db.mkSession ?rows (?pre ++ ?e :: ?post))] =>
      let E := fresh in
      destruct (add_with_brand_each row l rows pre e post) as [? E];
      rewrite (bind_run _ _ _ _ _ E); clear E
  end.
(** What [save_to_db] does when the store URL is new: the brand is
    inserted with a new key, then the child objects with that key. *)
Lemma save_to_db_new_run brand_context rows objs :
  Forall (λ e, is_Some (Orm.id e)) objs →
  store_url brand_context ∉ Db.store_urls rows →
  let b := saved_brand rows brand_context in
  ∃ l', save_to_db brand_context (Db.mkSession rows objs)
        = (Ok tt, Db.mkSession (rows ++ b :: l') (objs ++ b :: l')) ∧
    Orm.unkeyed <$> l' = child_rows (Orm.id b) brand_context ∧
    Forall (λ e, is_Some (Orm.id e)) (b :: l') ∧
    (Db.wf rows → Db.wf (rows ++ b :: l')).
Proof.
  intros Hk Hn b. unfold save_to_db.
  rewrite (bind_run _ _ _ _ _ (add_run _ _)). simpl.
  rewrite (bind_run _ _ _ _ _
             (commit_new_brand _ _ (brand_row brand_context) _ Hk eq_refl eq_refl Hn)).
  fold b. assert (Hb : b ∈ rows ++ [b]) by (apply elem_of_app; right; by left).
  rewrite (bind_run _ _ _ _ _ (refresh_run _ objs b [] Hb)).
  simpl. repeat add_loop. cbn [app].
  match goal with
  | |- context [Db.mkSession _ (objs ++ b :: ?L)] =>
      replace L with (child_rows (Orm.id b) brand_context)
        by (unfold child_rows; by rewrite <-!(assoc_L (++)))
  end.
  destruct (commit_children (rows ++ [b]) (objs ++ [b])
              (child_rows (Orm.id b) brand_context)) as (l' & E & El & Hk' & Hwf);
    [apply Forall_app; split; [done | by apply Forall_singleton]
    | apply child_rows_new |].
  exists l'. rewrite <-!(assoc_L (++)) in E. rewrite <-!(assoc_L (++)) in Hwf.
  cbn [app] in E, Hwf. rewrite E. split; [done|]. split; [done|].
  split; [constructor; [by unfold b, saved_brand; rewrite id_with_id | done]|].
  intros Hr. apply Hwf. by eapply insert_brand_wf.
Qed.

(** What it does when the store URL is in the table: the first commit
    fails, nothing is written and nothing stays in the session. *)
Lemma save_to_db_duplicate_run brand_context rows objs :
  Forall (λ e, is_Some (Orm.id e)) objs →
  store_url brand_context ∈ Db.store_urls rows →
  save_to_db brand_context (Db.mkSession rows objs)
  = (Raise IntegrityError, Db.mkSession rows objs).
Proof.
  intros Hk Hn. unfold save_to_db.
  rewrite (bind_run _ _ _ _ _ (add_run _ _)). simpl.
  by rewrite (bind_run _ _ _ _ _
                (commit_duplicate_brand _ _ (brand_row brand_context) _
                   Hk eq_refl eq_refl Hn)).
Qed.

(** The two runs of [save_to_db] on a session where no object waits. *)
Lemma save_to_db_cases brand_context s :
  Forall (λ e, is_Some (Orm.id e)) (Db.objects s) →
  (store_url brand_context ∈ Db.store_urls (Db.rows s) ∧
   save_to_db brand_context s = (Raise IntegrityError, s)) ∨
  ((store_url brand_context ∉ Db.store_urls (Db.rows s)) ∧
   ∃ l', save_to_db brand_context s
         = (Ok tt, Db.mkSession
                     (Db.rows s ++ saved_brand (Db.rows s) brand_context :: l')
                     (Db.objects s ++ saved_brand (Db.rows s) brand_context :: l')) ∧
     Orm.unkeyed <$> l'
     = child_rows (Orm.id (saved_brand (Db.rows s) brand_context)) brand_context ∧
     Forall (λ e, is_Some (Orm.id e))
       (saved_brand (Db.rows s) brand_context :: l') ∧
     (Db.wf (Db.rows s) →
      Db.wf (Db.rows s ++ saved_brand (Db.rows s) brand_context :: l'))).
Proof.
  destruct s as [rows objs]. simpl. intros Hk.
  destruct (decide (store_url brand_context ∈ Db.store_urls rows));
    [left | right]; (split; [done|]).
  - by apply save_to_db_duplicate_run.
  - by apply save_to_db_new_run.
Qed.

(** The rows after a brand and its children were inserted are linked. *)
Lemma linked_saved rows n brand_context l' :
  Db.linked rows →
  Orm.unkeyed <$> l' = child_rows (Some n) brand_context →
  Db.linked (rows ++ Orm.with_id n (brand_row brand_context) :: l').
Proof.
  intros Hl El e k [He|[->|He]%elem_of_cons]%elem_of_app Hk.
  - rewrite keys_app, elem_of_app. left. by eapply Hl.
  - by rewrite brand_id_with_id in Hk.
  - apply (list_elem_of_fmap_2 Orm.unkeyed) in He. rewrite El in He.
    apply child_rows_brand_id in He. rewrite brand_id_unkeyed, Hk in He.
    injection He as ->. by eapply keys_brand.
Qed.

(** C13: on a session where no object waits and for a store URL that is
    not in [brands], [save_to_db] returns and has added, to each table, the
    rows of the context in order: one brand with a key [n] that no brand
    had, and the products, hero products, FAQs, social handles, one contact
    row per address and then one per phone number, and the links, all with
    [brand_id = n]. *)
Theorem save_to_db_fresh brand_context s :
  Forall (λ e, is_Some (Orm.id e)) (Db.objects s) →
  store_url brand_context ∉ Db.store_urls (Db.rows s) →
  ∃ n s', save_to_db brand_context s = (Ok tt, s') ∧
    (n ∉ Db.keys Orm.brands (Db.rows s)) ∧
    ∀ t, Orm.unkeyed <$> Db.rows_of t (Db.rows s')
         = (Orm.unkeyed <$> Db.rows_of t (Db.rows s))
           ++ Db.rows_of t (brand_row brand_context
                            :: child_rows (Some n) brand_context).
Proof.
  intros Hk Hn.
  destruct (save_to_db_cases brand_context s Hk)
    as [[? _]|(_ & l' & E & El & _ & _)]; [done|].
  eexists _, _. split; [exact E|]. split; [apply next_id_fresh|].
  intros t. simpl. unfold saved_brand in *. rewrite id_with_id in El.
  rewrite !rows_of_unkeyed, fmap_app, rows_of_app. csimpl. by rewrite El.
Qed.

(** C14: when the store URL of the context is already in [brands], the
    first commit violates the unique index: [save_to_db] raises
    [IntegrityError] and leaves the rows and the session as they were. *)
Theorem save_to_db_duplicate brand_context s :
  Forall (λ e, is_Some (Orm.id e)) (Db.objects s) →
  store_url brand_context ∈ Db.store_urls (Db.rows s) →
  save_to_db brand_context s = (Raise IntegrityError, s).
Proof.
  intros Hk Hn.
  by destruct (save_to_db_cases brand_context s Hk) as [[_ E]|[? _]].
Qed.

(** C15: whatever it returns, [save_to_db] keeps the session sound: every
    row has a key, no key twice in a table, no store URL twice, every child
    row points to a brand of the table, and no object is left waiting. *)
Theorem save_to_db_ok brand_context s r s' :
  Db.ok s → save_to_db brand_context s = (r, s') → Db.ok s'.
Proof.
  intros (Hwf & Hl & Hk) E.
  destruct (save_to_db_cases brand_context s Hk)
    as [[_ E']|(_ & l' & E' & El & Hk' & Hwf')];
    rewrite E' in E; injection E as _ <-; [done|].
  specialize (Hwf' Hwf). unfold saved_brand in *. rewrite id_with_id in El.
  repeat split; simpl; [apply Hwf'.. | by apply linked_saved |].
  by apply Forall_app.
Qed.

(** ** [fetch_insights] *)

(** The loop that saves the competitors keeps the session without waiting
    objects and the store URLs it has, leaves the world alone, and raises
    nothing but [IntegrityError]. *)
Lemma save_each_inv u competitors a r a' :
  Forall (λ e, is_Some (Orm.id e)) (Db.objects (session a)) →
  u ∈ Db.store_urls (Db.rows (session a)) →
  for_each competitors (λ competitor, dbm (save_to_db competitor)) a = (r, a') →
  (Forall (λ e, is_Some (Orm.id e)) (Db.objects (session a')) ∧
   u ∈ Db.store_urls (Db.rows (session a')) ∧ world a' = world a) ∧
  ∀ e, r = Raise e → e = IntegrityError.
Proof.
  intros Hk Hu.
  apply (for_each_inv
           (λ b, Forall (λ e, is_Some (Orm.id e)) (Db.objects (session b)) ∧
                 u ∈ Db.store_urls (Db.rows (session b)) ∧ world b = world a));
    [|done].
  intros c b r0 b' (Hkb & Hub & Hw) E. unfold dbm in E.
  destruct (save_to_db_cases c (session b) Hkb)
    as [[_ E']|(_ & l' & E' & _ & Hk' & _)]; rewrite E' in E;
    injection E as <- <-.
  - split; [done|]. by intros e [= <-].
  - simpl. split; [|done]. split; [by apply Forall_app|]. split; [|done].
    rewrite store_urls_app, elem_of_app. by left.
Qed.


(** The first two steps of the handler: the check of the root page and the
    scrape. *)
Lemma fetch_insights_try_run input a :
  let url := website_url input in
  let w1 := log (EvGet url) (world a) in
  fetch_insights_try input a
  = match page_of (respond (trace (world a)) url) with
    | None => (Raise (HTTPException 401 "Website not found"), mkApp w1 (session a))
    | Some _ =>
        match scrape (init url) w1 with
        | (Ok brand_context, w2) =>
            persist_and_compete input brand_context (mkApp w2 (session a))
        | (Raise e, w2) => (Raise e, mkApp w2 (session a))
        end
    end.
Proof.
  intros url w1. unfold fetch_insights_try. cbv zeta.
  rewrite (bind_run _ _ _ _ _ (net_run _ _ _ _ (fetch_page_run _ _))).
  fold url w1. destruct (page_of _); [|done]. rewrite bind_ret_l.
  unfold bind at 1, net. simpl. by destruct (scrape _ _) as [[?|?] ?].
Qed.

(** The end of the handler, on a session where no object waits. *)
Lemma persist_and_compete_run input brand_context w s r a' :
  let url := website_url input in
  Forall (λ e, is_Some (Orm.id e)) (Db.objects s) →
  persist_and_compete input brand_context (mkApp w s) = (r, a') →
  (store_url brand_context ∈ Db.store_urls (Db.rows s) ∧
   r = Raise IntegrityError ∧ a' = mkApp w s) ∨
  ((store_url brand_context ∉ Db.store_urls (Db.rows s)) ∧
   store_url brand_context ∈ Db.store_urls (Db.rows (session a')) ∧
   world a' = (fetch_competitors (brand_name_of url) url w).2 ∧
   match (fetch_competitors (brand_name_of url) url w).1 with
   | Raise e => r = Raise e
   | Ok _ =>
       r = Ok (mkAPIResponse "success" (Some brand_context) None None) ∨
       r = Raise IntegrityError
   end).
Proof.
  intros url Hk. unfold persist_and_compete. cbv zeta. fold url.
  destruct (save_to_db_cases brand_context s Hk)
    as [[Hu E]|(Hu & l' & E & _ & Hk' & _)];
    rewrite (bind_run _ _ _ _ _ (dbm_run _ (mkApp w s) _ _ E)).
  { intros [= <- <-]. by left. }
  intros Hrun. right. split; [done|]. revert Hrun. unfold bind at 1, net. simpl.
  assert (Hin : store_url brand_context
                ∈ Db.store_urls (Db.rows s ++ saved_brand (Db.rows s) brand_context :: l')).
  { rewrite store_urls_app, elem_of_app. right. left. }
  destruct (fetch_competitors _ _ w) as [[cs|e] w3]; simpl.
  - unfold bind at 1. destruct (for_each _ _ _) as [r0 a0] eqn:El.
    eapply save_each_inv in El as [(_ & Hu' & Hw) Hr]; [|by apply Forall_app|done].
    destruct r0 as [?|e]; intros [= <- <-]; [by eauto|].
    rewrite (Hr e eq_refl). by eauto.
  - intros [= <- <-]. done.
Qed.

(** What the discovery raises is not an [HTTPException]. *)
Lemma handler_errors_uncaught e :
  e ∈ IntegrityError :: ClientError :: catalog_errors → is_HTTPException e = false.
Proof. unfold catalog_errors. intros He. by elem_list. Qed.

(** What the [try] block raises. *)
Lemma fetch_insights_try_Raise input a e a' :
  let url := website_url input in
  Forall (λ o, is_Some (Orm.id o)) (Db.objects (session a)) →
  fetch_insights_try input a = (Raise e, a') →
  (e = HTTPException 401 "Website not found" ∧
   page_of (respond (trace (world a)) url) = None) ∨
  (e ∈ IntegrityError :: ClientError :: catalog_errors ∧
   page_of (respond (trace (world a)) url) ≠ None).
Proof.
  intros url Hk. rewrite fetch_insights_try_run. fold url.
  destruct (page_of _) as [page|]; [|intros [= <- _]; by left].
  intros Hrun. right. split; [|done]. revert Hrun.
  destruct (scrape _ _) as [[brand_context|e0] w2] eqn:Es.
  - intros [(_ & [= ->] & _)|(_ & _ & _ & Hr)]%persist_and_compete_run;
      [by left | | done].
    destruct (fetch_competitors _ _ _) as [[cs|e1] w3] eqn:Ec; simpl in Hr.
    + destruct Hr as [?|[= ->]]; [done | by left].
    + injection Hr as ->. right. apply (f_equal fst) in Ec.
      apply fetch_competitors_Raise in Ec as [[-> _]|[? _]]; [by left | by right].
  - intros [= <- _]. do 2 right.
    eapply scrape_result_Raise. by rewrite <-scrape_run, Es.
Qed.

(** C4: when the root page cannot be fetched (no response, or a status in
    400..599) the handler raises [HTTPException] 401 ["Website not found"]
    after that one request; nothing is scraped and the session is left
    alone. *)
Theorem fetch_insights_not_found input a :
  let url := website_url input in
  respond (trace (world a)) url = Unreachable ∨
  (∃ status body, respond (trace (world a)) url = Response status body ∧
     400 ≤ status < 600) →
  fetch_insights input a
  = (Raise (HTTPException 401 "Website not found"),
     mkApp (log (EvGet url) (world a)) (session a)).
Proof.
  intros url Hp%page_of_None. unfold fetch_insights, try_catch.
  rewrite fetch_insights_try_run. fold url. by rewrite Hp.
Qed.

(** C11: the handler raises nothing but [HTTPException]: 401 exactly when
    the root page cannot be fetched, and otherwise 500 with the message of
    an [IntegrityError], a [ClientError] or an exception of the catalogue
    loop or of a validator. *)
Theorem fetch_insights_Raise input a e :
  let url := website_url input in
  Forall (λ o, is_Some (Orm.id o)) (Db.objects (session a)) →
  (fetch_insights input a).1 = Raise e →
  (e = HTTPException 401 "Website not found" ∧
   page_of (respond (trace (world a)) url) = None) ∨
  (∃ e0, e = HTTPException 500 ("Internal error: " +:+ exn_str e0) ∧
     e0 ∈ IntegrityError :: ClientError :: catalog_errors ∧
     page_of (respond (trace (world a)) url) ≠ None).
Proof.
  intros url Hk. unfold fetch_insights, try_catch.
  destruct (fetch_insights_try input a) as [[response|e0] a'] eqn:E;
    simpl; [done|].
  destruct (fetch_insights_try_Raise input a e0 a' Hk E) as [[-> Hp]|[He Hp]].
  - intros [= <-]. by left.
  - unfold on_exception. rewrite (handler_errors_uncaught _ He).
    intros [= <-]. right. by exists e0.
Qed.

(** C12: when the handler returns, the response has status ["success"] and
    carries the context that [scrape] returned after the check of the root
    page; the store URL of the context was not in [brands] before and is in
    [brands] afterwards. *)
Theorem fetch_insights_success input a response a' :
  let url := website_url input in
  Forall (λ o, is_Some (Orm.id o)) (Db.objects (session a)) →
  fetch_insights input a = (Ok response, a') →
  ∃ brand_context,
    response = mkAPIResponse "success" (Some brand_context) None None ∧
    (scrape (init url) (log (EvGet url) (world a))).1 = Ok brand_context ∧
    (store_url brand_context ∉ Db.store_urls (Db.rows (session a))) ∧
    store_url brand_context ∈ Db.store_urls (Db.rows (session a')).
Proof.
  intros url Hk. unfold fetch_insights, try_catch.
  destruct (fetch_insights_try input a) as [[r|e0] a0] eqn:E;
    [|unfold on_exception; by destruct (is_HTTPException e0)].
  intros [= -> ->]. rewrite fetch_insights_try_run in E. fold url in E.
  destruct (page_of _); [|done].
  destruct (scrape _ _) as [[brand_context|?] w2]; [|done].
  apply persist_and_compete_run in E as [(_ & [=] & _)|(Hn & Hu & _ & Hr)];
    [|done]. exists brand_context.
  destruct (fetch_competitors _ _ _).1; [|done].
  by destruct Hr as [[= ->]|[=]].
Qed.

(** C16: a storefront whose store URL is already in [brands] cannot be
    fetched again: after the check and the scrape the first commit fails,
    and the handler raises [HTTPException] 500 with the message of the
    [IntegrityError], leaving the rows as they were. *)
Theorem fetch_insights_duplicate input a page brand_context w2 :
  let url := website_url input in
  page_of (respond (trace (world a)) url) = Some page →
  scrape (init url) (log (EvGet url) (world a)) = (Ok brand_context, w2) →
  Forall (λ o, is_Some (Orm.id o)) (Db.objects (session a)) →
  store_url brand_context ∈ Db.store_urls (Db.rows (session a)) →
  fetch_insights input a
  = (Raise (HTTPException 500 ("Internal error: " +:+ exn_str IntegrityError)),
     mkApp w2 (session a)).
Proof.
  intros url Hp Hs Hk Hu. unfold fetch_insights, try_catch.
  rewrite fetch_insights_try_run. fold url. rewrite Hp, Hs.
  unfold persist_and_compete.
  destruct (save_to_db_cases brand_context (session a) Hk) as [[_ E]|[? _]];
    [|done].
  by rewrite (bind_run _ _ _ _ _ (dbm_run _ (mkApp w2 (session a)) _ _ E)).
Qed.

(** C17: when the discovery of competitors fails after the brand was
    saved, the handler raises [HTTPException] 500 although the brand is in
    the database: the response says failure and the rows say success. *)
Theorem fetch_insights_competitor_failure input a page brand_context w2 e w3 :
  let url := website_url input in
  page_of (respond (trace (world a)) url) = Some page →
  scrape (init url) (log (EvGet url) (world a)) = (Ok brand_context, w2) →
  Forall (λ o, is_Some (Orm.id o)) (Db.objects (session a)) →
  store_url brand_context ∉ Db.store_urls (Db.rows (session a)) →
  fetch_competitors (brand_name_of url) url w2 = (Raise e, w3) →
  ∃ a', fetch_insights input a
        = (Raise (HTTPException 500 ("Internal error: " +:+ exn_str e)), a') ∧
    store_url brand_context ∈ Db.store_urls (Db.rows (session a')) ∧
    world a' = w3.
Proof.
  intros url Hp Hs Hk Hu Hc. unfold fetch_insights, try_catch.
  rewrite fetch_insights_try_run. fold url. rewrite Hp, Hs.
  destruct (persist_and_compete _ _ _) as [r a'] eqn:E.
  apply persist_and_compete_run in E as [[? _]|(_ & Hin & Hw & Hr)];
    [done | | done].
  fold url in Hw, Hr. rewrite Hc in Hw, Hr. simpl in Hw, Hr. subst r.
  exists a'. unfold on_exception. rewrite handler_errors_uncaught; [done|].
  apply (f_equal fst) in Hc.
  apply fetch_competitors_Raise in Hc as [[-> _]|[? _]]; [by right; left|].
  by do 2 right.
Qed.

End MainFacts.


(** ** The theorems at work on the demonstration storefront *)

#[local] Existing Instances Demo.platform Demo.network serial.

Lemma save_to_db_fresh_witness :
  ∃ n s', save_to_db demo_context (Db.mkSession [] []) = (Ok tt, s') ∧
    (n ∉ Db.keys Orm.brands []) ∧
    ∀ t, Orm.unkeyed <$> Db.rows_of t (Db.rows s')
         = (Orm.unkeyed <$> Db.rows_of t [])
           ++ Db.rows_of t (brand_row demo_context
                            :: child_rows (Some n) demo_context).
Proof.
  apply (save_to_db_fresh demo_context (Db.mkSession [] []));
    [constructor | apply not_elem_of_nil].
Defined.

Lemma save_to_db_duplicate_witness :
  save_to_db demo_context demo_saved = (Raise IntegrityError, demo_saved).
Proof.
  apply (save_to_db_duplicate demo_context demo_saved).
  - vm_compute. repeat constructor; by eexists.
  - vm_compute. apply list_elem_of_here.
Defined.

Lemma save_to_db_ok_witness : Db.ok demo_saved.
Proof.
  apply (save_to_db_ok demo_context (Db.mkSession [] []) (Ok tt));
    [apply ok_empty | vm_compute; reflexivity].
Defined.

Lemma fetch_insights_not_found_witness :
  fetch_insights (mkURLInput "https://down.example.com") demo_app
  = (Raise (HTTPException 401 "Website not found"),
     mkApp (log (EvGet "https://down.example.com") Demo.w0)
       (Db.mkSession [] [])).
Proof.
  apply (fetch_insights_not_found (mkURLInput "https://down.example.com")
           demo_app).
  left. reflexivity.
Defined.

Lemma fetch_insights_Raise_witness :
  (HTTPException 401 "Website not found"
   = HTTPException 401 "Website not found" ∧
   page_of (respond (trace Demo.w0) "https://down.example.com") = None) ∨
  (∃ e0, HTTPException 401 "Website not found"
         = HTTPException 500 ("Internal error: " +:+ exn_str e0) ∧
     e0 ∈ IntegrityError :: ClientError :: catalog_errors ∧
     page_of (respond (trace Demo.w0) "https://down.example.com") ≠ None).
Proof.
  apply (fetch_insights_Raise (mkURLInput "https://down.example.com") demo_app);
    [constructor | vm_compute; reflexivity].
Defined.

Lemma fetch_insights_success_witness :
  ∃ brand_context,
    match demo_handled.1 with
    | Ok response => response
    | Raise _ => mkAPIResponse "" None None None
    end = mkAPIResponse "success" (Some brand_context) None None ∧
    (scrape (init Demo.root) (log (EvGet Demo.root) Demo.w0)).1
    = Ok brand_context ∧
    (store_url brand_context ∉ Db.store_urls []) ∧
    store_url brand_context ∈ Db.store_urls (Db.rows (session demo_handled.2)).
Proof.
  apply (fetch_insights_success (mkURLInput Demo.root) demo_app);
    [constructor | vm_compute; reflexivity].
Defined.

Lemma fetch_insights_duplicate_witness :
  fetch_insights (mkURLInput Demo.root) (mkApp Demo.w0 demo_saved)
  = (Raise (HTTPException 500 ("Internal error: " +:+ exn_str IntegrityError)),
     mkApp (scrape (init Demo.root) (log (EvGet Demo.root) Demo.w0)).2
       demo_saved).
Proof.
  apply (fetch_insights_duplicate (mkURLInput Demo.root)
           (mkApp Demo.w0 demo_saved) Demo.home demo_context).
  - reflexivity.
  - vm_compute. reflexivity.
  - vm_compute. repeat constructor; by eexists.
  - vm_compute. apply list_elem_of_here.
Defined.

Lemma fetch_insights_competitor_failure_witness :
  ∃ a', fetch_insights (mkURLInput lone) demo_app
        = (Raise (HTTPException 500 ("Internal error: " +:+ exn_str ClientError)),
           a') ∧
    store_url lone_context ∈ Db.store_urls (Db.rows (session a')) ∧
    world a' = (fetch_competitors (brand_name_of lone) lone lone_run.2).2.
Proof.
  apply (fetch_insights_competitor_failure (mkURLInput lone) demo_app
           Demo.home lone_context lone_run.2 ClientError).
  - reflexivity.
  - vm_compute. reflexivity.
  - constructor.
  - apply not_elem_of_nil.
  - vm_compute. reflexivity.
Defined.
